(** * minitorch: the Tensor object for autodifferentiation

    A shallow embedding of [minitorch/tensor.py] together with models of
    the modules it imports ([tensor_data], [tensor_ops], [operators],
    [autodiff]), and theorems about the tensor operations, the backward
    pass and the gradient checker.

    Python objects live in a store: storages (Python lists of floats) in
    [heap], Tensor objects in [objs].  A reference is an index into the
    store; allocation appends.  Every operation runs in the monad [M],
    which threads the store and carries Python exceptions. *)

From Stdlib Require Import Floats String.
From stdpp Require Import list sorting gmap.

Set Default Proof Using "Type".
Local Open Scope nat_scope.

(** ** Exceptions and the store monad *)

Inductive Exception : Type :=
| NotImplementedError (msg : string)
| AssertionError (msg : string)
| IndexError
| ValueError
| TypeError
| ShapeMismatch
| ContiguityError
| ZeroDivisionError.

Inductive result (A : Type) : Type :=
| Ok (a : A)
| Raise (e : Exception).
Arguments Ok {A} a.
Arguments Raise {A} e.

(** *** Data of the store *)

(** Modelled from the spec: [tensor_data.TensorData] is missing; section 3
    gives a StridedBuffer a (shared) storage, a shape and strides.  The
    storage is a reference, so that two buffers can alias it. *)
Record TensorData : Type := mkTensorData {
  _storage : nat;
  _shape : list nat;
  _strides : list nat
}.

(** The modules a backend can come from. *)
Inductive BackendRef : Type := TensorOps | OtherOps.

(** [make_tensor_functions(backend)] returns a class closed over
    [backend]; the class is named by the backend it was made from. *)
Inductive TFRef : Type := make_tensor_functions (backend : BackendRef).

Definition TensorFunctions : TFRef := make_tensor_functions TensorOps.

(** [CudaTensorFunctions = None] in the source. *)
Definition CudaTensorFunctions : option TFRef := None.

(** The classes defined inside [make_tensor_functions]. *)
Inductive Op : Type :=
| Neg | Add | Mul | Sigmoid | ReLU | Log | Sum | Mean | LT
| Permute | View | Copy.

(** Python values passed to [apply]: tensors, [None], ints and tuples of
    ints ([dim], [order], [shape]). *)
Inductive Value : Type :=
| VTensor (t : nat)
| VNone
| VInt (n : nat)
| VTuple (l : list nat).

(** Modelled from the spec: [autodiff.Context] is missing; section 3 calls
    it a [saved_values] payload set by the forward pass and read by the
    backward pass. *)
Record Context : Type := mkContext { saved_values : Value }.

(** Modelled from the spec: the GraphNode of section 3 ([autodiff.History]
    is missing): the Function invoked, its context and its inputs. *)
Record History : Type := mkHistory {
  last_fn : TFRef * Op;
  ctx : Context;
  inputs : list Value
}.

(** A Tensor object: the fields set by [Tensor.__init__] and by the
    [Variable] base class (section 3: [back], [derivative],
    [requires_grad], backend reference). *)
Record Tensor : Type := mkTensor {
  _tensor : TensorData;
  back : option History;
  name : option string;
  derivative : option nat;
  requires_grad : bool;
  tf : TFRef
}.

Record Store : Type := mkStore {
  heap : list (list float);
  objs : list Tensor
}.

(** *** The monad *)

Definition M (A : Type) : Type := Store -> result A * Store.

Definition ret {A} (a : A) : M A := fun st => (Ok a, st).

Definition bind {A B} (m : M A) (k : A -> M B) : M B :=
  fun st =>
    match m st with
    | (Ok a, st') => k a st'
    | (Raise e, st') => (Raise e, st')
    end.

Definition raise {A} (e : Exception) : M A := fun st => (Raise e, st).

Definition lift {A} (r : result A) : M A := fun st => (r, st).

Declare Scope py_scope.
Delimit Scope py_scope with py.
Notation "x <- m ;; k" := (bind m (fun x => k))
  (at level 100, m at next level, right associativity) : py_scope.
Notation "m ;; k" := (bind m (fun _ => k))
  (at level 100, right associativity) : py_scope.
Local Open Scope py_scope.

(** [assert cond, msg] *)
Definition assert (cond : bool) (msg : string) : M unit :=
  if cond then ret tt else raise (AssertionError msg).

(** [for x in l: body(x)] *)
Fixpoint for_each {A} (l : list A) (body : A -> M unit) : M unit :=
  match l with
  | [] => ret tt
  | x :: l' => body x ;; for_each l' body
  end.

(** [[body(x) for x in l]] *)
Fixpoint list_comp {A B} (l : list A) (body : A -> M B) : M (list B) :=
  match l with
  | [] => ret []
  | x :: l' => y <- body x ;; ys <- list_comp l' body ;; ret (y :: ys)
  end.

(** *** Store primitives *)

(** Creating a Python list. *)
Definition new_list (l : list float) : M nat :=
  fun st => (Ok (length (heap st)), mkStore (heap st ++ [l]) (objs st)).

Definition read_list (loc : nat) : M (list float) :=
  fun st =>
    match heap st !! loc with
    | Some l => (Ok l, st)
    | None => (Raise TypeError, st)
    end.

(** [storage[pos]] *)
Definition list_getitem (loc pos : nat) : M float :=
  l <- read_list loc ;;
  match l !! pos with
  | Some v => ret v
  | None => raise IndexError
  end.

(** [storage[pos] = v] *)
Definition list_setitem (loc pos : nat) (v : float) : M unit :=
  fun st =>
    match heap st !! loc with
    | Some l =>
        if decide (pos < length l)
        then (Ok tt, mkStore (<[loc := <[pos := v]> l]> (heap st)) (objs st))
        else (Raise IndexError, st)
    | None => (Raise TypeError, st)
    end.

(** Creating a Tensor object. *)
Definition new_object (o : Tensor) : M nat :=
  fun st => (Ok (length (objs st)), mkStore (heap st) (objs st ++ [o])).

Definition deref (t : nat) : M Tensor :=
  fun st =>
    match objs st !! t with
    | Some o => (Ok o, st)
    | None => (Raise TypeError, st)
    end.

(** Attribute assignment on a Tensor object. *)
Definition update_object (t : nat) (f : Tensor -> Tensor) : M unit :=
  fun st =>
    match objs st !! t with
    | Some o => (Ok tt, mkStore (heap st) (<[t := f o]> (objs st)))
    | None => (Raise TypeError, st)
    end.

Definition set_tf (b : TFRef) (o : Tensor) : Tensor :=
  mkTensor (_tensor o) (back o) (name o) (derivative o) (requires_grad o) b.

Definition set_derivative (d : option nat) (o : Tensor) : Tensor :=
  mkTensor (_tensor o) (back o) (name o) d (requires_grad o) (tf o).

Definition set_requires_grad (b : bool) (o : Tensor) : Tensor :=
  mkTensor (_tensor o) (back o) (name o) (derivative o) b (tf o).

(** ** operators *)

Module operators.

(** Modelled from the spec: the [operators] module is missing; section 6
    asks for pure scalar functions [negate], [add], [multiply],
    [identity]; Python floats are IEEE binary64. *)
Definition neg (x : float) : float := (- x)%float.
Definition id (x : float) : float := x.
Definition add (x y : float) : float := (x + y)%float.
Definition mul (x y : float) : float := (x * y)%float.

(** Modelled from the spec: [operators.prod], the product of a shape. *)
Definition prod (l : list nat) : nat := foldr Nat.mul 1 l.

End operators.

(** ** tensor_data *)

Module TensorData.

(** Modelled from the spec: the canonical row-major strides of a shape
    (section 3: "contiguous iff strides match the row-major layout implied
    by shape"). *)
Fixpoint strides_from_shape (shape : list nat) : list nat :=
  match shape with
  | [] => []
  | _ :: rest => operators.prod rest :: strides_from_shape rest
  end.

(** Modelled from the spec: section 3, "flattened index for a multi-index
    idx is sum(idx[d] * strides[d])". *)
Fixpoint index_to_position (index strides : list nat) : nat :=
  match index, strides with
  | i :: index', s :: strides' => i * s + index_to_position index' strides'
  | _, _ => 0
  end.

(** Every coordinate within [0, shape[d]). *)
Fixpoint valid_index (index shape : list nat) : bool :=
  match index, shape with
  | [], [] => true
  | i :: index', n :: shape' => (i <? n) && valid_index index' shape'
  | _, _ => false
  end.

(** Modelled from the spec: section 4.1, broadcast_shape_unify, here on
    the reversed shapes (right alignment). *)
Fixpoint shape_broadcast_rev (a b : list nat) : option (list nat) :=
  match a, b with
  | [], _ => Some b
  | _, [] => Some a
  | x :: a', y :: b' =>
      if x =? y then cons x <$> shape_broadcast_rev a' b'
      else if x =? 1 then cons y <$> shape_broadcast_rev a' b'
      else if y =? 1 then cons x <$> shape_broadcast_rev a' b'
      else None
  end.

Definition shape_broadcast (a b : list nat) : result (list nat) :=
  match shape_broadcast_rev (reverse a) (reverse b) with
  | Some s => Ok (reverse s)
  | None => Raise ShapeMismatch
  end.

(** Modelled from the spec: section 4.1, broadcast_index: the leading
    dimensions the small shape lacks are dropped and the coordinate of a
    size-1 dimension is 0. *)
Definition broadcast_index (big_index small_shape : list nat) : list nat :=
  zip_with (fun i n => if n =? 1 then 0 else i)
    (drop (length big_index - length small_shape) big_index) small_shape.

(** All multi-indices of a shape, in row-major order. *)
Fixpoint indices (shape : list nat) : list (list nat) :=
  match shape with
  | [] => [[]]
  | n :: rest => flat_map (fun i => cons i <$> indices rest) (seq 0 n)
  end.

(** Modelled from the spec: the constructor [TensorData(storage, shape,
    strides=None)]; it keeps the storage it is given and enforces the
    invariants of section 3. *)
Definition __init__ (storage : nat) (shape : list nat)
    (strides : option (list nat)) : M TensorData :=
  let strides := default (strides_from_shape shape) strides in
  assert (length strides =? length shape) "Len of strides must match shape" ;;
  l <- read_list storage ;;
  assert (length l =? operators.prod shape) "Size of storage must match shape" ;;
  ret (mkTensorData storage shape strides).

Definition size (self : TensorData) : nat := operators.prod (_shape self).
Definition dims (self : TensorData) : nat := length (_shape self).

(** Modelled from the spec: section 4.1, is_contiguous. *)
Definition is_contiguous (self : TensorData) : bool :=
  bool_decide (_strides self = strides_from_shape (_shape self)).

(** Modelled from the spec: section 4.1, index_to_position with its
    IndexError. *)
Definition index (self : TensorData) (key : list nat) : M nat :=
  if valid_index key (_shape self)
  then ret (index_to_position key (_strides self))
  else raise IndexError.

Definition get (self : TensorData) (key : list nat) : M float :=
  pos <- index self key ;;
  list_getitem (_storage self) pos.

Definition set (self : TensorData) (key : list nat) (val : float) : M unit :=
  pos <- index self key ;;
  list_setitem (_storage self) pos val.

(** Python's [sorted(l, key=...)]: a stable insertion sort. *)
Fixpoint insert_by {A} (key : A -> nat) (x : A) (l : list A) : list A :=
  match l with
  | [] => [x]
  | y :: l' => if key y <? key x then y :: insert_by key x l' else x :: l
  end.

Definition sorted {A} (key : A -> nat) (l : list A) : list A :=
  foldr (insert_by key) [] l.

(** Modelled from the spec: section 4.1, permute: same storage, shape and
    strides reordered per [order]; ValueError unless [order] is a
    permutation of [range(dims)]. *)
Definition permute (self : TensorData) (order : list nat) : M TensorData :=
  if bool_decide (sorted (fun x => x) order = seq 0 (dims self))
  then
    ret (mkTensorData (_storage self)
           ((fun o => nth o (_shape self) 0) <$> order)
           ((fun o => nth o (_strides self) 0) <$> order))
  else raise ValueError.

End TensorData.

(** ** tensor: construction and the Tensor class *)

(** Modelled from the spec: [Variable.__init__(back, name)] of the missing
    [autodiff] module; an empty gradient slot (section 3: "allocated lazily
    on first backward accumulation"), and a tensor produced by a recorded
    operation takes part in differentiation. *)
Definition Variable___init__ (back : option History) (name : option string)
    (v : TensorData) (backend : TFRef) : Tensor :=
  mkTensor v back name None (bool_decide (is_Some back)) backend.

Definition Tensor___init__ (v : TensorData) (back : option History)
    (name : option string) (backend : option TFRef) : M nat :=
  new_object (Variable___init__ back name v (default TensorFunctions backend)).

Definition Tensor_make (storage : nat) (shape : list nat)
    (strides : option (list nat)) (backend : option TFRef) : M nat :=
  v <- TensorData.__init__ storage shape strides ;;
  Tensor___init__ v None None backend.

Definition zeros (shape : list nat) : M nat :=
  storage <- new_list (replicate (operators.prod shape) 0%float) ;;
  Tensor_make storage shape None None.

Definition tensor (ls : list float) (shape : option (list nat)) : M nat :=
  let shape :=
    match shape with
    | None | Some [] => [length ls]
    | Some s => s
    end in
  storage <- new_list ls ;;
  Tensor_make storage shape None None.

(** The right operand of an arithmetic operator: a tensor or a number. *)
Inductive Operand : Type :=
| OTensor (t : nat)
| ONumber (x : float).

Definition ensure_tensor (b : Operand) : M nat :=
  match b with
  | ONumber x => tensor [x] None
  | OTensor t => ret t
  end.

Definition Tensor__new (self : nat) (tensor_data : TensorData) : M nat :=
  o <- deref self ;;
  Tensor___init__ tensor_data None None (Some (tf o)).

Definition Tensor_cuda (self : nat) : M nat :=
  o <- deref self ;;
  Tensor___init__ (_tensor o) (back o) (name o) CudaTensorFunctions.

Definition Tensor_shape (self : nat) : M (list nat) :=
  o <- deref self ;; ret (_shape (_tensor o)).

Definition Tensor_size (self : nat) : M nat :=
  o <- deref self ;; ret (TensorData.size (_tensor o)).

Definition Tensor_dims (self : nat) : M nat :=
  o <- deref self ;; ret (TensorData.dims (_tensor o)).

Definition Tensor___getitem__ (self : nat) (key : list nat) : M float :=
  o <- deref self ;; TensorData.get (_tensor o) key.

Definition Tensor___setitem__ (self : nat) (key : list nat) (val : float)
    : M unit :=
  o <- deref self ;; TensorData.set (_tensor o) key val.

Definition Tensor_grad (self : nat) : M (option nat) :=
  o <- deref self ;; ret (derivative o).

Definition Tensor_zeros (self : nat) (shape : option (list nat)) : M nat :=
  o <- deref self ;;
  out <- match shape with
         | None => zeros (_shape (_tensor o))
         | Some shape => zeros shape
         end ;;
  update_object out (set_tf (tf o)) ;;
  ret out.

Definition Tensor_get_data (self : nat) : M nat :=
  o <- deref self ;;
  Tensor___init__ (_tensor o) None None None.

(** ** tensor_ops: the backend operator contract *)

(** What [make_tensor_functions] asks of a backend: [map], [zip] and
    [reduce] take a scalar function and return a tensor operation with an
    optional [out] (and, for [reduce], [dims]). *)
Record Backend : Type := mkBackend {
  map : (float -> float) -> nat -> option nat -> M nat;
  zip : (float -> float -> float) -> nat -> nat -> option nat -> M nat;
  reduce : (float -> float -> float) ->
           nat -> option (list nat) -> option nat -> M nat
}.

Module TensorOps.

(** [acc = start; for x in l: acc = body(acc, x)] *)
Fixpoint fold_each {A B} (l : list A) (acc : B) (body : B -> A -> M B) : M B :=
  match l with
  | [] => ret acc
  | x :: l' => acc' <- body acc x ;; fold_each l' acc' body
  end.

(** Modelled from the spec: section 4.3, map: [fn] applied to every entry,
    traversed by multi-index; written into [out] if provided (whose shape
    the input must broadcast to), else into a new tensor of the input's
    shape. *)
Definition map (fn : float -> float) (a : nat) (out : option nat) : M nat :=
  a_shape <- Tensor_shape a ;;
  out <- match out with
         | Some out => ret out
         | None => Tensor_zeros a (Some a_shape)
         end ;;
  out_shape <- Tensor_shape out ;;
  s <- lift (TensorData.shape_broadcast a_shape out_shape) ;;
  (if bool_decide (s = out_shape) then ret tt else raise ShapeMismatch) ;;
  for_each (TensorData.indices out_shape) (fun out_index =>
    v <- Tensor___getitem__ a (TensorData.broadcast_index out_index a_shape) ;;
    Tensor___setitem__ out out_index (fn v)) ;;
  ret out.

(** Modelled from the spec: section 4.3, zip: [fn(a[i], b[i])] over the
    broadcast-unified index space, each operand indexed through
    broadcast_index; ShapeMismatch if the shapes do not unify. *)
Definition zip (fn : float -> float -> float) (a b : nat) (out : option nat)
    : M nat :=
  a_shape <- Tensor_shape a ;;
  b_shape <- Tensor_shape b ;;
  c_shape <- lift (TensorData.shape_broadcast a_shape b_shape) ;;
  out <- match out with
         | Some out => ret out
         | None => Tensor_zeros a (Some c_shape)
         end ;;
  out_shape <- Tensor_shape out ;;
  (if bool_decide (c_shape = out_shape) then ret tt else raise ShapeMismatch) ;;
  for_each (TensorData.indices out_shape) (fun out_index =>
    x <- Tensor___getitem__ a (TensorData.broadcast_index out_index a_shape) ;;
    y <- Tensor___getitem__ b (TensorData.broadcast_index out_index b_shape) ;;
    Tensor___setitem__ out out_index (fn x y)) ;;
  ret out.

(** Modelled from the spec: section 4.3, reduce: the listed dimensions are
    collapsed to size 1 by folding [fn] from [start], left to right over
    the indices of the collapsed dimensions, once per output cell.  The
    source also calls it as [reduce(a, out=...)]: then the dimensions in
    which [out] (padded on the left) has size 1 are collapsed. *)
Definition reduce (fn : float -> float -> float) (start : float)
    (a : nat) (dims : option (list nat)) (out : option nat) : M nat :=
  a_shape <- Tensor_shape a ;;
  out <- match out, dims with
         | Some out, _ => ret out
         | None, Some dims =>
             (if forallb (fun d => d <? length a_shape) dims
              then ret tt else raise IndexError) ;;
             Tensor_zeros a (Some (foldl (fun s d => <[d := 1]> s) a_shape dims))
         | None, None => raise TypeError
         end ;;
  out_shape <- Tensor_shape out ;;
  let padded :=
    replicate (length a_shape - length out_shape) 1 ++ out_shape in
  s <- lift (TensorData.shape_broadcast padded a_shape) ;;
  (if bool_decide (s = a_shape) && (length out_shape <=? length a_shape)
   then ret tt else raise ShapeMismatch) ;;
  let reduce_shape :=
    zip_with (fun n m => if m =? 1 then n else 1) a_shape padded in
  for_each (TensorData.indices padded) (fun out_index =>
    acc <- fold_each (TensorData.indices reduce_shape) start (fun acc r =>
             v <- Tensor___getitem__ a (zip_with Nat.add out_index r) ;;
             ret (fn acc v)) ;;
    Tensor___setitem__ out
      (TensorData.broadcast_index out_index out_shape) acc) ;;
  ret out.

(** The sequential backend; the start value of a reduction is "the
    identity appropriate to f, e.g. 0 for addition" (section 4.3). *)
Definition backend : Backend :=
  mkBackend map zip (fun fn => reduce fn 0%float).

End TensorOps.

(** ** tensor: Function and make_tensor_functions *)

Definition Function_variable (data : TensorData * TFRef)
    (back : option History) : M nat :=
  Tensor___init__ (fst data) back None (Some (snd data)).

Definition Function_data (a : nat) : M (TensorData * TFRef) :=
  o <- deref a ;; ret (_tensor o, tf o).

(** Modelled from the spec: section 4.2, [apply] of the missing
    [autodiff.FunctionBase]: "constructs a context object, invokes the
    operation's forward(context, *raw_data), wraps the numeric result back
    into a Tensor, and - if any input requires_grad - attaches a new
    GraphNode recording the operation, the Tensor inputs (not raw data),
    and whatever the forward pass chose to save". *)
Definition FunctionBase_apply (cls : TFRef * Op)
    (forward : Context -> list Value -> M (Context * nat))
    (vals : list Value) : M nat :=
  raw_vals <- list_comp vals (fun v =>
                match v with
                | VTensor t => d <- Tensor_get_data t ;; ret (VTensor d)
                | _ => ret v
                end) ;;
  flags <- list_comp vals (fun v =>
             match v with
             | VTensor t => o <- deref t ;; ret (requires_grad o)
             | _ => ret false
             end) ;;
  let need_grad := existsb (fun b => b) flags in
  r <- forward (mkContext VNone) raw_vals ;;
  let back :=
    if need_grad then Some (mkHistory cls (fst r) vals) else None in
  d <- Function_data (snd r) ;;
  Function_variable d back.

Definition save_for_backward (ctx : Context) (v : Value) : Context :=
  mkContext v.

Definition past_assignment : string :=
  "Need to include this file from past assignment.".

(** The class body of [TF], for the [backend] passed to
    [make_tensor_functions]. *)
Section TF.

Variable backend : Backend.

Definition neg_map := map backend operators.neg.
Definition id_map := map backend operators.id.
Definition add_zip := zip backend operators.add.
Definition mul_zip := zip backend operators.mul.
Definition add_reduce := reduce backend operators.add.

Definition Neg_forward (ctx : Context) (t1 : nat) : M (Context * nat) :=
  r <- neg_map t1 None ;; ret (ctx, r).

Definition Neg_backward (ctx : Context) (grad_output : nat) : M (list nat) :=
  r <- neg_map grad_output None ;; ret [r].

Definition Add_forward (ctx : Context) (t1 t2 : nat) : M (Context * nat) :=
  r <- add_zip t1 t2 None ;; ret (ctx, r).

Definition Add_backward (ctx : Context) (grad_output : nat) : M (list nat) :=
  ret [grad_output; grad_output].

Definition Mul_forward (ctx : Context) (a b : nat) : M (Context * nat) :=
  raise (NotImplementedError past_assignment).

Definition Mul_backward (ctx : Context) (grad_output : nat) : M (list nat) :=
  raise (NotImplementedError past_assignment).

Definition Sigmoid_forward (ctx : Context) (a : nat) : M (Context * nat) :=
  raise (NotImplementedError past_assignment).

Definition Sigmoid_backward (ctx : Context) (grad_output : nat)
    : M (list nat) :=
  raise (NotImplementedError past_assignment).

Definition ReLU_forward (ctx : Context) (a : nat) : M (Context * nat) :=
  raise (NotImplementedError past_assignment).

Definition ReLU_backward (ctx : Context) (grad_output : nat) : M (list nat) :=
  raise (NotImplementedError past_assignment).

Definition Log_forward (ctx : Context) (a : nat) : M (Context * nat) :=
  raise (NotImplementedError past_assignment).

Definition Log_backward (ctx : Context) (grad_output : nat) : M (list nat) :=
  raise (NotImplementedError past_assignment).

Definition Mean_forward (ctx : Context) (a : nat) (dim : option nat)
    : M (Context * nat) :=
  raise (NotImplementedError past_assignment).

Definition Mean_backward (ctx : Context) (grad_output : nat) : M (list nat) :=
  raise (NotImplementedError past_assignment).

Definition LT_forward (ctx : Context) (a b : nat) : M (Context * nat) :=
  raise (NotImplementedError past_assignment).

Definition LT_backward (ctx : Context) (grad_output : nat) : M (list nat) :=
  raise (NotImplementedError past_assignment).

Definition Permute_forward (ctx : Context) (a : nat) (order : list nat)
    : M (Context * nat) :=
  let ctx := save_for_backward ctx (VTuple order) in
  o <- deref a ;;
  v <- TensorData.permute (_tensor o) order ;;
  r <- Tensor__new a v ;;
  ret (ctx, r).

(** [[a[0] for a in sorted(enumerate(order), key=lambda a: a[1])]] *)
Definition inverse_order (order : list nat) : list nat :=
  fst <$> TensorData.sorted snd (imap pair order).

Definition Permute_backward (ctx : Context) (grad_output : nat)
    : M (list nat) :=
  match saved_values ctx with
  | VTuple order =>
      let order := inverse_order order in
      o <- deref grad_output ;;
      v <- TensorData.permute (_tensor o) order ;;
      r <- Tensor__new grad_output v ;;
      ret [r]
  | _ => raise TypeError
  end.

Definition View_forward (ctx : Context) (a : nat) (shape : list nat)
    : M (Context * nat) :=
  o <- deref a ;;
  let ctx := save_for_backward ctx (VTuple (_shape (_tensor o))) in
  assert (TensorData.is_contiguous (_tensor o)) "Must be contiguous to view" ;;
  t <- Tensor_make (_storage (_tensor o)) shape None None ;;
  update_object t (set_tf (tf o)) ;;
  ret (ctx, t).

Definition View_backward (ctx : Context) (grad_output : nat) : M (list nat) :=
  match saved_values ctx with
  | VTuple original =>
      o <- deref grad_output ;;
      r <- Tensor_make (_storage (_tensor o)) original None None ;;
      update_object r (set_tf (tf o)) ;;
      ret [r]
  | _ => raise TypeError
  end.

Definition Copy_forward (ctx : Context) (a : nat) : M (Context * nat) :=
  r <- id_map a None ;; ret (ctx, r).

Definition Copy_backward (ctx : Context) (grad_output : nat) : M (list nat) :=
  ret [grad_output].

(** [Tensor.view]: [self.tf.View.apply(self, shape)]; [View] does not use
    the backend, so the class is the same for every [tf]. *)
Definition View_forward_args (ctx : Context) (args : list Value)
    : M (Context * nat) :=
  match args with
  | [VTensor a; VTuple shape] => View_forward ctx a shape
  | _ => raise TypeError
  end.

Definition Tensor_view (self : nat) (shape : list nat) : M nat :=
  o <- deref self ;;
  FunctionBase_apply (tf o, View) View_forward_args
    [VTensor self; VTuple shape].

Definition Sum_forward (ctx : Context) (a : nat) (dim : option nat)
    : M (Context * nat) :=
  o <- deref a ;;
  let ctx := save_for_backward ctx (VTuple (_shape (_tensor o))) in
  match dim with
  | Some dim =>
      r <- add_reduce a (Some [dim]) None ;;
      ret (ctx, r)
  | None =>
      r <- add_reduce a (Some (seq 0 (TensorData.dims (_tensor o)))) None ;;
      v <- Tensor_view r [1] ;;
      ret (ctx, v)
  end.

Definition Sum_backward (ctx : Context) (grad_output : nat) : M (list nat) :=
  ret [grad_output].

(** [cls.forward] on the raw values for the class [op] of [TF]. *)
Definition forward (op : Op) (ctx : Context) (args : list Value)
    : M (Context * nat) :=
  match op, args with
  | Neg, [VTensor t1] => Neg_forward ctx t1
  | Add, [VTensor t1; VTensor t2] => Add_forward ctx t1 t2
  | Mul, [VTensor a; VTensor b] => Mul_forward ctx a b
  | Sigmoid, [VTensor a] => Sigmoid_forward ctx a
  | ReLU, [VTensor a] => ReLU_forward ctx a
  | Log, [VTensor a] => Log_forward ctx a
  | Sum, [VTensor a; VNone] => Sum_forward ctx a None
  | Sum, [VTensor a; VInt dim] => Sum_forward ctx a (Some dim)
  | Mean, [VTensor a; VNone] => Mean_forward ctx a None
  | Mean, [VTensor a; VInt dim] => Mean_forward ctx a (Some dim)
  | LT, [VTensor a; VTensor b] => LT_forward ctx a b
  | Permute, [VTensor a; VTuple order] => Permute_forward ctx a order
  | View, _ => View_forward_args ctx args
  | Copy, [VTensor a] => Copy_forward ctx a
  | _, _ => raise TypeError
  end.

(** [cls.backward(ctx, grad_output)], its result wrapped into a list. *)
Definition backward (op : Op) (ctx : Context) (grad_output : nat)
    : M (list nat) :=
  match op with
  | Neg => Neg_backward ctx grad_output
  | Add => Add_backward ctx grad_output
  | Mul => Mul_backward ctx grad_output
  | Sigmoid => Sigmoid_backward ctx grad_output
  | ReLU => ReLU_backward ctx grad_output
  | Log => Log_backward ctx grad_output
  | Sum => Sum_backward ctx grad_output
  | Mean => Mean_backward ctx grad_output
  | LT => LT_backward ctx grad_output
  | Permute => Permute_backward ctx grad_output
  | View => View_backward ctx grad_output
  | Copy => Copy_backward ctx grad_output
  end.

End TF.

(** ** tensor: the operators of the Tensor class, and backward *)

Section Tensors.

(** The implementation behind [OtherOps]; [TensorOps] is the sequential
    backend. *)
Variable other_ops : Backend.

Definition backend_of (tfr : TFRef) : Backend :=
  match tfr with
  | make_tensor_functions TensorOps => TensorOps.backend
  | make_tensor_functions OtherOps => other_ops
  end.

(** [self.tf.<op>.apply] on [vals] *)
Definition apply (tfr : TFRef) (op : Op) (vals : list Value) : M nat :=
  FunctionBase_apply (tfr, op) (forward (backend_of tfr) op) vals.

Definition Tensor_contiguous (self : nat) : M nat :=
  o <- deref self ;; apply (tf o) Copy [VTensor self].

Definition Tensor___neg__ (self : nat) : M nat :=
  o <- deref self ;; apply (tf o) Neg [VTensor self].

Definition Tensor___add__ (self : nat) (b : Operand) : M nat :=
  o <- deref self ;;
  b <- ensure_tensor b ;;
  apply (tf o) Add [VTensor self; VTensor b].

Definition Tensor___sub__ (self : nat) (b : Operand) : M nat :=
  o <- deref self ;;
  b <- ensure_tensor b ;;
  nb <- Tensor___neg__ b ;;
  apply (tf o) Add [VTensor self; VTensor nb].

Definition Tensor___mul__ (self : nat) (b : Operand) : M nat :=
  o <- deref self ;;
  b <- ensure_tensor b ;;
  apply (tf o) Mul [VTensor self; VTensor b].

(** [1 / b] on Python numbers raises ZeroDivisionError for a zero [b]
    (0.0 and -0.0 alike) and is the binary64 quotient otherwise. *)
Definition reciprocal (b : float) : M float :=
  if (b =? 0)%float then raise ZeroDivisionError else ret (1 / b)%float.

Definition Tensor___truediv__ (self : nat) (b : float) : M nat :=
  o <- deref self ;;
  q <- reciprocal b ;;
  r <- tensor [q] None ;;
  apply (tf o) Mul [VTensor self; VTensor r].

Definition Tensor___lt__ (self : nat) (b : Operand) : M nat :=
  o <- deref self ;;
  b <- ensure_tensor b ;;
  apply (tf o) LT [VTensor self; VTensor b].

Definition Tensor___gt__ (self : nat) (b : Operand) : M nat :=
  o <- deref self ;;
  b <- ensure_tensor b ;;
  apply (tf o) LT [VTensor b; VTensor self].

Definition Tensor_sigmoid (self : nat) : M nat :=
  o <- deref self ;; apply (tf o) Sigmoid [VTensor self].

Definition Tensor_relu (self : nat) : M nat :=
  o <- deref self ;; apply (tf o) ReLU [VTensor self].

Definition Tensor_log (self : nat) : M nat :=
  o <- deref self ;; apply (tf o) Log [VTensor self].

Definition dim_value (dim : option nat) : Value :=
  match dim with
  | Some d => VInt d
  | None => VNone
  end.

Definition Tensor_sum (self : nat) (dim : option nat) : M nat :=
  o <- deref self ;; apply (tf o) Sum [VTensor self; dim_value dim].

Definition Tensor_mean (self : nat) (dim : option nat) : M nat :=
  o <- deref self ;; apply (tf o) Mean [VTensor self; dim_value dim].

Definition Tensor_permute (self : nat) (order : list nat) : M nat :=
  o <- deref self ;; apply (tf o) Permute [VTensor self; VTuple order].

Definition Tensor_expand (self other : nat) : M nat :=
  self_shape <- Tensor_shape self ;;
  other_shape <- Tensor_shape other ;;
  if bool_decide (self_shape = other_shape) then ret other
  else
    shape <- lift (TensorData.shape_broadcast self_shape other_shape) ;;
    buf <- zeros shape ;;
    o <- deref self ;;
    id_map (backend_of (tf o)) other (Some buf) ;;
    if bool_decide (self_shape = shape) then ret buf
    else
      buf2 <- zeros self_shape ;;
      add_reduce (backend_of (tf o)) buf None (Some buf2) ;;
      ret buf2.

(** *** autodiff: the backward pass *)

(** Modelled from the spec: section 4.2, "accumulate (sum) each into that
    input's gradient slot"; the slot is "allocated lazily on first backward
    accumulation" (section 3) as the zero tensor of matching shape. *)
Definition Variable_accumulate_derivative (self val : nat) : M unit :=
  o <- deref self ;;
  d <- match derivative o with
       | Some d => ret d
       | None => Tensor_zeros self None
       end ;;
  d' <- Tensor___add__ d (OTensor val) ;;
  update_object self (set_derivative (Some d')).

(** Modelled from the spec: section 4.2, zero_grad: "resets a Tensor's
    accumulated gradient to the zero tensor of matching shape". *)
Definition Variable_zero_grad_ (self : nat) : M unit :=
  z <- Tensor_zeros self None ;;
  update_object self (set_derivative (Some z)).

(** Modelled from the spec: the [requires_grad] flag of section 3. *)
Definition Variable_requires_grad_ (self : nat) (val : bool) : M unit :=
  update_object self (set_requires_grad val).

(** Modelled from the spec: section 4.2, one node of the backward pass:
    "invoke backward(context, accumulated_grad_output), obtain one gradient
    per original input"; inputs that are not tensors get none.  Each
    gradient goes through the input's [expand], which is how the gradient
    of a reduction is broadcast "back over the reduced dimension(s)"
    (section 4.4). *)
Definition FunctionBase_chain_rule (h : History) (d_output : nat)
    : M (list (nat * nat)) :=
  ds <- backward (backend_of (fst (last_fn h))) (snd (last_fn h))
          (ctx h) d_output ;;
  list_comp
    (omap (fun p => match fst p with
                    | VTensor t => Some (t, snd p)
                    | _ => None
                    end)
       (zip_with pair (inputs h) ds))
    (fun p => d <- Tensor_expand (fst p) (snd p) ;; ret (fst p, d)).

(** Modelled from the spec: section 4.2, a contribution to an input is
    accumulated "into that input's gradient slot if the input is a leaf
    requiring grad", or added to the gradient the input will propagate "if
    the input itself has a back node". *)
Definition contribute (pending : gmap nat nat) (p : nat * nat)
    : M (gmap nat nat) :=
  o <- deref (fst p) ;;
  match back o with
  | None =>
      (if requires_grad o
       then Variable_accumulate_derivative (fst p) (snd p)
       else ret tt) ;;
      ret pending
  | Some _ =>
      match pending !! fst p with
      | None => ret (<[fst p := snd p]> pending)
      | Some g =>
          g' <- Tensor___add__ g (OTensor (snd p)) ;;
          ret (<[fst p := g']> pending)
      end
  end.

Definition visit (v : nat) (pending : gmap nat nat) : M (gmap nat nat) :=
  match pending !! v with
  | None => ret pending
  | Some d_output =>
      o <- deref v ;;
      match back o with
      | None => ret pending
      | Some h =>
          ds <- FunctionBase_chain_rule h d_output ;;
          TensorOps.fold_each ds pending contribute
      end
  end.

(** Modelled from the spec: section 4.2, the order of the backward pass:
    "every node is visited after all nodes that use its output".  The
    inputs of an operation exist before its result does, so visiting
    the objects from the root down, newest first, is such an order. *)
Fixpoint backpropagate (v : nat) (pending : gmap nat nat) : M unit :=
  pending <- visit v pending ;;
  match v with
  | 0 => ret tt
  | S v' => backpropagate v' pending
  end.

(** Modelled from the spec: section 4.2, backward(root, grad_output):
    "seeds root's gradient accumulator with grad_output (must match root's
    shape, else fails with ShapeMismatch)". *)
Definition Variable_backward (self : nat) (d_output : nat) : M unit :=
  self_shape <- Tensor_shape self ;;
  d_shape <- Tensor_shape d_output ;;
  (if bool_decide (self_shape = d_shape) then ret tt
   else raise ShapeMismatch) ;;
  o <- deref self ;;
  match back o with
  | None =>
      if requires_grad o
      then Variable_accumulate_derivative self d_output
      else ret tt
  | Some _ => backpropagate self {[self := d_output]}
  end.

Definition Tensor_backward (self : nat) (grad_output : option nat) : M unit :=
  grad_output <-
    match grad_output with
    | None =>
        shape <- Tensor_shape self ;;
        assert (bool_decide (shape = [1]))
          "Must provide grad_output if non-scalar" ;;
        grad_output <- tensor [1%float] None ;;
        o <- deref self ;;
        update_object grad_output (set_tf (tf o)) ;;
        ret grad_output
    | Some grad_output => ret grad_output
    end ;;
  Variable_backward self grad_output.

(** *** Gradient check *)

Definition enumerate {A} (l : list A) : list (nat * A) := imap pair l.

Definition central_difference (f : list nat -> M nat) (vals : list nat)
    (arg : nat) (epsilon : float) (ind : list nat) : M float :=
  x <- match vals !! arg with
       | Some x => ret x
       | None => raise IndexError
       end ;;
  x_shape <- Tensor_shape x ;;
  up <- zeros x_shape ;;
  Tensor___setitem__ up ind epsilon ;;
  vals1 <- list_comp (enumerate vals) (fun jx =>
             if bool_decide (fst jx <> arg) then ret (snd jx)
             else Tensor___add__ (snd jx) (OTensor up)) ;;
  vals2 <- list_comp (enumerate vals) (fun jx =>
             if bool_decide (fst jx <> arg) then ret (snd jx)
             else Tensor___sub__ (snd jx) (OTensor up)) ;;
  r1 <- f vals1 ;;
  s1 <- Tensor_sum r1 None ;;
  r2 <- f vals2 ;;
  s2 <- Tensor_sum r2 None ;;
  delta <- Tensor___sub__ s1 (OTensor s2) ;;
  d0 <- Tensor___getitem__ delta [0] ;;
  ret (d0 / (2 * epsilon))%float.

(** [x.grad[idx]] *)
Definition Tensor_grad_getitem (x : nat) (idx : list nat) : M float :=
  g <- Tensor_grad x ;;
  match g with
  | Some g => Tensor___getitem__ g idx
  | None => raise TypeError
  end.

(** The default [epsilon=1e-6], as the binary64 number the literal
    denotes. *)
Definition default_epsilon : float := 0x1.0c6f7a0b5ed8dp-20%float.

End Tensors.

(** * Facts about strided buffers *)

Section TensorData_facts.

Import TensorData.

Lemma flat_map_seq_blocks (P a n : nat) :
  flat_map (fun i => seq (i * P) P) (seq a n) = seq (a * P) (n * P).
Proof.
  revert a. induction n as [|n IH]; intros a; simpl; [done|].
  rewrite IH, seq_app. do 2 f_equal. lia.
Qed.

Lemma fmap_flat_map {A B C} (f : B -> C) (g : A -> list B) (l : list A) :
  f <$> flat_map g l = flat_map (fun x => f <$> g x) l.
Proof.
  induction l as [|x l IH]; simpl; [done|].
  by rewrite fmap_app, IH.
Qed.

Lemma flat_map_ext_in {A B} (f g : A -> list B) (l : list A) :
  (forall x, x ∈ l -> f x = g x) -> flat_map f l = flat_map g l.
Proof.
  induction l as [|x l IH]; intros H; simpl; [done|].
  rewrite H by left. rewrite IH; [done|]. intros y Hy. apply H. by right.
Qed.

(** The k-th multi-index of a contiguous buffer sits at position k. *)
Lemma positions_indices (shape : list nat) :
  (fun idx => index_to_position idx (strides_from_shape shape))
    <$> indices shape = seq 0 (operators.prod shape).
Proof.
  induction shape as [|n rest IH]; [done|].
  cbn [indices strides_from_shape]. rewrite fmap_flat_map.
  change (operators.prod (n :: rest)) with (n * operators.prod rest).
  pose proof (flat_map_seq_blocks (operators.prod rest) 0 n) as E.
  rewrite Nat.mul_0_l in E. rewrite <- E. clear E.
  apply flat_map_ext_in. intros i _.
  transitivity (Nat.add (i * operators.prod rest)
                  <$> seq 0 (operators.prod rest));
    [|rewrite fmap_add_seq; f_equal; lia].
  rewrite <- IH, <- !list_fmap_compose. by apply list_fmap_ext.
Qed.

Lemma length_indices (shape : list nat) :
  length (indices shape) = operators.prod shape.
Proof.
  rewrite <- (length_fmap (fun idx =>
    index_to_position idx (strides_from_shape shape))).
  by rewrite positions_indices, length_seq.
Qed.

Lemma valid_index_indices (idx shape : list nat) :
  valid_index idx shape = true <-> idx ∈ indices shape.
Proof.
  revert idx. induction shape as [|n rest IH]; intros idx.
  - destruct idx; simpl.
    + split; [intros _; by apply list_elem_of_singleton|done].
    + split; [done|]. by intros ?%list_elem_of_singleton.
  - cbn [indices]. rewrite list_elem_of_In, in_flat_map.
    destruct idx as [|i idx]; simpl.
    + split; [done|]. intros (j & _ & Hj%list_elem_of_In).
      apply list_elem_of_fmap in Hj as (? & ? & _). done.
    + rewrite andb_true_iff, Nat.ltb_lt, IH. split.
      * intros [Hi Hidx]. exists i. split.
        -- apply in_seq. lia.
        -- apply list_elem_of_In, list_elem_of_fmap. eauto.
      * intros (j & Hj%in_seq & Hin%list_elem_of_In).
        apply list_elem_of_fmap in Hin as (idx' & [= -> ->] & Hin).
        split; [lia|done].
Qed.

Lemma index_to_position_lt (idx shape : list nat) :
  valid_index idx shape = true ->
  index_to_position idx (strides_from_shape shape) < operators.prod shape.
Proof.
  intros H%valid_index_indices.
  apply (list_elem_of_fmap_2 (fun idx =>
    index_to_position idx (strides_from_shape shape))) in H.
  rewrite positions_indices in H. apply list_elem_of_In, in_seq in H. lia.
Qed.

Lemma valid_index_length (idx shape : list nat) :
  valid_index idx shape = true -> length idx = length shape.
Proof.
  revert idx. induction shape as [|n rest IH]; intros [|i idx]; simpl;
    try done.
  intros [_ H]%andb_true_iff. f_equal. by apply IH.
Qed.

Lemma position_of_lookup (shape : list nat) k idx :
  indices shape !! k = Some idx ->
  index_to_position idx (strides_from_shape shape) = k.
Proof.
  intros Hk. pose proof (positions_indices shape) as E.
  apply (f_equal (fun l => l !! k)) in E.
  rewrite list_lookup_fmap, Hk, lookup_seq_lt in E.
  - by injection E.
  - rewrite <- length_indices. by eapply lookup_lt_Some.
Qed.

Lemma lookup_at_position (shape idx : list nat) :
  valid_index idx shape = true ->
  indices shape !! index_to_position idx (strides_from_shape shape) = Some idx.
Proof.
  intros Hv%valid_index_indices. apply list_elem_of_lookup in Hv as [k Hk].
  by rewrite (position_of_lookup _ _ _ Hk).
Qed.

End TensorData_facts.

(** * Running the operations on a store *)

Lemma bind_run {A B} (m : M A) (k : A -> M B) st a st1 :
  m st = (Ok a, st1) -> bind m k st = k a st1.
Proof. intros H. unfold bind. by rewrite H. Qed.

Lemma bind_raise {A B} (m : M A) (k : A -> M B) st e st1 :
  m st = (Raise e, st1) -> bind m k st = (Raise e, st1).
Proof. intros H. unfold bind. by rewrite H. Qed.

Lemma ret_bind {A B} (a : A) (k : A -> M B) st : bind (ret a) k st = k a st.
Proof. done. Qed.

Lemma bind_assoc {A B C} (m : M A) (k1 : A -> M B) (k2 : B -> M C) st :
  bind (bind m k1) k2 st = bind m (fun x => bind (k1 x) k2) st.
Proof. unfold bind. by destruct (m st) as [[?|?] ?]. Qed.

Lemma lift_ok {A} (a : A) : lift (Ok a) = ret a.
Proof. done. Qed.

Lemma bind_ext {A B} (m : M A) (k1 k2 : A -> M B) st :
  (forall a st', k1 a st' = k2 a st') -> bind m k1 st = bind m k2 st.
Proof. intros H. unfold bind. destruct (m st) as [[?|?] ?]; [apply H|done]. Qed.

Lemma bind_ret_r {A} (m : M A) st : bind m ret st = m st.
Proof. unfold bind, ret. by destruct (m st) as [[?|?] ?]. Qed.

(** A tensor object as [Tensor(v, backend=b)] creates it. *)
Definition fresh (v : TensorData) (b : TFRef) : Tensor :=
  mkTensor v None None None false b.

(** The entry of a buffer at a multi-index, read off the store. *)
Definition read (hp : list (list float)) (v : TensorData) (idx : list nat)
    : option float :=
  if TensorData.valid_index idx (_shape v)
  then l ← hp !! _storage v;
       l !! TensorData.index_to_position idx (_strides v)
  else None.

(** Every multi-index of the shape falls on an entry of the storage. *)
Definition well_formed (hp : list (list float)) (v : TensorData) : bool :=
  forallb (fun idx => bool_decide (is_Some (read hp v idx)))
    (TensorData.indices (_shape v)).

Definition entry (hp : list (list float)) (v : TensorData) (idx : list nat)
    : float :=
  default 0%float (read hp v idx).

Lemma deref_run st t o : objs st !! t = Some o -> deref t st = (Ok o, st).
Proof. intros H. unfold deref. by rewrite H. Qed.

Lemma Tensor_shape_run st t o :
  objs st !! t = Some o -> Tensor_shape t st = (Ok (_shape (_tensor o)), st).
Proof. intros H. unfold Tensor_shape. by rewrite (bind_run _ _ _ _ _ (deref_run _ _ _ H)). Qed.

Lemma get_run st v idx x :
  read (heap st) v idx = Some x -> TensorData.get v idx st = (Ok x, st).
Proof.
  unfold read, TensorData.get, TensorData.index, list_getitem, read_list.
  destruct (TensorData.valid_index idx (_shape v)); [|done].
  destruct (heap st !! _storage v) as [l|] eqn:Hl; [|done]. simpl.
  intros Hx. unfold bind, ret. simpl. by rewrite Hl, Hx.
Qed.

Lemma getitem_run st t o idx x :
  objs st !! t = Some o -> read (heap st) (_tensor o) idx = Some x ->
  Tensor___getitem__ t idx st = (Ok x, st).
Proof.
  intros Ho Hx. unfold Tensor___getitem__.
  rewrite (bind_run _ _ _ _ _ (deref_run _ _ _ Ho)). by apply get_run.
Qed.

Lemma set_run st v idx x l :
  TensorData.valid_index idx (_shape v) = true ->
  heap st !! _storage v = Some l ->
  TensorData.index_to_position idx (_strides v) < length l ->
  TensorData.set v idx x st =
    (Ok tt, mkStore (<[_storage v :=
                       <[TensorData.index_to_position idx (_strides v) := x]> l]>
                       (heap st)) (objs st)).
Proof.
  intros Hv Hl Hlt. unfold TensorData.set, TensorData.index, list_setitem.
  rewrite Hv. unfold bind, ret. rewrite Hl. by rewrite decide_True.
Qed.

Lemma setitem_run st t o idx x l :
  objs st !! t = Some o ->
  TensorData.valid_index idx (_shape (_tensor o)) = true ->
  heap st !! _storage (_tensor o) = Some l ->
  TensorData.index_to_position idx (_strides (_tensor o)) < length l ->
  Tensor___setitem__ t idx x st =
    (Ok tt, mkStore (<[_storage (_tensor o) :=
       <[TensorData.index_to_position idx (_strides (_tensor o)) := x]> l]>
       (heap st)) (objs st)).
Proof.
  intros Ho Hv Hl Hlt. unfold Tensor___setitem__.
  rewrite (bind_run _ _ _ _ _ (deref_run _ _ _ Ho)). by apply set_run.
Qed.

Lemma read_prefix hp hp' v idx x :
  hp `prefix_of` hp' ->
  read hp v idx = Some x -> read hp' v idx = Some x.
Proof.
  intros Hp. unfold read.
  destruct (TensorData.valid_index idx (_shape v)); [|done].
  destruct (hp !! _storage v) as [l|] eqn:Hl; [|done]. simpl.
  by rewrite (prefix_lookup_Some _ _ _ _ Hl Hp).
Qed.

Lemma length_strides_from_shape shape :
  length (TensorData.strides_from_shape shape) = length shape.
Proof. induction shape; simpl; congruence. Qed.

(** Reading a contiguous buffer whose storage lists the entries in
    row-major order. *)
Lemma read_contiguous hp loc shape (val : list nat -> float) idx :
  hp !! loc = Some (val <$> TensorData.indices shape) ->
  TensorData.valid_index idx shape = true ->
  read hp (mkTensorData loc shape (TensorData.strides_from_shape shape)) idx
    = Some (val idx).
Proof.
  intros Hl Hv. unfold read. simpl. rewrite Hv, Hl. simpl.
  apply valid_index_indices, list_elem_of_lookup in Hv as [k Hk].
  pose proof (positions_indices shape) as Hp.
  apply (f_equal (fun l => l !! k)) in Hp.
  rewrite list_lookup_fmap, Hk in Hp. simpl in Hp.
  assert (k < operators.prod shape) as Hlt.
  { rewrite <- length_indices. by eapply lookup_lt_Some. }
  rewrite lookup_seq_lt in Hp by done. injection Hp as ->.
  by rewrite list_lookup_fmap, Hk.
Qed.

(** ** Loops that fill a storage *)

Lemma for_each_write {A} (items : list A) (body : A -> M unit)
    (pos : A -> nat) (val : A -> float) loc objs0 hp l0 :
  loc < length hp ->
  (forall x, x ∈ items -> pos x < length l0) ->
  (forall x l1, x ∈ items -> length l1 = length l0 ->
     body x (mkStore (<[loc := l1]> hp) objs0) =
       (Ok tt, mkStore (<[loc := <[pos x := val x]> l1]> hp) objs0)) ->
  for_each items body (mkStore (<[loc := l0]> hp) objs0) =
    (Ok tt, mkStore (<[loc := foldl (fun l x => <[pos x := val x]> l) l0 items]> hp)
              objs0).
Proof.
  intros Hloc. revert l0. induction items as [|x items IH]; intros l0 Hpos Hbody.
  - done.
  - cbn [for_each foldl].
    rewrite (bind_run _ _ _ _ _ (Hbody x l0 ltac:(left) eq_refl)).
    apply IH.
    + intros y Hy. rewrite length_insert. apply Hpos. by right.
    + intros y l1 Hy Hlen. rewrite length_insert in Hlen.
      apply Hbody; [by right|done].
Qed.

Lemma insert_at_length {A} (pre : list A) (y v : A) (l : list A) :
  <[length pre := v]> (pre ++ y :: l) = pre ++ v :: l.
Proof. induction pre as [|? ? IH]; simpl; [done|]. by rewrite IH. Qed.

Lemma foldl_write_seq_gen {A} (items : list A) (pos : A -> nat)
    (val : A -> float) (pre l0 : list float) :
  pos <$> items = seq (length pre) (length items) ->
  length l0 = length items ->
  foldl (fun l x => <[pos x := val x]> l) (pre ++ l0) items =
    pre ++ (val <$> items).
Proof.
  revert pre l0. induction items as [|x items IH]; intros pre l0 Hpos Hlen.
  - destruct l0; [done|]. done.
  - destruct l0 as [|y l0]; [done|]. simpl in *.
    injection Hpos as Hx Hpos. injection Hlen as Hlen.
    rewrite Hx, insert_at_length.
    change (pre ++ val x :: l0) with (pre ++ [val x] ++ l0).
    rewrite app_assoc, IH; [by rewrite <- app_assoc| |done].
    rewrite length_app. simpl. by rewrite Nat.add_1_r.
Qed.

Lemma foldl_write_seq {A} (items : list A) (pos : A -> nat)
    (val : A -> float) (l0 : list float) :
  pos <$> items = seq 0 (length items) ->
  length l0 = length items ->
  foldl (fun l x => <[pos x := val x]> l) l0 items = val <$> items.
Proof. intros. by apply (foldl_write_seq_gen items pos val [] l0). Qed.

Lemma fold_each_read {A} (items : list A) (body : float -> A -> M float)
    (step : float -> A -> float) (start : float) st :
  (forall acc x, x ∈ items -> body acc x st = (Ok (step acc x), st)) ->
  TensorOps.fold_each items start body st = (Ok (foldl step start items), st).
Proof.
  revert start. induction items as [|x items IH]; intros start H; [done|].
  cbn [TensorOps.fold_each foldl].
  rewrite (bind_run _ _ _ _ _ (H start x ltac:(left))).
  apply IH. intros acc y Hy. apply H. by right.
Qed.

(** ** Construction *)

Lemma TensorData_init_run st storage shape l :
  heap st !! storage = Some l ->
  length l = operators.prod shape ->
  TensorData.__init__ storage shape None st =
    (Ok (mkTensorData storage shape (TensorData.strides_from_shape shape)), st).
Proof.
  intros Hl Hlen. unfold TensorData.__init__, assert, read_list. simpl.
  rewrite length_strides_from_shape, Nat.eqb_refl.
  unfold bind, ret. rewrite Hl, Hlen. by rewrite Nat.eqb_refl.
Qed.

Lemma Tensor_make_run st storage shape backend l :
  heap st !! storage = Some l ->
  length l = operators.prod shape ->
  Tensor_make storage shape None backend st =
    (Ok (length (objs st)),
     mkStore (heap st)
       (objs st ++ [fresh (mkTensorData storage shape
                             (TensorData.strides_from_shape shape))
                      (default TensorFunctions backend)])).
Proof.
  intros Hl Hlen. unfold Tensor_make.
  by rewrite (bind_run _ _ _ _ _ (TensorData_init_run _ _ _ _ Hl Hlen)).
Qed.

Lemma zeros_run st shape :
  zeros shape st =
    (Ok (length (objs st)),
     mkStore (heap st ++ [replicate (operators.prod shape) 0%float])
       (objs st ++ [fresh (mkTensorData (length (heap st)) shape
                             (TensorData.strides_from_shape shape))
                      TensorFunctions])).
Proof.
  unfold zeros, new_list. unfold bind at 1.
  erewrite Tensor_make_run; [done| |].
  - simpl. by apply list_lookup_middle.
  - by rewrite length_replicate.
Qed.

Lemma tensor_run st ls :
  tensor ls None st =
    (Ok (length (objs st)),
     mkStore (heap st ++ [ls])
       (objs st ++ [fresh (mkTensorData (length (heap st)) [length ls] [1])
                      TensorFunctions])).
Proof.
  unfold tensor, new_list. unfold bind at 1.
  erewrite Tensor_make_run; [done| |].
  - simpl. by apply list_lookup_middle.
  - simpl. lia.
Qed.

Lemma Tensor_zeros_run st self o shape :
  objs st !! self = Some o ->
  Tensor_zeros self (Some shape) st =
    (Ok (length (objs st)),
     mkStore (heap st ++ [replicate (operators.prod shape) 0%float])
       (objs st ++ [fresh (mkTensorData (length (heap st)) shape
                             (TensorData.strides_from_shape shape))
                      (tf o)])).
Proof.
  intros Ho. unfold Tensor_zeros.
  rewrite (bind_run _ _ _ _ _ (deref_run _ _ _ Ho)).
  rewrite (bind_run _ _ _ _ _ (zeros_run _ _)).
  unfold update_object, bind, ret. simpl.
  rewrite list_lookup_middle by done.
  by rewrite insert_at_length.
Qed.

Lemma Tensor_get_data_run st self o :
  objs st !! self = Some o ->
  Tensor_get_data self st =
    (Ok (length (objs st)),
     mkStore (heap st) (objs st ++ [fresh (_tensor o) TensorFunctions])).
Proof.
  intros Ho. unfold Tensor_get_data.
  by rewrite (bind_run _ _ _ _ _ (deref_run _ _ _ Ho)).
Qed.

(** ** Broadcasting *)

Section Broadcast_facts.

Import TensorData.

(** [small] broadcasts to [big]: aligned to the right, each of its
    dimensions is that of [big] or 1. *)
Definition fits (small big : list nat) : Prop :=
  exists pre tail,
    big = pre ++ tail /\ Forall2 (fun m n => m = n \/ m = 1) small tail.

Lemma snoc_inv {A} (l : list A) : l = [] \/ exists l' x, l = l' ++ [x].
Proof. induction l using rev_ind; eauto. Qed.

Lemma fits_refl s : fits s s.
Proof.
  exists [], s. split; [done|]. apply Forall_Forall2_diag, Forall_forall. auto.
Qed.

Lemma fits_one s : s <> [] -> fits [1] s.
Proof.
  intros Hs. destruct (snoc_inv s) as [->|(s' & n & ->)]; [done|].
  exists s', [n]. split; [done|]. constructor; [auto|constructor].
Qed.

Lemma fits_insert_one s' s d : fits s' s -> length s' = length s ->
  fits (<[d := 1]> s') s.
Proof.
  intros (pre & tail & -> & HF) Hlen.
  pose proof (Forall2_length _ _ _ HF) as Hl. rewrite length_app in Hlen.
  destruct pre; [|simpl in Hlen; lia].
  exists [], tail. split; [done|].
  destruct (decide (d < length tail)) as [Hd|Hd].
  - destruct (lookup_lt_is_Some_2 tail d Hd) as [n Hn].
    rewrite <- (list_insert_id tail d n Hn).
    apply Forall2_insert; auto.
  - rewrite list_insert_ge by lia. done.
Qed.

Lemma shape_broadcast_rev_l ra rt rp :
  Forall2 (fun m n => m = n \/ m = 1) ra rt ->
  shape_broadcast_rev ra (rt ++ rp) = Some (rt ++ rp).
Proof.
  induction 1 as [|x y ra rt Hxy _ IH]; simpl; [done|].
  rewrite IH. simpl.
  destruct (x =? y) eqn:E; [by apply Nat.eqb_eq in E as ->|].
  destruct Hxy as [->| ->]; [by rewrite Nat.eqb_refl in E|done].
Qed.

Lemma shape_broadcast_rev_r ra rt rp :
  Forall2 (fun m n => m = n \/ m = 1) ra rt ->
  shape_broadcast_rev (rt ++ rp) ra = Some (rt ++ rp).
Proof.
  induction 1 as [|x y ra rt Hxy _ IH]; simpl; [by destruct rp|].
  rewrite IH. simpl.
  destruct (y =? x) eqn:E; [done|].
  destruct Hxy as [->| ->]; [by rewrite Nat.eqb_refl in E|].
  destruct (y =? 1) eqn:E'; [|done].
  apply Nat.eqb_eq in E' as ->. done.
Qed.

Lemma shape_broadcast_fits_l small big :
  fits small big -> shape_broadcast small big = Ok big.
Proof.
  intros (pre & tail & -> & HF). unfold shape_broadcast.
  rewrite reverse_app, (shape_broadcast_rev_l _ _ _ (Forall2_reverse _ _ _ HF)).
  by rewrite <- reverse_app, reverse_involutive.
Qed.

Lemma shape_broadcast_fits_r small big :
  fits small big -> shape_broadcast big small = Ok big.
Proof.
  intros (pre & tail & -> & HF). unfold shape_broadcast.
  rewrite reverse_app, (shape_broadcast_rev_r _ _ _ (Forall2_reverse _ _ _ HF)).
  by rewrite <- reverse_app, reverse_involutive.
Qed.

Lemma valid_index_app_drop idx pre tail :
  valid_index idx (pre ++ tail) = true ->
  valid_index (drop (length pre) idx) tail = true.
Proof.
  revert idx. induction pre as [|n pre IH]; intros idx; simpl.
  - by rewrite drop_0.
  - destruct idx as [|i idx]; [done|]. simpl.
    intros [_ H]%andb_true_iff. by apply IH.
Qed.

Lemma valid_index_clamp idx small tail :
  Forall2 (fun m n => m = n \/ m = 1) small tail ->
  valid_index idx tail = true ->
  valid_index (zip_with (fun i n => if n =? 1 then 0 else i) idx small) small
    = true.
Proof.
  intros HF. revert idx.
  induction HF as [|m n small tail Hmn _ IH]; intros [|i idx]; simpl;
    try done.
  intros [Hi Hidx]%andb_true_iff. apply Nat.ltb_lt in Hi.
  rewrite (IH _ Hidx), andb_true_r. apply Nat.ltb_lt.
  destruct (m =? 1) eqn:E.
  - apply Nat.eqb_eq in E. lia.
  - destruct Hmn as [->| ->]; [done|by rewrite Nat.eqb_refl in E].
Qed.

(** An index of the big shape maps to an index of the small one. *)
Lemma broadcast_index_valid idx small big :
  fits small big -> valid_index idx big = true ->
  valid_index (broadcast_index idx small) small = true.
Proof.
  intros (pre & tail & -> & HF) Hv. unfold broadcast_index.
  rewrite (valid_index_length _ _ Hv), length_app,
    (Forall2_length _ _ _ HF).
  replace (length pre + length tail - length tail) with (length pre) by lia.
  eapply valid_index_clamp; [done|]. by apply valid_index_app_drop.
Qed.

Lemma broadcast_index_same idx shape :
  valid_index idx shape = true -> broadcast_index idx shape = idx.
Proof.
  intros Hv. unfold broadcast_index.
  rewrite (valid_index_length _ _ Hv), Nat.sub_diag, drop_0.
  revert idx Hv. induction shape as [|n shape IH]; intros [|i idx]; simpl;
    try done.
  intros [Hi Hidx]%andb_true_iff. apply Nat.ltb_lt in Hi.
  rewrite (IH _ Hidx). destruct (n =? 1) eqn:E; [|done].
  apply Nat.eqb_eq in E. f_equal. lia.
Qed.

Lemma broadcast_index_one idx shape :
  shape <> [] -> valid_index idx shape = true -> broadcast_index idx [1] = [0].
Proof.
  intros Hs Hv. unfold broadcast_index.
  pose proof (valid_index_length _ _ Hv) as Hlen.
  destruct (snoc_inv idx) as [->|(idx' & i & ->)].
  - destruct shape; done.
  - rewrite length_app. simpl.
    replace (length idx' + 1 - 1) with (length idx') by lia.
    by rewrite drop_app_length.
Qed.

End Broadcast_facts.

(** ** The sequential backend *)

Section Sequential.

Import TensorData.

Lemma cell_loop hp objs0 loc shape (body : list nat -> M unit)
    (val : list nat -> float) l0 :
  hp !! loc = Some l0 ->
  length l0 = operators.prod shape ->
  (forall idx l1, valid_index idx shape = true -> length l1 = length l0 ->
     body idx (mkStore (<[loc := l1]> hp) objs0) =
       (Ok tt,
        mkStore (<[loc := <[index_to_position idx (strides_from_shape shape)
                             := val idx]> l1]> hp) objs0)) ->
  for_each (indices shape) body (mkStore hp objs0) =
    (Ok tt, mkStore (<[loc := val <$> indices shape]> hp) objs0).
Proof.
  intros Hl Hlen Hbody.
  rewrite <- (list_insert_id hp loc l0 Hl) at 1.
  rewrite (for_each_write (indices shape) body
             (fun idx => index_to_position idx (strides_from_shape shape))
             val loc objs0 hp l0).
  - rewrite foldl_write_seq; [done| |].
    + by rewrite positions_indices, length_indices.
    + by rewrite length_indices.
  - by eapply lookup_lt_Some.
  - intros idx Hin%valid_index_indices. rewrite Hlen.
    by apply index_to_position_lt.
  - intros idx l1 Hin%valid_index_indices Hl1. by apply Hbody.
Qed.

Lemma read_insert_other hp v idx loc l1 :
  _storage v <> loc ->
  read (<[loc := l1]> hp) v idx = read hp v idx.
Proof.
  intros Hne. unfold read. by rewrite list_lookup_insert_ne.
Qed.

Lemma read_storage_lt hp v idx x :
  read hp v idx = Some x -> _storage v < length hp.
Proof.
  unfold read. destruct (valid_index idx (_shape v)); [|done].
  destruct (hp !! _storage v) eqn:E; [|done].
  intros _. by eapply lookup_lt_Some.
Qed.

(** Reads of buffers that existed before a storage was appended. *)
Lemma read_snoc hp l0 l1 v idx x :
  read hp v idx = Some x ->
  read (<[length hp := l1]> (hp ++ [l0])) v idx = Some x.
Proof.
  intros H. pose proof (read_storage_lt _ _ _ _ H) as Hlt.
  revert H. unfold read.
  rewrite list_lookup_insert_ne by lia. by rewrite lookup_app_l by done.
Qed.

Lemma snoc_insert {A} (l : list A) (x y : A) :
  <[length l := y]> (l ++ [x]) = l ++ [y].
Proof. apply insert_at_length. Qed.

Lemma zip_run fn st a b oa ob c (ra rb : list nat -> float) :
  objs st !! a = Some oa ->
  objs st !! b = Some ob ->
  shape_broadcast (_shape (_tensor oa)) (_shape (_tensor ob)) = Ok c ->
  (forall idx, valid_index idx c = true ->
     read (heap st) (_tensor oa)
       (broadcast_index idx (_shape (_tensor oa))) = Some (ra idx)) ->
  (forall idx, valid_index idx c = true ->
     read (heap st) (_tensor ob)
       (broadcast_index idx (_shape (_tensor ob))) = Some (rb idx)) ->
  TensorOps.zip fn a b None st =
    (Ok (length (objs st)),
     mkStore (heap st ++ [(fun idx => fn (ra idx) (rb idx)) <$> indices c])
       (objs st ++ [fresh (mkTensorData (length (heap st)) c
                             (strides_from_shape c)) (tf oa)])).
Proof.
  intros Ha Hb Hc Hra Hrb. unfold TensorOps.zip.
  rewrite (bind_run _ _ _ _ _ (Tensor_shape_run _ _ _ Ha)).
  rewrite (bind_run _ _ _ _ _ (Tensor_shape_run _ _ _ Hb)).
  rewrite Hc. unfold lift at 1. unfold bind at 1.
  rewrite (bind_run _ _ _ _ _ (Tensor_zeros_run _ _ _ c Ha)).
  set (o := fresh _ _).
  erewrite (bind_run (Tensor_shape _));
    [|apply Tensor_shape_run; simpl; by apply list_lookup_middle].
  simpl. rewrite bool_decide_eq_true_2 by done.
  unfold ret at 1. unfold bind at 1.
  destruct st as [hp objs0]. simpl in *.
  erewrite (bind_run (for_each _ _)); cycle 1.
  - apply (cell_loop _ _ (length hp) _ _ (fun idx => fn (ra idx) (rb idx))
             (replicate (operators.prod c) 0%float)).
    + by apply list_lookup_middle.
    + by rewrite length_replicate.
    + intros idx l1 Hv Hl1. simpl in *.
      erewrite bind_run; [|eapply getitem_run;
        [by apply lookup_app_l_Some|by apply read_snoc, Hra]].
      erewrite bind_run; [|eapply getitem_run;
        [by apply lookup_app_l_Some|by apply read_snoc, Hrb]].
      erewrite setitem_run; [|by apply list_lookup_middle|done| |].
      * simpl. by rewrite list_insert_insert_eq.
      * simpl. apply list_lookup_insert_eq. rewrite length_app. simpl. lia.
      * simpl. rewrite Hl1, length_replicate. by apply index_to_position_lt.
  - unfold ret. by rewrite snoc_insert.
Qed.

Lemma map_run fn st a oa (ra : list nat -> float) :
  objs st !! a = Some oa ->
  (forall idx, valid_index idx (_shape (_tensor oa)) = true ->
     read (heap st) (_tensor oa) idx = Some (ra idx)) ->
  TensorOps.map fn a None st =
    (Ok (length (objs st)),
     mkStore (heap st ++ [(fun idx => fn (ra idx))
                            <$> indices (_shape (_tensor oa))])
       (objs st ++ [fresh (mkTensorData (length (heap st))
                             (_shape (_tensor oa))
                             (strides_from_shape (_shape (_tensor oa))))
                      (tf oa)])).
Proof.
  intros Ha Hra. unfold TensorOps.map.
  rewrite (bind_run _ _ _ _ _ (Tensor_shape_run _ _ _ Ha)).
  rewrite (bind_run _ _ _ _ _ (Tensor_zeros_run _ _ _ _ Ha)).
  set (o := fresh _ _).
  erewrite (bind_run (Tensor_shape _));
    [|apply Tensor_shape_run; simpl; by apply list_lookup_middle].
  simpl. rewrite (shape_broadcast_fits_l _ _ (fits_refl _)).
  unfold lift at 1. unfold bind at 1.
  rewrite bool_decide_eq_true_2 by done.
  unfold ret at 1. unfold bind at 1.
  destruct st as [hp objs0]. simpl in *.
  erewrite (bind_run (for_each _ _)); cycle 1.
  - apply (cell_loop _ _ (length hp) _ _ (fun idx => fn (ra idx))
             (replicate (operators.prod (_shape (_tensor oa))) 0%float)).
    + by apply list_lookup_middle.
    + by rewrite length_replicate.
    + intros idx l1 Hv Hl1. simpl in *.
      rewrite (broadcast_index_same _ _ Hv).
      erewrite bind_run; [|eapply getitem_run;
        [by apply lookup_app_l_Some|by apply read_snoc, Hra]].
      erewrite setitem_run; [|by apply list_lookup_middle|done| |].
      * simpl. by rewrite list_insert_insert_eq.
      * simpl. apply list_lookup_insert_eq. rewrite length_app. simpl. lia.
      * simpl. rewrite Hl1, length_replicate. by apply index_to_position_lt.
  - unfold ret. by rewrite snoc_insert.
Qed.

Lemma map_out_run fn st a out oa oo loc oshape l0 (ra : list nat -> float) :
  objs st !! a = Some oa ->
  objs st !! out = Some oo ->
  _tensor oo = mkTensorData loc oshape (strides_from_shape oshape) ->
  heap st !! loc = Some l0 ->
  length l0 = operators.prod oshape ->
  _storage (_tensor oa) <> loc ->
  fits (_shape (_tensor oa)) oshape ->
  (forall idx, valid_index idx oshape = true ->
     read (heap st) (_tensor oa)
       (broadcast_index idx (_shape (_tensor oa))) = Some (ra idx)) ->
  TensorOps.map fn a (Some out) st =
    (Ok out,
     mkStore (<[loc := (fun idx => fn (ra idx)) <$> indices oshape]> (heap st))
       (objs st)).
Proof.
  intros Ha Ho Hoo Hl Hlen Hne Hfits Hra. unfold TensorOps.map.
  destruct oo as [v bk nm dv rg b]. simpl in Hoo. subst v.
  rewrite (bind_run _ _ _ _ _ (Tensor_shape_run _ _ _ Ha)).
  unfold ret at 1. unfold bind at 1.
  rewrite (bind_run _ _ _ _ _ (Tensor_shape_run _ _ _ Ho)).
  simpl. rewrite (shape_broadcast_fits_l _ _ Hfits).
  unfold lift at 1. unfold bind at 1.
  rewrite bool_decide_eq_true_2 by done.
  unfold ret at 1. unfold bind at 1.
  destruct st as [hp objs0]. simpl in *.
  erewrite (bind_run (for_each _ _)); cycle 1.
  - apply (cell_loop _ _ loc _ _ (fun idx => fn (ra idx)) l0); [done..|].
    intros idx l1 Hv Hl1.
    erewrite bind_run; [|eapply getitem_run;
      [done|simpl; rewrite read_insert_other by done; by apply Hra]].
    erewrite setitem_run; [|done|done| |].
    + simpl. by rewrite list_insert_insert_eq.
    + simpl. apply list_lookup_insert_eq. by eapply lookup_lt_Some.
    + simpl. rewrite Hl1, Hlen. by apply index_to_position_lt.
  - done.
Qed.

(** The shape of a reduction over [dims]. *)
Definition collapse (shape dims : list nat) : list nat :=
  foldl (fun s d => <[d := 1]> s) shape dims.

(** The sizes folded for one output cell. *)
Definition reduce_shape (shape out_shape : list nat) : list nat :=
  zip_with (fun n m => if m =? 1 then n else 1) shape out_shape.

Lemma collapse_rel s' s dims :
  Forall2 (fun m n => m = n \/ m = 1) s' s ->
  Forall2 (fun m n => m = n \/ m = 1) (collapse s' dims) s.
Proof.
  revert s'. induction dims as [|d dims IH]; intros s' H; [done|].
  apply IH. destruct (decide (d < length s)) as [Hd|Hd].
  - destruct (lookup_lt_is_Some_2 s d Hd) as [n Hn].
    rewrite <- (list_insert_id s d n Hn). apply Forall2_insert; auto.
  - rewrite list_insert_ge; [done|]. rewrite (Forall2_length _ _ _ H). lia.
Qed.

Lemma collapse_self_rel s dims :
  Forall2 (fun m n => m = n \/ m = 1) (collapse s dims) s.
Proof. apply collapse_rel, Forall_Forall2_diag, Forall_forall. auto. Qed.

Lemma collapse_length s dims : length (collapse s dims) = length s.
Proof. apply (Forall2_length _ _ _ (collapse_self_rel s dims)). Qed.

Lemma valid_index_add oi r out_shape shape :
  Forall2 (fun m n => m = n \/ m = 1) out_shape shape ->
  valid_index oi out_shape = true ->
  valid_index r (reduce_shape shape out_shape) = true ->
  valid_index (zip_with Nat.add oi r) shape = true.
Proof.
  intros HF. revert oi r.
  induction HF as [|m n out_shape shape Hmn _ IH]; intros [|i oi] [|k r];
    simpl; try done.
  intros [Hi Hoi]%andb_true_iff [Hk Hr]%andb_true_iff.
  apply Nat.ltb_lt in Hi, Hk. rewrite (IH _ _ Hoi Hr), andb_true_r.
  apply Nat.ltb_lt. destruct (m =? 1) eqn:E.
  - apply Nat.eqb_eq in E. lia.
  - destruct Hmn as [->| ->]; [lia|by rewrite Nat.eqb_refl in E].
Qed.

Lemma reduce_run fn start st a oa dims (ra : list nat -> float) :
  objs st !! a = Some oa ->
  Forall (fun d => d < length (_shape (_tensor oa))) dims ->
  (forall idx, valid_index idx (_shape (_tensor oa)) = true ->
     read (heap st) (_tensor oa) idx = Some (ra idx)) ->
  let out_shape := collapse (_shape (_tensor oa)) dims in
  TensorOps.reduce fn start a (Some dims) None st =
    (Ok (length (objs st)),
     mkStore
       (heap st ++
          [(fun oi =>
              foldl (fun acc r => fn acc (ra (zip_with Nat.add oi r))) start
                (indices (reduce_shape (_shape (_tensor oa)) out_shape)))
             <$> indices out_shape])
       (objs st ++ [fresh (mkTensorData (length (heap st)) out_shape
                             (strides_from_shape out_shape)) (tf oa)])).
Proof.
  intros Ha Hdims Hra out_shape. unfold TensorOps.reduce.
  rewrite (bind_run _ _ _ _ _ (Tensor_shape_run _ _ _ Ha)).
  assert (forallb (fun d => d <? length (_shape (_tensor oa))) dims = true)
    as ->.
  { apply forallb_forall. intros d Hd%list_elem_of_In.
    apply Nat.ltb_lt. by eapply Forall_forall in Hdims. }
  rewrite bind_assoc, ret_bind.
  fold (collapse (_shape (_tensor oa)) dims). fold out_shape.
  rewrite (bind_run _ _ _ _ _ (Tensor_zeros_run _ _ _ _ Ha)).
  set (o := fresh _ _).
  erewrite (bind_run (Tensor_shape _));
    [|apply Tensor_shape_run; simpl; by apply list_lookup_middle].
  simpl.
  assert (replicate (length (_shape (_tensor oa)) - length out_shape) 1
            ++ out_shape = out_shape) as Hpad.
  { unfold out_shape. by rewrite collapse_length, Nat.sub_diag. }
  rewrite !Hpad.
  pose proof (collapse_self_rel (_shape (_tensor oa)) dims) as Hrel.
  fold out_shape in Hrel.
  assert (fits out_shape (_shape (_tensor oa))) as Hfits.
  { by exists [], (_shape (_tensor oa)). }
  rewrite (shape_broadcast_fits_l _ _ Hfits).
  unfold lift at 1. unfold bind at 1.
  rewrite bool_decide_eq_true_2 by done.
  assert ((length out_shape <=? length (_shape (_tensor oa))) = true) as ->.
  { apply Nat.leb_le. unfold out_shape. by rewrite collapse_length. }
  simpl. unfold ret at 1. unfold bind at 1.
  fold (reduce_shape (_shape (_tensor oa)) out_shape).
  destruct st as [hp objs0]. simpl in *.
  erewrite (bind_run (for_each _ _)); cycle 1.
  - apply (cell_loop _ _ (length hp) _ _
             (fun oi => foldl (fun acc r => fn acc (ra (zip_with Nat.add oi r)))
                          start
                          (indices (reduce_shape (_shape (_tensor oa))
                                      out_shape)))
             (replicate (operators.prod out_shape) 0%float)).
    + by apply list_lookup_middle.
    + by rewrite length_replicate.
    + intros oi l1 Hv Hl1. simpl in *.
      rewrite (broadcast_index_same _ _ Hv).
      erewrite bind_run; cycle 1.
      * apply (fold_each_read _ _
                 (fun acc r => fn acc (ra (zip_with Nat.add oi r)))).
        intros acc r Hr%valid_index_indices.
        erewrite bind_run; [done|]. eapply getitem_run.
        -- by apply lookup_app_l_Some.
        -- simpl. apply read_snoc, Hra. by eapply valid_index_add.
      * erewrite setitem_run; [|by apply list_lookup_middle|done| |].
        -- simpl. by rewrite list_insert_insert_eq.
        -- simpl. apply list_lookup_insert_eq. rewrite length_app. simpl. lia.
        -- simpl. rewrite Hl1, length_replicate.
           by apply index_to_position_lt.
  - unfold ret. by rewrite snoc_insert.
Qed.

End Sequential.

(** ** apply *)

Definition is_constant (v : Value) : Prop :=
  match v with
  | VTensor _ => False
  | _ => True
  end.

Ltac mnorm := repeat first [rewrite ret_bind | rewrite bind_assoc].

Lemma apply1_run cls fwd st a oa st2 ctx' c oc :
  objs st !! a = Some oa ->
  fwd (mkContext VNone) [VTensor (length (objs st))]
    (mkStore (heap st) (objs st ++ [fresh (_tensor oa) TensorFunctions]))
    = (Ok (ctx', c), st2) ->
  objs st2 !! c = Some oc ->
  FunctionBase_apply cls fwd [VTensor a] st =
    (Ok (length (objs st2)),
     mkStore (heap st2)
       (objs st2 ++
          [Variable___init__
             (if requires_grad oa
              then Some (mkHistory cls ctx' [VTensor a]) else None)
             None (_tensor oc) (tf oc)])).
Proof.
  intros Ha Hfwd Hc. unfold FunctionBase_apply. cbn [list_comp]. mnorm.
  rewrite (bind_run _ _ _ _ _ (Tensor_get_data_run _ _ _ Ha)). mnorm.
  erewrite (bind_run (deref a)); [|apply deref_run; simpl;
    by apply lookup_app_l_Some].
  mnorm. rewrite (bind_run _ _ _ _ _ Hfwd). simpl.
  unfold Function_data. mnorm.
  rewrite (bind_run _ _ _ _ _ (deref_run _ _ _ Hc)), ret_bind.
  rewrite orb_false_r. done.
Qed.

Lemma apply2_run cls fwd st a b oa ob st2 ctx' c oc :
  objs st !! a = Some oa ->
  objs st !! b = Some ob ->
  fwd (mkContext VNone)
    [VTensor (length (objs st)); VTensor (S (length (objs st)))]
    (mkStore (heap st)
       (objs st ++ [fresh (_tensor oa) TensorFunctions;
                    fresh (_tensor ob) TensorFunctions]))
    = (Ok (ctx', c), st2) ->
  objs st2 !! c = Some oc ->
  FunctionBase_apply cls fwd [VTensor a; VTensor b] st =
    (Ok (length (objs st2)),
     mkStore (heap st2)
       (objs st2 ++
          [Variable___init__
             (if requires_grad oa || requires_grad ob
              then Some (mkHistory cls ctx' [VTensor a; VTensor b])
              else None)
             None (_tensor oc) (tf oc)])).
Proof.
  intros Ha Hb Hfwd Hc. unfold FunctionBase_apply. cbn [list_comp]. mnorm.
  rewrite (bind_run _ _ _ _ _ (Tensor_get_data_run _ _ _ Ha)). mnorm.
  erewrite (bind_run (Tensor_get_data b)); [|apply Tensor_get_data_run; simpl;
    by apply lookup_app_l_Some].
  mnorm. simpl.
  erewrite (bind_run (deref a)); [|apply deref_run; simpl;
    rewrite <- app_assoc; by apply lookup_app_l_Some].
  mnorm.
  erewrite (bind_run (deref b)); [|apply deref_run; simpl;
    rewrite <- app_assoc; by apply lookup_app_l_Some].
  mnorm.
  rewrite <- app_assoc, length_app, Nat.add_1_r. simpl.
  rewrite (bind_run _ _ _ _ _ Hfwd). simpl.
  unfold Function_data. mnorm.
  rewrite (bind_run _ _ _ _ _ (deref_run _ _ _ Hc)), ret_bind.
  rewrite orb_false_r. done.
Qed.

Lemma apply1c_run cls fwd st a v oa st2 ctx' c oc :
  objs st !! a = Some oa ->
  is_constant v ->
  fwd (mkContext VNone) [VTensor (length (objs st)); v]
    (mkStore (heap st) (objs st ++ [fresh (_tensor oa) TensorFunctions]))
    = (Ok (ctx', c), st2) ->
  objs st2 !! c = Some oc ->
  FunctionBase_apply cls fwd [VTensor a; v] st =
    (Ok (length (objs st2)),
     mkStore (heap st2)
       (objs st2 ++
          [Variable___init__
             (if requires_grad oa
              then Some (mkHistory cls ctx' [VTensor a; v]) else None)
             None (_tensor oc) (tf oc)])).
Proof.
  intros Ha Hv Hfwd Hc. unfold FunctionBase_apply. cbn [list_comp]. mnorm.
  rewrite (bind_run _ _ _ _ _ (Tensor_get_data_run _ _ _ Ha)). mnorm.
  assert (forall st',
    match v with
    | VTensor t => d <- Tensor_get_data t ;; ret (VTensor d)
    | _ => ret v
    end st' = (Ok v, st')) as Hv1 by (intros st'; by destruct v).
  rewrite (bind_run _ _ _ _ _ (Hv1 _)). mnorm.
  erewrite (bind_run (deref a)); [|apply deref_run; simpl;
    by apply lookup_app_l_Some].
  mnorm.
  assert (forall st',
    match v with
    | VTensor t => o <- deref t ;; ret (requires_grad o)
    | _ => ret false
    end st' = (Ok false, st')) as Hv2 by (intros st'; by destruct v).
  rewrite (bind_run _ _ _ _ _ (Hv2 _)). mnorm.
  rewrite (bind_run _ _ _ _ _ Hfwd). simpl.
  unfold Function_data. mnorm.
  rewrite (bind_run _ _ _ _ _ (deref_run _ _ _ Hc)), ret_bind.
  rewrite orb_false_r. done.
Qed.

(** ** The operators of the Tensor class *)

Lemma lookup_new {A} (l k : list A) (i j : nat) :
  j = length l + i -> (l ++ k) !! j = k !! i.
Proof.
  intros ->. rewrite lookup_app_r by lia. f_equal. lia.
Qed.

(** Looks an object up in a store that grew by a few objects. *)
Ltac lookup_offset :=
  first
    [ rewrite (lookup_new _ _ 0) by (rewrite ?length_app; simpl; lia)
    | rewrite (lookup_new _ _ 1) by (rewrite ?length_app; simpl; lia)
    | rewrite (lookup_new _ _ 2) by (rewrite ?length_app; simpl; lia)
    | rewrite (lookup_new _ _ 3) by (rewrite ?length_app; simpl; lia)
    | rewrite (lookup_new _ _ 4) by (rewrite ?length_app; simpl; lia)
    | rewrite (lookup_new _ _ 5) by (rewrite ?length_app; simpl; lia) ];
  reflexivity.

Ltac lookup_obj :=
  first
    [ eassumption
    | by apply lookup_app_l_Some
    | lookup_offset
    | simpl; rewrite <- ?app_assoc; simpl;
      first [ eassumption | by apply lookup_app_l_Some | lookup_offset ] ].

Section Runs.

Import TensorData.

Variable other : Backend.

(** The result of an operation recorded by [apply]. *)
Definition recorded (need_grad : bool) (cls : TFRef * Op) (c : Context)
    (vals : list Value) (v : TensorData) (b : TFRef) : Tensor :=
  Variable___init__
    (if need_grad then Some (mkHistory cls c vals) else None) None v b.

Lemma add_run st a b oa ob c (ra rb : list nat -> float) :
  objs st !! a = Some oa ->
  objs st !! b = Some ob ->
  tf oa = TensorFunctions ->
  shape_broadcast (_shape (_tensor oa)) (_shape (_tensor ob)) = Ok c ->
  (forall idx, valid_index idx c = true ->
     read (heap st) (_tensor oa)
       (broadcast_index idx (_shape (_tensor oa))) = Some (ra idx)) ->
  (forall idx, valid_index idx c = true ->
     read (heap st) (_tensor ob)
       (broadcast_index idx (_shape (_tensor ob))) = Some (rb idx)) ->
  let v := mkTensorData (length (heap st)) c (strides_from_shape c) in
  Tensor___add__ other a (OTensor b) st =
    (Ok (length (objs st) + 3),
     mkStore
       (heap st ++ [(fun idx => operators.add (ra idx) (rb idx)) <$> indices c])
       (objs st ++
          [fresh (_tensor oa) TensorFunctions;
           fresh (_tensor ob) TensorFunctions;
           fresh v TensorFunctions;
           recorded (requires_grad oa || requires_grad ob)
             (TensorFunctions, Add) (mkContext VNone) [VTensor a; VTensor b]
             v TensorFunctions])).
Proof.
  intros Ha Hb Htf Hc Hra Hrb v. unfold Tensor___add__, apply.
  rewrite (bind_run _ _ _ _ _ (deref_run _ _ _ Ha)). cbn [ensure_tensor].
  mnorm. rewrite Htf.
  erewrite apply2_run; [|done|done| |]; cycle 1.
  - cbn [forward]. unfold Add_forward, add_zip. cbn [backend_of zip].
    cbn [TensorOps.backend zip].
    erewrite bind_run; [reflexivity|].
    eapply (zip_run _ _ _ _ _ _ c ra rb).
    + lookup_obj.
    + lookup_obj.
    + done.
    + done.
    + done.
  - lookup_obj.
  - simpl. f_equal.
    + f_equal. rewrite !length_app. simpl. lia.
    + rewrite <- !app_assoc. reflexivity.
Qed.

Lemma collapse_all_gen pre s :
  collapse (pre ++ s) (seq (length pre) (length s))
    = pre ++ replicate (length s) 1.
Proof.
  revert pre. induction s as [|n s IH]; intros pre; [done|].
  cbn [length seq collapse foldl replicate]. rewrite insert_at_length.
  change (pre ++ 1 :: s) with (pre ++ [1] ++ s).
  rewrite app_assoc. fold (collapse ((pre ++ [1]) ++ s)).
  replace (S (length pre)) with (length (pre ++ [1]))
    by (rewrite length_app; simpl; lia).
  unfold collapse in IH. unfold collapse. rewrite IH.
  by rewrite <- app_assoc.
Qed.

Lemma collapse_all s : collapse s (seq 0 (length s)) = replicate (length s) 1.
Proof. apply (collapse_all_gen [] s). Qed.

Lemma indices_ones k : indices (replicate k 1) = [replicate k 0].
Proof. induction k as [|k IH]; [done|]. simpl. by rewrite IH. Qed.


Lemma reduce_shape_ones s : reduce_shape s (replicate (length s) 1) = s.
Proof. induction s as [|n s IH]; [done|]. simpl. by rewrite IH. Qed.

Lemma zip_add_zeros r s :
  valid_index r s = true -> zip_with Nat.add (replicate (length s) 0) r = r.
Proof.
  revert r. induction s as [|n s IH]; intros [|k r]; simpl; try done.
  intros [_ H]%andb_true_iff. by rewrite IH.
Qed.

(** The entries of a buffer added up in row-major order, from 0. *)
Definition total (ra : list nat -> float) (shape : list nat) : float :=
  foldl (fun acc idx => operators.add acc (ra idx)) 0%float (indices shape).

Lemma foldl_ext_in {A B} (f g : B -> A -> B) (b : B) (l : list A) :
  (forall acc x, x ∈ l -> f acc x = g acc x) -> foldl f b l = foldl g b l.
Proof.
  revert b. induction l as [|x l IH]; intros b H; [done|]. simpl.
  rewrite H by left. apply IH. intros acc y Hy. apply H. by right.
Qed.

Lemma sum_run st a oa (ra : list nat -> float) :
  objs st !! a = Some oa ->
  tf oa = TensorFunctions ->
  (forall idx, valid_index idx (_shape (_tensor oa)) = true ->
     read (heap st) (_tensor oa) idx = Some (ra idx)) ->
  let ones := replicate (length (_shape (_tensor oa))) 1 in
  let v1 := mkTensorData (length (heap st)) ones (strides_from_shape ones) in
  let v := mkTensorData (length (heap st)) [1] [1] in
  Tensor_sum other a None st =
    (Ok (length (objs st) + 5),
     mkStore
       (heap st ++ [[total ra (_shape (_tensor oa))]])
       (objs st ++
          [fresh (_tensor oa) TensorFunctions;
           fresh v1 TensorFunctions;
           fresh v1 TensorFunctions;
           fresh v TensorFunctions;
           fresh v TensorFunctions;
           recorded (requires_grad oa) (TensorFunctions, Sum)
             (mkContext (VTuple (_shape (_tensor oa))))
             [VTensor a; VNone] v TensorFunctions])).
Proof.
  intros Ha Htf Hra ones v1 v. unfold Tensor_sum, apply.
  rewrite (bind_run _ _ _ _ _ (deref_run _ _ _ Ha)). rewrite Htf.
  cbn [dim_value].
  erewrite apply1c_run; [|done|done| |]; cycle 1.
  - cbn [forward]. unfold Sum_forward, add_reduce.
    change (backend_of other TensorFunctions) with TensorOps.backend.
    cbn [reduce TensorOps.backend].
    erewrite (bind_run (deref _)); [|apply deref_run; lookup_obj].
    cbn [save_for_backward fresh _tensor].
    erewrite (bind_run (TensorOps.reduce _ _ _ _ _)); cycle 1.
    { eapply (reduce_run _ _ _ _ _ _ ra).
      - lookup_obj.
      - apply Forall_forall. intros d Hd%list_elem_of_In%in_seq.
        unfold dims in Hd. simpl in *. lia.
      - done. }
    cbn [fresh _tensor tf heap objs]. unfold dims. rewrite collapse_all.
    rewrite indices_ones, reduce_shape_ones. cbn [fmap list_fmap].
    erewrite (bind_run (Tensor_view _ _)); [reflexivity|].
    unfold Tensor_view.
    erewrite (bind_run (deref _)); [|apply deref_run; lookup_obj].
    cbn [fresh tf].
    erewrite apply1c_run; cycle 1.
    + lookup_obj.
    + done.
    + unfold View_forward_args, View_forward.
      erewrite (bind_run (deref _)); [|apply deref_run; lookup_obj].
      cbn [fresh _tensor _shape _storage _strides tf save_for_backward].
      unfold is_contiguous. cbn [_strides _shape].
      rewrite bool_decide_eq_true_2 by done.
      unfold assert. rewrite ret_bind.
      erewrite (bind_run (Tensor_make _ _ _ _)); cycle 1.
      { eapply Tensor_make_run.
        - simpl. by apply list_lookup_middle.
        - done. }
      cbn [default].
      unfold update_object, bind, ret. cbn [heap objs].
      rewrite (lookup_new _ _ 0) by (rewrite ?length_app; simpl; lia).
      cbn [lookup list_lookup]. rewrite snoc_insert. reflexivity.
    + lookup_obj.
    + reflexivity.
  - lookup_obj.
  - cbn [objs heap]. f_equal.
    + f_equal. rewrite !length_app. simpl. lia.
    + f_equal.
      * do 3 f_equal. unfold total. apply foldl_ext_in.
        intros acc r Hr%valid_index_indices. by rewrite zip_add_zeros.
      * rewrite <- !app_assoc. reflexivity.
Qed.

Lemma valid_index_1d_inv idx n :
  valid_index idx [n] = true -> exists i, idx = [i] /\ i < n.
Proof.
  destruct idx as [|i [|? ?]]; simpl; try done.
  - rewrite andb_true_r. intros H%Nat.ltb_lt. eauto.
  - by rewrite andb_false_r.
Qed.

(** [add_reduce(buf, out=buf2)] of a one-entry buffer into a buffer
    without dimensions, as [expand] does for a 0-dimensional [self]. *)
Lemma reduce_into_scalar st buf buf2 lb l2 (c : float) :
  objs st !! buf = Some (fresh (mkTensorData lb [1] [1]) TensorFunctions) ->
  objs st !! buf2 = Some (fresh (mkTensorData l2 [] []) TensorFunctions) ->
  heap st !! lb = Some [c] ->
  heap st !! l2 = Some [0%float] ->
  lb <> l2 ->
  TensorOps.reduce operators.add 0%float buf None (Some buf2) st =
    (Ok buf2,
     mkStore (<[l2 := [operators.add 0 c]]> (heap st)) (objs st)).
Proof.
  intros Hb Hb2 Hlb Hl2 Hne. unfold TensorOps.reduce.
  rewrite (bind_run _ _ _ _ _ (Tensor_shape_run _ _ _ Hb)). mnorm.
  rewrite (bind_run _ _ _ _ _ (Tensor_shape_run _ _ _ Hb2)).
  cbn [fresh _tensor _shape length Nat.sub replicate app].
  change (shape_broadcast [1] [1]) with (Ok (A:=list nat) [1]).
  rewrite lift_ok. mnorm.
  rewrite bool_decide_eq_true_2 by done.
  cbn [andb Nat.leb length zip_with Nat.eqb indices seq flat_map fmap
       list_fmap app for_each].
  mnorm. cbn [TensorOps.fold_each]. mnorm.
  erewrite (bind_run (Tensor___getitem__ _ _)); cycle 1.
  { eapply getitem_run; [done|]. unfold read. simpl. by rewrite Hlb. }
  mnorm.
  erewrite (bind_run (Tensor___setitem__ _ _ _)); cycle 1.
  { eapply setitem_run; [done|done|done|]. simpl. lia. }
  done.
Qed.

(** [self.expand(g)] for the seed gradient [g = tensor([1.0])]: a
    contiguous tensor of the shape of [self], every entry 1.0. *)
Lemma expand_ones st self g oself loc :
  objs st !! self = Some oself ->
  tf oself = TensorFunctions ->
  objs st !! g = Some (fresh (mkTensorData loc [1] [1]) TensorFunctions) ->
  heap st !! loc = Some [1%float] ->
  exists e st' loc',
    Tensor_expand other self g st = (Ok e, st') /\
    heap st `prefix_of` heap st' /\
    objs st `prefix_of` objs st' /\
    objs st' !! e =
      Some (fresh (mkTensorData loc' (_shape (_tensor oself))
                     (strides_from_shape (_shape (_tensor oself))))
              TensorFunctions) /\
    heap st' !! loc' =
      Some ((fun _ => 1%float) <$> indices (_shape (_tensor oself))).
Proof.
  intros Hself Htf Hg Hloc. unfold Tensor_expand.
  rewrite (bind_run _ _ _ _ _ (Tensor_shape_run _ _ _ Hself)).
  rewrite (bind_run _ _ _ _ _ (Tensor_shape_run _ _ _ Hg)).
  cbn [fresh _tensor _shape].
  pose proof (lookup_lt_Some _ _ _ Hloc) as Hloclt.
  destruct (decide (_shape (_tensor oself) = [1])) as [E|E].
  { rewrite bool_decide_eq_true_2 by done.
    exists g, st, loc. rewrite E. by repeat split. }
  rewrite bool_decide_eq_false_2 by done.
  destruct (decide (_shape (_tensor oself) = [])) as [E0|Hne].
  - rewrite E0. change (shape_broadcast [] [1]) with (Ok (A:=list nat) [1]).
    rewrite lift_ok. mnorm.
    rewrite (bind_run _ _ _ _ _ (zeros_run _ _)).
    erewrite (bind_run (deref _)); [|apply deref_run; lookup_obj].
    rewrite Htf.
    change (backend_of other TensorFunctions) with TensorOps.backend.
    unfold id_map, add_reduce. cbn [map reduce TensorOps.backend].
    erewrite (bind_run (TensorOps.map _ _ _)); cycle 1.
    { eapply (map_out_run _ _ _ _ _ _ (length (heap st)) [1] _
                (fun _ => 1%float)).
      - lookup_obj.
      - lookup_obj.
      - reflexivity.
      - simpl. by apply list_lookup_middle.
      - done.
      - simpl. lia.
      - simpl. apply fits_refl.
      - intros idx Hv. simpl. rewrite (broadcast_index_same _ _ Hv).
        destruct (valid_index_1d_inv _ _ Hv) as (i & -> & Hi).
        replace i with 0 by lia.
        unfold read. simpl.
        by rewrite lookup_app_l_Some with (x := [1%float]). }
    rewrite bool_decide_eq_false_2 by done.
    cbn [heap objs]. rewrite snoc_insert.
    rewrite (bind_run _ _ _ _ _ (zeros_run _ _)). cbn [heap objs].
    erewrite (bind_run (TensorOps.reduce _ _ _ _ _)); cycle 1.
    { eapply (reduce_into_scalar _ _ _ (length (heap st))
                (length (heap st ++ [[1%float]])) 1%float).
      - lookup_obj.
      - cbn [objs]. apply list_lookup_middle. done.
      - cbn [heap]. rewrite <- app_assoc. by apply list_lookup_middle.
      - cbn [heap]. by apply list_lookup_middle.
      - rewrite length_app. simpl. lia. }
    eexists _, _, (length (heap st ++ [[1%float]])).
    split; [reflexivity|]. cbn [heap objs]. rewrite snoc_insert.
    repeat split.
    + rewrite <- app_assoc. by apply prefix_app_r.
    + rewrite <- app_assoc. by apply prefix_app_r.
    + by apply list_lookup_middle.
    + by apply list_lookup_middle.
  - rewrite (shape_broadcast_fits_r _ _ (fits_one _ Hne)).
    unfold lift at 1. unfold bind at 1.
    rewrite (bind_run _ _ _ _ _ (zeros_run _ _)).
    erewrite (bind_run (deref _)); [|apply deref_run; lookup_obj].
    rewrite Htf.
    change (backend_of other TensorFunctions) with TensorOps.backend.
    unfold id_map. cbn [map TensorOps.backend].
    erewrite (bind_run (TensorOps.map _ _ _)); cycle 1.
    { eapply (map_out_run _ _ _ _ _ _ (length (heap st)) _ _
                (fun _ => 1%float)).
      - lookup_obj.
      - lookup_obj.
      - reflexivity.
      - simpl. by apply list_lookup_middle.
      - by rewrite length_replicate.
      - simpl. lia.
      - simpl. by apply fits_one.
      - intros idx Hv. simpl.
        rewrite (broadcast_index_one _ _ Hne Hv).
        unfold read. simpl. rewrite lookup_app_l_Some with (x := [1%float]);
          done. }
    rewrite bool_decide_eq_true_2 by done.
    eexists _, _, (length (heap st)). split; [reflexivity|].
    cbn [heap objs]. rewrite snoc_insert. repeat split.
    + by apply prefix_app_r.
    + by apply prefix_app_r.
    + lookup_obj.
    + by apply list_lookup_middle.
Qed.

Lemma Tensor_zeros_none_run st self o :
  objs st !! self = Some o ->
  Tensor_zeros self None st =
    (Ok (length (objs st)),
     mkStore
       (heap st ++ [replicate (operators.prod (_shape (_tensor o))) 0%float])
       (objs st ++ [fresh (mkTensorData (length (heap st))
                             (_shape (_tensor o))
                             (strides_from_shape (_shape (_tensor o))))
                      (tf o)])).
Proof.
  intros Ho. unfold Tensor_zeros.
  rewrite (bind_run _ _ _ _ _ (deref_run _ _ _ Ho)).
  rewrite (bind_run _ _ _ _ _ (zeros_run _ _)).
  unfold update_object, bind, ret. simpl.
  rewrite list_lookup_middle by done.
  by rewrite insert_at_length.
Qed.

Lemma fmap_const_replicate {A B} (c : B) (l : list A) :
  (fun _ => c) <$> l = replicate (length l) c.
Proof. induction l as [|? ? IH]; [done|]. simpl. by rewrite <- IH. Qed.

Lemma fmap_const_indices (c : float) shape :
  (fun _ => c) <$> indices shape = replicate (operators.prod shape) c.
Proof. by rewrite fmap_const_replicate, length_indices. Qed.

(** What accumulating a gradient into the slot of [x] leaves behind: the
    slot holds a tensor of shape [S] with entries [r]; nothing else
    changed. *)
Definition accumulated (st st' : Store) (x : nat) (ox : Tensor)
    (S : list nat) (r : list nat -> float) : Prop :=
  heap st `prefix_of` heap st' /\
  (forall t o, t <> x -> objs st !! t = Some o -> objs st' !! t = Some o) /\
  exists d' od',
    objs st' !! x = Some (set_derivative (Some d') ox) /\
    objs st' !! d' = Some od' /\
    tf od' = TensorFunctions /\
    _shape (_tensor od') = S /\
    forall idx, valid_index idx S = true ->
      read (heap st') (_tensor od') idx = Some (r idx).

Lemma accumulate_tail st x d v ox od ov (rd rv : list nat -> float) :
  objs st !! x = Some ox ->
  objs st !! d = Some od ->
  tf od = TensorFunctions ->
  objs st !! v = Some ov ->
  _shape (_tensor ov) = _shape (_tensor od) ->
  (forall idx, valid_index idx (_shape (_tensor od)) = true ->
     read (heap st) (_tensor od) idx = Some (rd idx)) ->
  (forall idx, valid_index idx (_shape (_tensor od)) = true ->
     read (heap st) (_tensor ov) idx = Some (rv idx)) ->
  exists st',
    (d' <- Tensor___add__ other d (OTensor v) ;;
     update_object x (set_derivative (Some d'))) st = (Ok tt, st') /\
    accumulated st st' x ox (_shape (_tensor od))
      (fun idx => operators.add (rd idx) (rv idx)).
Proof.
  intros Hx Hd Htf Hv Hshape Hrd Hrv.
  pose proof (lookup_lt_Some _ _ _ Hx) as Hxlt.
  erewrite bind_run; cycle 1.
  { eapply (add_run _ _ _ _ _ (_shape (_tensor od)) rd rv); try done.
    - rewrite Hshape. apply shape_broadcast_fits_l, fits_refl.
    - intros idx Hi. rewrite (broadcast_index_same _ _ Hi). by apply Hrd.
    - intros idx Hi. rewrite Hshape, (broadcast_index_same _ _ Hi).
      by apply Hrv. }
  unfold update_object. cbn [objs heap].
  rewrite (lookup_app_l_Some _ _ _ _ Hx).
  eexists. split; [reflexivity|]. unfold accumulated. cbn [objs heap].
  split; [by apply prefix_app_r|]. split.
  - intros t o Ht Ho. rewrite list_lookup_insert_ne by done.
    by apply lookup_app_l_Some.
  - eexists (length (objs st) + 3), _. split; [|split; [|split; [|split]]].
    + apply list_lookup_insert_eq. rewrite length_app. lia.
    + rewrite list_lookup_insert_ne by lia. lookup_obj.
    + reflexivity.
    + reflexivity.
    + intros idx Hi. cbn [recorded Variable___init__ _tensor].
      apply (read_contiguous _ _ _
               (fun idx => operators.add (rd idx) (rv idx))); [|done].
      by apply list_lookup_middle.
Qed.

Lemma accumulate_run st x v ox ov (rd rv : list nat -> float) :
  objs st !! x = Some ox ->
  tf ox = TensorFunctions ->
  objs st !! v = Some ov ->
  _shape (_tensor ov) = _shape (_tensor ox) ->
  (forall idx, valid_index idx (_shape (_tensor ox)) = true ->
     read (heap st) (_tensor ov) idx = Some (rv idx)) ->
  match derivative ox with
  | None => forall idx, rd idx = 0%float
  | Some d =>
      exists od, objs st !! d = Some od /\ tf od = TensorFunctions /\
        _shape (_tensor od) = _shape (_tensor ox) /\
        forall idx, valid_index idx (_shape (_tensor ox)) = true ->
          read (heap st) (_tensor od) idx = Some (rd idx)
  end ->
  exists st',
    Variable_accumulate_derivative other x v st = (Ok tt, st') /\
    accumulated st st' x ox (_shape (_tensor ox))
      (fun idx => operators.add (rd idx) (rv idx)).
Proof.
  intros Hx Htf Hv Hshape Hrv Hd. unfold Variable_accumulate_derivative.
  rewrite (bind_run _ _ _ _ _ (deref_run _ _ _ Hx)).
  destruct (derivative ox) as [d|].
  - destruct Hd as (od & Hod & Htfd & Hsd & Hrd). rewrite ret_bind.
    rewrite <- Hsd. eapply accumulate_tail; try done.
    + congruence.
    + by rewrite Hsd.
    + by rewrite Hsd.
  - rewrite (bind_run _ _ _ _ _ (Tensor_zeros_none_run _ _ _ Hx)).
    set (st1 := mkStore _ _).
    destruct (accumulate_tail st1 x (length (objs st)) v ox
                (fresh (mkTensorData (length (heap st)) (_shape (_tensor ox))
                          (strides_from_shape (_shape (_tensor ox))))
                   (tf ox)) ov rd rv)
      as (st' & Hrun & Hp & Hframe & Hnew); try done.
    + by apply lookup_app_l_Some.
    + subst st1. lookup_obj.
    + by apply lookup_app_l_Some.
    + intros idx Hi. cbn [fresh _tensor _shape] in Hi. rewrite Hd.
      cbn [fresh _tensor]. apply (read_contiguous _ _ _ (fun _ => 0%float));
        [|done].
      rewrite fmap_const_indices. by apply list_lookup_middle.
    + intros idx Hi. eapply read_prefix; [|by apply Hrv].
      by apply prefix_app_r.
    + exists st'. split; [done|]. split; [|split].
      * etrans; [|done]. by apply prefix_app_r.
      * intros t o Ht Ho. apply Hframe; [done|].
        by apply lookup_app_l_Some.
      * done.
Qed.

(** ** The backward pass *)

Lemma visit_none v (pending : gmap nat nat) st :
  pending !! v = None -> visit other v pending st = (Ok pending, st).
Proof. intros H. unfold visit. by rewrite H. Qed.

Lemma backpropagate_unfold v (pending : gmap nat nat) st :
  backpropagate other v pending st =
    (pending <- visit other v pending ;;
     match v with
     | 0 => ret tt
     | S v' => backpropagate other v' pending
     end) st.
Proof. by destruct v. Qed.

Lemma backpropagate_skip_all v (pending : gmap nat nat) st :
  (forall k, k <= v -> pending !! k = None) ->
  backpropagate other v pending st = (Ok tt, st).
Proof.
  induction v as [|v IH]; intros H; rewrite backpropagate_unfold;
    rewrite (bind_run _ _ _ _ _ (visit_none _ _ _ (H _ (le_n _)))); [done|].
  apply IH. intros k Hk. apply H. lia.
Qed.

Lemma backpropagate_skip_to y v (pending : gmap nat nat) st :
  y <= v ->
  (forall k, y < k <= v -> pending !! k = None) ->
  backpropagate other v pending st = backpropagate other y pending st.
Proof.
  induction v as [|v IH]; intros Hle H.
  - by replace y with 0 by lia.
  - destruct (decide (y = S v)) as [->|Hne]; [done|].
    rewrite backpropagate_unfold.
    rewrite (bind_run _ _ _ _ _ (visit_none _ _ _ (H (S v) ltac:(lia)))).
    apply IH; [lia|]. intros k Hk. apply H. lia.
Qed.

(** Visit a node, then skip down to the next node that has a gradient. *)
Lemma backpropagate_step y v (pending pending' : gmap nat nat) st st' :
  y < v ->
  visit other v pending st = (Ok pending', st') ->
  (forall k, y < k < v -> pending' !! k = None) ->
  backpropagate other v pending st = backpropagate other y pending' st'.
Proof.
  intros Hlt Hvisit H. rewrite backpropagate_unfold.
  rewrite (bind_run _ _ _ _ _ Hvisit).
  destruct v as [|v]; [lia|].
  apply backpropagate_skip_to; [lia|]. intros k Hk. apply H. lia.
Qed.

Lemma backpropagate_last v (pending pending' : gmap nat nat) st st' :
  visit other v pending st = (Ok pending', st') ->
  (forall k, k < v -> pending' !! k = None) ->
  backpropagate other v pending st = (Ok tt, st').
Proof.
  intros Hvisit H. rewrite backpropagate_unfold.
  rewrite (bind_run _ _ _ _ _ Hvisit).
  destruct v as [|v]; [done|].
  apply backpropagate_skip_all. intros k Hk. apply H. lia.
Qed.

Lemma expand_same st self v oself ov :
  objs st !! self = Some oself ->
  objs st !! v = Some ov ->
  _shape (_tensor oself) = _shape (_tensor ov) ->
  Tensor_expand other self v st = (Ok v, st).
Proof.
  intros Hs Hv E. unfold Tensor_expand.
  rewrite (bind_run _ _ _ _ _ (Tensor_shape_run _ _ _ Hs)).
  rewrite (bind_run _ _ _ _ _ (Tensor_shape_run _ _ _ Hv)).
  by rewrite bool_decide_eq_true_2.
Qed.

(** The node of [y.sum()]: its gradient goes to [y], expanded. *)
Lemma visit_sum st s g y os c (pending : gmap nat nat) :
  pending !! s = Some g ->
  objs st !! s = Some os ->
  back os = Some (mkHistory (TensorFunctions, Sum) c [VTensor y; VNone]) ->
  visit other s pending st =
    (e <- Tensor_expand other y g ;; contribute other pending (y, e)) st.
Proof.
  intros Hp Hs Hb. unfold visit. rewrite Hp.
  rewrite (bind_run _ _ _ _ _ (deref_run _ _ _ Hs)). rewrite Hb.
  unfold FunctionBase_chain_rule. cbn [last_fn ctx inputs fst snd].
  cbn [backward]. unfold Sum_backward. mnorm.
  cbn [zip_with omap list_omap fst snd list_comp]. mnorm.
  apply bind_ext. intros e st'. mnorm. cbn [TensorOps.fold_each].
  apply bind_ret_r.
Qed.

(** The node of [x + x]: its gradient goes to [x] once per use. *)
Lemma visit_add st y g x oy c (pending : gmap nat nat) :
  pending !! y = Some g ->
  objs st !! y = Some oy ->
  back oy = Some (mkHistory (TensorFunctions, Add) c [VTensor x; VTensor x]) ->
  visit other y pending st =
    (e1 <- Tensor_expand other x g ;;
     e2 <- Tensor_expand other x g ;;
     pending <- contribute other pending (x, e1) ;;
     contribute other pending (x, e2)) st.
Proof.
  intros Hp Hy Hb. unfold visit. rewrite Hp.
  rewrite (bind_run _ _ _ _ _ (deref_run _ _ _ Hy)). rewrite Hb.
  unfold FunctionBase_chain_rule. cbn [last_fn ctx inputs fst snd].
  cbn [backward]. unfold Add_backward. mnorm.
  cbn [zip_with omap list_omap fst snd list_comp]. mnorm.
  apply bind_ext. intros e1 st1. mnorm.
  apply bind_ext. intros e2 st2. mnorm. cbn [TensorOps.fold_each].
  apply bind_ext. intros p st3. apply bind_ret_r.
Qed.

Lemma contribute_leaf st x e ox (pending : gmap nat nat) :
  objs st !! x = Some ox ->
  back ox = None ->
  requires_grad ox = true ->
  contribute other pending (x, e) st =
    (Variable_accumulate_derivative other x e ;; ret pending) st.
Proof.
  intros Hx Hb Hr. unfold contribute. cbn [fst snd].
  rewrite (bind_run _ _ _ _ _ (deref_run _ _ _ Hx)). by rewrite Hb, Hr.
Qed.

Lemma contribute_node st y e oy h (pending : gmap nat nat) :
  objs st !! y = Some oy ->
  back oy = Some h ->
  pending !! y = None ->
  contribute other pending (y, e) st = (Ok (<[y := e]> pending), st).
Proof.
  intros Hy Hb Hp. unfold contribute. cbn [fst snd].
  rewrite (bind_run _ _ _ _ _ (deref_run _ _ _ Hy)). by rewrite Hb, Hp.
Qed.

(** [s.backward()] for [s = y.sum()]: the seed [tensor([1.0])] is expanded
    to a tensor [e] of ones of the shape of [y], which is contributed to
    [y]; the pass then goes on below [s]. *)
Lemma backward_sum st s y os oy c :
  objs st !! s = Some os ->
  back os = Some (mkHistory (TensorFunctions, Sum) c [VTensor y; VNone]) ->
  _shape (_tensor os) = [1] ->
  tf os = TensorFunctions ->
  objs st !! y = Some oy ->
  tf oy = TensorFunctions ->
  y < s ->
  exists g e st' loc',
    heap st `prefix_of` heap st' /\
    objs st `prefix_of` objs st' /\
    objs st' !! e =
      Some (fresh (mkTensorData loc' (_shape (_tensor oy))
                     (strides_from_shape (_shape (_tensor oy))))
              TensorFunctions) /\
    heap st' !! loc' = Some ((fun _ => 1%float) <$> indices (_shape (_tensor oy))) /\
    forall p' st'',
      contribute other {[s := g]} (y, e) st' = (Ok p', st'') ->
      Tensor_backward other s None st =
        backpropagate other (s - 1) p' st''.
Proof.
  intros Hs Hb Hshape Htf Hy Htfy Hlt.
  set (g := length (objs st)).
  set (og := fresh (mkTensorData (length (heap st)) [1] [1]) TensorFunctions).
  set (st1 := mkStore (heap st ++ [[1%float]]) (objs st ++ [og])).
  destruct (expand_ones st1 y g oy (length (heap st)))
    as (e & st' & loc' & Hrun & Hp1 & Hp2 & He & Hloc'); try done.
  { by apply lookup_app_l_Some. }
  { subst st1 g. lookup_obj. }
  { by apply list_lookup_middle. }
  exists g, e, st', loc'. split; [|split; [|split; [|split]]]; try done.
  - etrans; [|done]. by apply prefix_app_r.
  - etrans; [|done]. by apply prefix_app_r.
  - intros p' st'' Hc. unfold Tensor_backward. mnorm.
    rewrite (bind_run _ _ _ _ _ (Tensor_shape_run _ _ _ Hs)). rewrite Hshape.
    rewrite bool_decide_eq_true_2 by done. unfold assert. mnorm.
    rewrite (bind_run _ _ _ _ _ (tensor_run _ _)). mnorm.
    erewrite (bind_run (deref _)); [|apply deref_run; lookup_obj]. mnorm.
    unfold update_object at 1. unfold bind at 1. cbn [objs heap].
    rewrite list_lookup_middle by done. rewrite snoc_insert. rewrite Htf.
    change (set_tf TensorFunctions _) with og. fold st1. mnorm.
    unfold Variable_backward.
    erewrite (bind_run (Tensor_shape _));
      [|apply Tensor_shape_run; subst st1; lookup_obj].
    erewrite (bind_run (Tensor_shape _));
      [|apply Tensor_shape_run; subst st1 g; lookup_obj].
    rewrite Hshape. cbn [og fresh _tensor _shape length].
    rewrite bool_decide_eq_true_2 by done. mnorm.
    erewrite (bind_run (deref _)); [|apply deref_run; subst st1; lookup_obj].
    rewrite Hb. rewrite backpropagate_unfold.
    erewrite (bind_run (visit _ _ _)); cycle 1.
    { erewrite visit_sum; cycle 1.
      - apply lookup_singleton_eq.
      - subst st1. lookup_obj.
      - done.
      - rewrite (bind_run _ _ _ _ _ Hrun). done. }
    destruct s as [|s']; [lia|]. by rewrite Nat.sub_1_r.
Qed.

(** One node of the backward pass, for an operation of the sequential
    backend with one tensor input [x]: the gradient that [backward]
    returns is put through [x.expand]. *)
Lemma chain_rule_unary st st1 st2 g d e x op c consts :
  backward TensorOps.backend op c g st = (Ok [d], st1) ->
  Tensor_expand other x d st1 = (Ok e, st2) ->
  FunctionBase_chain_rule other
    (mkHistory (TensorFunctions, op) c (VTensor x :: consts)) g st
    = (Ok [(x, e)], st2).
Proof.
  intros Hbwd Hexp. unfold FunctionBase_chain_rule.
  cbn [last_fn ctx inputs fst snd].
  change (backend_of other TensorFunctions) with TensorOps.backend.
  rewrite (bind_run _ _ _ _ _ Hbwd).
  replace (zip_with pair (VTensor x :: consts) [d]) with [(VTensor x, d)]
    by (by destruct consts).
  cbn [omap list_omap fst snd list_comp]. mnorm.
  rewrite (bind_run _ _ _ _ _ Hexp). done.
Qed.

(** [s.backward()] for [s = y.sum()], step by step: the seed
    [tensor([1.0])] is created, [y.expand] is applied to it, and the
    result is contributed to [y]; the pass then goes on below [s]. *)
Lemma backward_sum_run st s y os c g st_g e st_e p' st'' :
  objs st !! s = Some os ->
  back os = Some (mkHistory (TensorFunctions, Sum) c [VTensor y; VNone]) ->
  _shape (_tensor os) = [1] ->
  tf os = TensorFunctions ->
  y < s ->
  tensor [1%float] None st = (Ok g, st_g) ->
  Tensor_expand other y g st_g = (Ok e, st_e) ->
  contribute other {[s := g]} (y, e) st_e = (Ok p', st'') ->
  Tensor_backward other s None st = backpropagate other (s - 1) p' st''.
Proof.
  intros Hs Hb Hshape Htf Hlt Hseed Hrun Hc.
  rewrite tensor_run in Hseed. injection Hseed as <- <-.
  set (g := length (objs st)) in *.
  set (og := fresh (mkTensorData (length (heap st)) [1] [1]) TensorFunctions)
    in *.
  set (st1 := mkStore (heap st ++ [[1%float]]) (objs st ++ [og])) in *.
  unfold Tensor_backward. mnorm.
  rewrite (bind_run _ _ _ _ _ (Tensor_shape_run _ _ _ Hs)). rewrite Hshape.
  rewrite bool_decide_eq_true_2 by done. unfold assert. mnorm.
  rewrite (bind_run _ _ _ _ _ (tensor_run _ _)). mnorm.
  erewrite (bind_run (deref _)); [|apply deref_run; lookup_obj]. mnorm.
  unfold update_object at 1. unfold bind at 1. cbn [objs heap].
  rewrite list_lookup_middle by done. rewrite snoc_insert. rewrite Htf.
  change (set_tf TensorFunctions _) with og. fold st1. mnorm.
  unfold Variable_backward.
  erewrite (bind_run (Tensor_shape _));
    [|apply Tensor_shape_run; subst st1; lookup_obj].
  erewrite (bind_run (Tensor_shape _));
    [|apply Tensor_shape_run; subst st1 g; lookup_obj].
  rewrite Hshape. cbn [og fresh _tensor _shape length].
  rewrite bool_decide_eq_true_2 by done. mnorm.
  erewrite (bind_run (deref _)); [|apply deref_run; subst st1; lookup_obj].
  rewrite Hb. rewrite backpropagate_unfold.
  erewrite (bind_run (visit _ _ _)); cycle 1.
  { erewrite visit_sum; cycle 1.
    - apply lookup_singleton_eq.
    - subst st1. lookup_obj.
    - done.
    - rewrite (bind_run _ _ _ _ _ Hrun). done. }
  destruct s as [|s']; [lia|]. by rewrite Nat.sub_1_r.
Qed.

Lemma grad_getitem_run st st0 x ox S r idx :
  accumulated st0 st x ox S r ->
  valid_index idx S = true ->
  Tensor_grad_getitem x idx st = (Ok (r idx), st).
Proof.
  intros (_ & _ & d & od & Hx & Hd & _ & _ & Hr) Hv.
  unfold Tensor_grad_getitem, Tensor_grad. mnorm.
  rewrite (bind_run _ _ _ _ _ (deref_run _ _ _ Hx)). mnorm.
  cbn [set_derivative derivative]. eapply getitem_run; [done|]. by apply Hr.
Qed.

(** The backward pass of [x.sum()] for a leaf [x]: one accumulation of a
    tensor of ones into the empty slot of [x]. *)
Lemma sum_backward_leaf st x ox (ra : list nat -> float) :
  objs st !! x = Some ox ->
  back ox = None ->
  requires_grad ox = true ->
  derivative ox = None ->
  tf ox = TensorFunctions ->
  (forall idx, valid_index idx (_shape (_tensor ox)) = true ->
     read (heap st) (_tensor ox) idx = Some (ra idx)) ->
  exists s st1 st2 st',
    Tensor_sum other x None st = (Ok s, st1) /\
    Tensor_backward other s None st1 = (Ok tt, st2) /\
    accumulated st' st2 x ox (_shape (_tensor ox))
      (fun _ => operators.add 0 1).
Proof.
  intros Hx Hb Hrg Hd Htf Hra.
  pose proof (lookup_lt_Some _ _ _ Hx) as Hxlt.
  pose proof (sum_run st x ox ra Hx Htf Hra) as Hsum. simpl in Hsum.
  rewrite Hrg in Hsum.
  set (st1 := mkStore _ _) in Hsum.
  destruct (backward_sum st1 (length (objs st) + 5) x
              (recorded true (TensorFunctions, Sum)
                 (mkContext (VTuple (_shape (_tensor ox))))
                 [VTensor x; VNone]
                 (mkTensorData (length (heap st)) [1] [1]) TensorFunctions)
              ox (mkContext (VTuple (_shape (_tensor ox)))))
    as (g & e & st' & loc' & Hp1 & Hp2 & He & Hloc' & Hback); try done.
  { subst st1. lookup_obj. }
  { subst st1. by apply lookup_app_l_Some. }
  { lia. }
  assert (objs st' !! x = Some ox) as Hx'.
  { eapply prefix_lookup_Some; [|done]. subst st1. by apply lookup_app_l_Some. }
  destruct (accumulate_run st' x e ox _ (fun _ => 0%float) (fun _ => 1%float)
              Hx' Htf He) as (st2 & Hacc & Hpost).
  { done. }
  { intros idx Hv. cbn [fresh _tensor].
    by apply (read_contiguous _ _ _ (fun _ => 1%float)). }
  { by rewrite Hd. }
  exists (length (objs st) + 5), st1, st2, st'. split; [done|]. split; [|done].
  erewrite Hback; cycle 1.
  { rewrite (contribute_leaf _ _ _ _ _ Hx' Hb Hrg).
    rewrite (bind_run _ _ _ _ _ Hacc). reflexivity. }
  apply backpropagate_skip_all. intros k Hk.
  apply lookup_singleton_ne. lia.
Qed.

(** The same pass, step by step: the seed [g], the tensor [e] that
    [x.expand(g)] makes of it, and the accumulation of [e] into the slot
    of [x]. *)
Lemma sum_backward_leaf_steps st x ox (ra : list nat -> float) :
  objs st !! x = Some ox ->
  back ox = None ->
  requires_grad ox = true ->
  derivative ox = None ->
  tf ox = TensorFunctions ->
  (forall idx, valid_index idx (_shape (_tensor ox)) = true ->
     read (heap st) (_tensor ox) idx = Some (ra idx)) ->
  exists s st1 g st_g e st_e oe st2,
    Tensor_sum other x None st = (Ok s, st1) /\
    tensor [1%float] None st1 = (Ok g, st_g) /\
    objs st_g !! s =
      Some (recorded true (TensorFunctions, Sum)
              (mkContext (VTuple (_shape (_tensor ox)))) [VTensor x; VNone]
              (mkTensorData (length (heap st)) [1] [1]) TensorFunctions) /\
    Tensor_expand other x g st_g = (Ok e, st_e) /\
    objs st_e !! e = Some oe /\
    _shape (_tensor oe) = _shape (_tensor ox) /\
    (forall idx, valid_index idx (_shape (_tensor ox)) = true ->
       read (heap st_e) (_tensor oe) idx = Some 1%float) /\
    Variable_accumulate_derivative other x e st_e = (Ok tt, st2) /\
    Tensor_backward other s None st1 = (Ok tt, st2) /\
    accumulated st_e st2 x ox (_shape (_tensor ox))
      (fun _ => operators.add 0 1).
Proof.
  intros Hx Hb Hrg Hd Htf Hra.
  pose proof (lookup_lt_Some _ _ _ Hx) as Hxlt.
  pose proof (sum_run st x ox ra Hx Htf Hra) as Hsum. simpl in Hsum.
  rewrite Hrg in Hsum.
  set (os := recorded true _ _ _ _ _) in Hsum.
  set (st1 := mkStore _ _) in Hsum.
  set (s := length (objs st) + 5) in *.
  assert (objs st1 !! s = Some os) as Hs by (subst st1 s; lookup_obj).
  pose proof (tensor_run st1 [1%float]) as Hseed.
  set (g := length (objs st1)) in Hseed.
  set (st_g := mkStore _ _) in Hseed.
  destruct (expand_ones st_g x g ox (length (heap st1)))
    as (e & st_e & loc' & Hrun & Hp1 & Hp2 & He & Hloc'); try done.
  { subst st_g st1. cbn [objs]. rewrite <- app_assoc.
    by apply lookup_app_l_Some. }
  { subst st_g g. cbn [objs]. by apply list_lookup_middle. }
  { subst st_g. by apply list_lookup_middle. }
  set (oe := fresh _ _) in He.
  assert (objs st_e !! x = Some ox) as Hx'.
  { eapply prefix_lookup_Some; [|done]. subst st_g st1. cbn [objs].
    rewrite <- app_assoc. by apply lookup_app_l_Some. }
  assert (forall idx, valid_index idx (_shape (_tensor ox)) = true ->
            read (heap st_e) (_tensor oe) idx = Some 1%float) as Hre.
  { intros idx Hv. by apply (read_contiguous _ _ _ (fun _ => 1%float)). }
  destruct (accumulate_run st_e x e ox oe (fun _ => 0%float)
              (fun _ => 1%float) Hx' Htf He) as (st2 & Hacc & Hpost);
    try done.
  { by rewrite Hd. }
  exists s, st1, g, st_g, e, st_e, oe, st2.
  split; [done|]. split; [done|]. split.
  { subst st_g. by apply lookup_app_l_Some. }
  split; [done|]. split; [done|]. split; [done|]. split; [done|].
  split; [done|]. split; [|done].
  erewrite (backward_sum_run st1 s x os); try done; cycle 1.
  { subst s. lia. }
  { rewrite (contribute_leaf _ _ _ _ _ Hx' Hb Hrg).
    rewrite (bind_run _ _ _ _ _ Hacc). reflexivity. }
  apply backpropagate_skip_all. intros k Hk.
  apply lookup_singleton_ne. lia.
Qed.

Lemma well_formed_read hp v idx :
  well_formed hp v = true ->
  valid_index idx (_shape v) = true ->
  read hp v idx = Some (entry hp v idx).
Proof.
  intros Hwf Hv%valid_index_indices%list_elem_of_In. unfold well_formed in Hwf.
  rewrite forallb_forall in Hwf. apply Hwf, bool_decide_eq_true in Hv.
  unfold entry. by destruct Hv as [? ->].
Qed.

(** The backward pass of [(x + x).sum()] for a leaf [x]: the node of the
    sum hands a tensor of ones to the node of the addition, which
    accumulates it into the slot of [x] once per use of [x]. *)
Lemma add_sum_backward_leaf st x ox (ra : list nat -> float) :
  objs st !! x = Some ox ->
  back ox = None ->
  requires_grad ox = true ->
  derivative ox = None ->
  tf ox = TensorFunctions ->
  (forall idx, valid_index idx (_shape (_tensor ox)) = true ->
     read (heap st) (_tensor ox) idx = Some (ra idx)) ->
  exists y st1 s st2 st3 st' ox',
    Tensor___add__ other x (OTensor x) st = (Ok y, st1) /\
    Tensor_sum other y None st1 = (Ok s, st2) /\
    Tensor_backward other s None st2 = (Ok tt, st3) /\
    accumulated st' st3 x ox' (_shape (_tensor ox))
      (fun _ => operators.add (operators.add 0 1) 1).
Proof.
  intros Hx Hb Hrg Hd Htf Hra.
  pose proof (lookup_lt_Some _ _ _ Hx) as Hxlt.
  (* y = x + x *)
  pose proof (add_run st x x ox ox (_shape (_tensor ox)) ra ra Hx Hx Htf)
    as Hadd.
  simpl in Hadd. rewrite Hrg in Hadd. simpl in Hadd.
  set (vy := mkTensorData (length (heap st)) (_shape (_tensor ox))
               (strides_from_shape (_shape (_tensor ox)))) in *.
  set (oy := recorded true (TensorFunctions, Add) (mkContext VNone)
               [VTensor x; VTensor x] vy TensorFunctions) in *.
  set (st1 := mkStore _ _) in Hadd.
  specialize (Hadd (shape_broadcast_fits_l _ _ (fits_refl _))).
  assert (forall idx, valid_index idx (_shape (_tensor ox)) = true ->
            read (heap st) (_tensor ox)
              (broadcast_index idx (_shape (_tensor ox))) = Some (ra idx))
    as Hra'.
  { intros idx Hv. rewrite (broadcast_index_same _ _ Hv). by apply Hra. }
  specialize (Hadd Hra' Hra').
  set (y := length (objs st) + 3) in *.
  assert (objs st1 !! y = Some oy) as Hy by (subst st1 y; lookup_obj).
  (* s = y.sum() *)
  pose proof (sum_run st1 y oy
                (fun idx => operators.add (ra idx) (ra idx)) Hy eq_refl)
    as Hsum.
  cbv zeta in Hsum.
  change (requires_grad oy) with true in Hsum.
  change (_shape (_tensor oy)) with (_shape (_tensor ox)) in Hsum.
  change (_tensor oy) with vy in Hsum.
  set (os := recorded true (TensorFunctions, Sum)
               (mkContext (VTuple (_shape (_tensor ox))))
               [VTensor y; VNone]
               (mkTensorData (length (heap st1)) [1] [1]) TensorFunctions).
  set (st2 := mkStore _ _) in Hsum.
  set (s := length (objs st1) + 5) in *.
  assert (forall idx, valid_index idx (_shape (_tensor ox)) = true ->
            read (heap st1) vy idx
              = Some (operators.add (ra idx) (ra idx))) as Hry.
  { intros idx Hv.
    apply (read_contiguous _ _ _
             (fun idx => operators.add (ra idx) (ra idx))); [|done].
    subst st1. by apply list_lookup_middle. }
  specialize (Hsum Hry).
  assert (objs st2 !! s = Some os) as Hs.
  { subst st2 s os. cbn [objs].
    lookup_obj. }
  assert (objs st2 !! y = Some oy) as Hy2.
  { subst st2. by apply lookup_app_l_Some. }
  assert (y < s) as Hys.
  { subst s. apply lookup_lt_Some in Hy. lia. }
  (* s.backward() *)
  destruct (backward_sum st2 s y os oy
              (mkContext (VTuple (_shape (_tensor ox)))) Hs)
    as (g & e & st' & loc' & Hp1 & Hp2 & He & Hloc' & Hback); try done.
  assert (objs st' !! y = Some oy) as Hy'.
  { by eapply prefix_lookup_Some. }
  assert (objs st' !! x = Some ox) as Hx'.
  { eapply prefix_lookup_Some; [|done]. subst st2.
    apply lookup_app_l_Some. subst st1. by apply lookup_app_l_Some. }
  set (oe := fresh _ _) in He.
  assert (forall idx, valid_index idx (_shape (_tensor ox)) = true ->
            read (heap st') (_tensor oe) idx = Some 1%float) as Hre.
  { intros idx Hv. by apply (read_contiguous _ _ _ (fun _ => 1%float)). }
  (* the two contributions to x *)
  destruct (accumulate_run st' x e ox oe (fun _ => 0%float)
              (fun _ => 1%float) Hx' Htf He) as (st3 & Hacc1 & Hpost1);
    try done.
  { by rewrite Hd. }
  destruct Hpost1 as (Hp3 & Hframe & d1 & od1 & Hx3 & Hd1 & Htf1 & Hs1 & Hr1).
  assert (e <> x) as Hex.
  { intros E. rewrite E, Hx' in He. injection He as He.
    rewrite He in Hrg. done. }
  destruct (accumulate_run st3 x e (set_derivative (Some d1) ox) oe
              (fun _ => operators.add 0 1) (fun _ => 1%float)
              Hx3 Htf (Hframe _ _ Hex He))
    as (st4 & Hacc2 & Hpost2).
  { done. }
  { intros idx Hv. eapply read_prefix; [done|]. by apply Hre. }
  { cbn [set_derivative derivative _tensor]. by exists od1. }
  exists y, st1, s, st2, st4, st3, (set_derivative (Some d1) ox).
  split; [done|]. split; [done|]. split; [|done].
  erewrite Hback; cycle 1.
  { eapply contribute_node; [done|done|].
    apply lookup_singleton_ne. lia. }
  rewrite (backpropagate_skip_to y); cycle 1.
  { lia. }
  { intros k Hk. rewrite lookup_insert_ne by lia.
    apply lookup_singleton_ne. lia. }
  eapply backpropagate_last.
  - erewrite visit_add; [|apply lookup_insert_eq|done|done].
    rewrite (bind_run _ _ _ _ _ (expand_same _ _ _ _ _ Hx' He eq_refl)).
    rewrite (bind_run _ _ _ _ _ (expand_same _ _ _ _ _ Hx' He eq_refl)).
    rewrite (bind_run (contribute _ _ _)
               _ _ (<[y := e]> {[s := g]}) st3).
    + rewrite (contribute_leaf _ _ _ _ _ Hx3 Hb Hrg).
      rewrite (bind_run _ _ _ _ _ Hacc2). reflexivity.
    + rewrite (contribute_leaf _ _ _ _ _ Hx' Hb Hrg).
      rewrite (bind_run _ _ _ _ _ Hacc1). reflexivity.
  - intros k Hk. rewrite lookup_insert_ne by lia.
    apply lookup_singleton_ne. lia.
Qed.

End Runs.

(** ** sum over one dimension *)

Section Sum_dim.

Import TensorData.

Variable other : Backend.

Lemma reduce_shape_same s : reduce_shape s s = replicate (length s) 1.
Proof.
  unfold reduce_shape. induction s as [|n s IH]; [done|]. simpl.
  rewrite IH. f_equal. destruct (n =? 1) eqn:E; [|done].
  by apply Nat.eqb_eq in E.
Qed.

Lemma reduce_shape_cons n m s s' :
  reduce_shape (n :: s) (m :: s')
    = (if m =? 1 then n else 1) :: reduce_shape s s'.
Proof. done. Qed.

Lemma flat_map_singleton {A B} (f : A -> B) (l : list A) :
  flat_map (fun x => [f x]) l = f <$> l.
Proof. induction l as [|x l IH]; [done|]. simpl. by rewrite IH. Qed.

Lemma indices_cons_one s : indices (1 :: s) = cons 0 <$> indices s.
Proof. simpl. by rewrite app_nil_r. Qed.

(** The indices folded for one output cell of a reduction over [d]. *)
Lemma indices_reduce_shape s d n :
  s !! d = Some n ->
  indices (reduce_shape s (<[d := 1]> s))
    = (fun k => <[d := k]> (replicate (length s) 0)) <$> seq 0 n.
Proof.
  revert d. induction s as [|m s IH]; intros [|d] Hd; try done.
  - injection Hd as ->. change (<[0 := 1]> (n :: s)) with (1 :: s).
    rewrite reduce_shape_cons, reduce_shape_same. simpl.
    rewrite indices_ones.
    apply (flat_map_singleton (fun k => k :: replicate (length s) 0)).
  - change (<[S d := 1]> (m :: s)) with (m :: <[d := 1]> s).
    change ((m :: s) !! S d) with (s !! d) in Hd.
    rewrite reduce_shape_cons.
    assert ((if m =? 1 then m else 1) = 1) as ->.
    { destruct (m =? 1) eqn:E; [|done]. by apply Nat.eqb_eq in E. }
    rewrite indices_cons_one, (IH _ Hd).
    rewrite <- list_fmap_compose. by apply list_fmap_ext.
Qed.

Lemma zip_add_zeros_r r s :
  valid_index r s = true -> zip_with Nat.add r (replicate (length s) 0) = r.
Proof.
  revert r. induction s as [|n s IH]; intros [|k r]; simpl; try done.
  intros [_ H]%andb_true_iff. rewrite IH by done. f_equal. lia.
Qed.

Lemma zip_add_insert oi s d k :
  valid_index oi (<[d := 1]> s) = true ->
  d < length s ->
  zip_with Nat.add oi (<[d := k]> (replicate (length s) 0)) = <[d := k]> oi.
Proof.
  revert oi d. induction s as [|m s IH]; intros oi d Hv Hd; simpl in Hd;
    [lia|].
  destruct d as [|d].
  - change (<[0 := 1]> (m :: s)) with (1 :: s) in Hv.
    destruct oi as [|i oi]; [done|]. simpl in Hv.
    apply andb_true_iff in Hv as [Hi Hv]. apply Nat.ltb_lt in Hi.
    simpl. rewrite zip_add_zeros_r by done. f_equal. lia.
  - change (<[S d := 1]> (m :: s)) with (m :: <[d := 1]> s) in Hv.
    destruct oi as [|i oi]; [done|]. simpl in Hv.
    apply andb_true_iff in Hv as [Hi Hv].
    simpl. rewrite IH by (done || lia). f_equal. lia.
Qed.

Lemma sum_dim_run st a oa d n (ra : list nat -> float) :
  objs st !! a = Some oa ->
  tf oa = TensorFunctions ->
  _shape (_tensor oa) !! d = Some n ->
  (forall idx, valid_index idx (_shape (_tensor oa)) = true ->
     read (heap st) (_tensor oa) idx = Some (ra idx)) ->
  let out_shape := <[d := 1]> (_shape (_tensor oa)) in
  let v := mkTensorData (length (heap st)) out_shape
             (strides_from_shape out_shape) in
  Tensor_sum other a (Some d) st =
    (Ok (length (objs st) + 2),
     mkStore
       (heap st ++
          [(fun oi => foldl (fun acc k => operators.add acc (ra (<[d := k]> oi)))
                        0%float (seq 0 n))
             <$> indices out_shape])
       (objs st ++
          [fresh (_tensor oa) TensorFunctions;
           fresh v TensorFunctions;
           recorded (requires_grad oa) (TensorFunctions, Sum)
             (mkContext (VTuple (_shape (_tensor oa))))
             [VTensor a; VInt d] v TensorFunctions])).
Proof.
  intros Ha Htf Hd Hra out_shape v. unfold Tensor_sum, apply.
  rewrite (bind_run _ _ _ _ _ (deref_run _ _ _ Ha)). rewrite Htf.
  cbn [dim_value].
  pose proof (lookup_lt_Some _ _ _ Hd) as Hdlt.
  erewrite apply1c_run; [|done|done| |]; cycle 1.
  - cbn [forward]. unfold Sum_forward, add_reduce.
    change (backend_of other TensorFunctions) with TensorOps.backend.
    cbn [reduce TensorOps.backend].
    erewrite (bind_run (deref _)); [|apply deref_run; lookup_obj].
    cbn [save_for_backward fresh _tensor].
    erewrite (bind_run (TensorOps.reduce _ _ _ _ _)); cycle 1.
    { eapply (reduce_run _ _ _ _ _ _ ra).
      - lookup_obj.
      - by repeat constructor.
      - done. }
    reflexivity.
  - lookup_obj.
  - cbn [objs heap fresh _tensor tf collapse foldl]. fold out_shape. f_equal.
    + f_equal. rewrite !length_app. simpl. lia.
    + f_equal.
      * do 2 f_equal. apply list_fmap_ext. intros i oi Hoi.
        assert (valid_index oi out_shape = true) as Hv.
        { apply valid_index_indices. by eapply list_elem_of_lookup_2. }
        unfold out_shape at 1.
        rewrite (indices_reduce_shape _ _ _ Hd), foldl_fmap.
        apply foldl_ext_in. intros acc k _. by rewrite zip_add_insert.
      * rewrite <- !app_assoc. reflexivity.
Qed.

End Sum_dim.

(** ** permute *)

Section Permute_facts.

Import TensorData.

Lemma insert_by_perm {A} (key : A -> nat) x (l : list A) :
  insert_by key x l ≡ₚ x :: l.
Proof.
  induction l as [|y l IH]; simpl; [done|].
  destruct (key y <? key x); [|done].
  rewrite IH. apply Permutation_swap.
Qed.

Lemma sorted_perm {A} (key : A -> nat) (l : list A) : sorted key l ≡ₚ l.
Proof.
  induction l as [|x l IH]; simpl; [done|].
  fold (sorted key l). by rewrite insert_by_perm, IH.
Qed.

Lemma insert_by_Sorted {A} (key : A -> nat) x (l : list A) :
  Sorted (fun a b => key a <= key b) l ->
  Sorted (fun a b => key a <= key b) (insert_by key x l).
Proof.
  induction 1 as [|y l Hl IH Hhd]; simpl.
  - by repeat constructor.
  - destruct (key y <? key x) eqn:E.
    + apply Nat.ltb_lt in E. constructor; [done|].
      destruct Hhd as [|z l Hz]; simpl.
      * constructor. lia.
      * destruct (key z <? key x); constructor; [done|lia].
    + apply Nat.ltb_ge in E. by repeat constructor.
Qed.

Lemma sorted_Sorted {A} (key : A -> nat) (l : list A) :
  Sorted (fun a b => key a <= key b) (sorted key l).
Proof.
  induction l as [|x l IH]; simpl; [constructor|].
  by apply insert_by_Sorted.
Qed.

Lemma Sorted_le_seq a n : Sorted le (seq a n).
Proof.
  revert a. induction n as [|n IH]; intros a; simpl; [constructor|].
  constructor; [done|]. destruct n; simpl; constructor. lia.
Qed.

(** A sorted list of the numbers below [n], each once, is [range(n)]. *)
Lemma sorted_permutation_seq (l : list nat) n :
  Sorted le l -> l ≡ₚ seq 0 n -> l = seq 0 n.
Proof.
  intros Hs Hp. eapply (Sorted_unique le); [done| |done].
  apply Sorted_le_seq.
Qed.

Lemma sorted_order order n :
  order ≡ₚ seq 0 n -> sorted (fun x => x) order = seq 0 n.
Proof.
  intros Hp. apply sorted_permutation_seq.
  - apply (sorted_Sorted (fun x => x)).
  - by rewrite sorted_perm.
Qed.

Lemma fst_enumerate {A} (l : list A) :
  fst <$> imap pair l = seq 0 (length l).
Proof.
  rewrite fmap_imap. rewrite (imap_ext _ (fun j _ => j)) by done.
  rewrite (imap_seq_0 l (fun j => j)). apply list_fmap_id.
Qed.

Lemma snd_enumerate {A} (l : list A) : snd <$> imap pair l = l.
Proof.
  rewrite fmap_imap. rewrite (imap_ext _ (const (fun x => x))) by done.
  by rewrite imap_const, list_fmap_id.
Qed.

Lemma inverse_order_perm order n :
  order ≡ₚ seq 0 n -> inverse_order order ≡ₚ seq 0 n.
Proof.
  intros Hp. unfold inverse_order. rewrite sorted_perm, fst_enumerate.
  by rewrite (Permutation_length Hp), length_seq.
Qed.

(** The inverse sends the place [j] to the place of [j] in [order]. *)
Lemma inverse_order_lookup order n j :
  order ≡ₚ seq 0 n -> j < n ->
  exists i, inverse_order order !! j = Some i /\ order !! i = Some j.
Proof.
  intros Hp Hj. unfold inverse_order.
  set (pairs := sorted snd (imap pair order)).
  assert (snd <$> pairs = seq 0 n) as Hsnd.
  { apply sorted_permutation_seq.
    - apply (Sorted_fmap snd (fun a b => a.2 <= b.2) le); [done|].
      apply (sorted_Sorted snd).
    - unfold pairs. by rewrite sorted_perm, snd_enumerate. }
  assert (length pairs = n) as Hlen.
  { by rewrite <- (length_fmap snd), Hsnd, length_seq. }
  destruct (lookup_lt_is_Some_2 pairs j) as [[i j'] Hij]; [lia|].
  assert (j' = j) as ->.
  { apply (f_equal (fun l => l !! j)) in Hsnd.
    rewrite list_lookup_fmap, Hij, lookup_seq_lt in Hsnd by done.
    by injection Hsnd. }
  exists i. split; [by rewrite list_lookup_fmap, Hij|].
  assert ((i, j) ∈ imap pair order) as Hin.
  { rewrite <- (sorted_perm snd). by eapply list_elem_of_lookup_2. }
  apply elem_of_lookup_imap in Hin as (i' & y & [= -> ->] & Hy). done.
Qed.

(** Reordering by [order] and then by its inverse gives the list back. *)
Lemma reorder_inverse {A} (d : A) (l : list A) order :
  order ≡ₚ seq 0 (length l) ->
  (fun o => nth o ((fun o => nth o l d) <$> order) d)
    <$> inverse_order order = l.
Proof.
  intros Hp. apply list_eq. intros j. rewrite list_lookup_fmap.
  destruct (decide (j < length l)) as [Hj|Hj].
  - destruct (inverse_order_lookup _ _ _ Hp Hj) as (i & Hi & Hoi).
    rewrite Hi. simpl.
    rewrite (nth_lookup_Some _ _ _ (nth j l d));
      [|by rewrite list_lookup_fmap, Hoi].
    destruct (nth_lookup_or_length l j d) as [->|]; [done|lia].
  - rewrite (lookup_ge_None_2 l) by lia.
    rewrite lookup_ge_None_2; [done|].
    rewrite (Permutation_length (inverse_order_perm _ _ Hp)), length_seq. lia.
Qed.

Lemma permute_run st v order :
  order ≡ₚ seq 0 (dims v) ->
  permute v order st =
    (Ok (mkTensorData (_storage v)
           ((fun o => nth o (_shape v) 0) <$> order)
           ((fun o => nth o (_strides v) 0) <$> order)), st).
Proof.
  intros Hp. unfold permute.
  by rewrite bool_decide_eq_true_2 by (by apply sorted_order).
Qed.

(** Permuting a buffer by [order] and then by the inverse of [order]
    gives the buffer back. *)
Lemma permute_inverse_data st v order :
  length (_strides v) = length (_shape v) ->
  order ≡ₚ seq 0 (dims v) ->
  exists v1,
    permute v order st = (Ok v1, st) /\
    permute v1 (inverse_order order) st = (Ok v, st).
Proof.
  intros Hlen Hp. eexists. split; [by apply permute_run|].
  rewrite permute_run; cycle 1.
  { unfold dims. cbn [_shape]. rewrite length_fmap.
    rewrite (Permutation_length Hp), length_seq.
    by apply inverse_order_perm. }
  cbn [_storage _shape _strides].
  rewrite !reorder_inverse; [by destruct v|by rewrite Hlen|done].
Qed.

End Permute_facts.

Section Permute_runs.

Import TensorData.

Variable other : Backend.

(** The buffer [v.permute(order)]. *)
Definition permuted (v : TensorData) (order : list nat) : TensorData :=
  mkTensorData (_storage v)
    ((fun o => nth o (_shape v) 0) <$> order)
    ((fun o => nth o (_strides v) 0) <$> order).

Lemma Permute_forward_run c st a oa order :
  objs st !! a = Some oa ->
  order ≡ₚ seq 0 (dims (_tensor oa)) ->
  Permute_forward c a order st =
    (Ok (mkContext (VTuple order), length (objs st)),
     mkStore (heap st)
       (objs st ++ [fresh (permuted (_tensor oa) order) (tf oa)])).
Proof.
  intros Ha Hp. unfold Permute_forward.
  rewrite (bind_run _ _ _ _ _ (deref_run _ _ _ Ha)).
  rewrite (bind_run _ _ _ _ _ (permute_run _ _ _ Hp)).
  unfold Tensor__new. mnorm.
  by rewrite (bind_run _ _ _ _ _ (deref_run _ _ _ Ha)).
Qed.

Lemma Permute_backward_run st g og order :
  objs st !! g = Some og ->
  inverse_order order ≡ₚ seq 0 (dims (_tensor og)) ->
  Permute_backward (mkContext (VTuple order)) g st =
    (Ok [length (objs st)],
     mkStore (heap st)
       (objs st ++
          [fresh (permuted (_tensor og) (inverse_order order)) (tf og)])).
Proof.
  intros Hg Hp. unfold Permute_backward. cbn [saved_values].
  rewrite (bind_run _ _ _ _ _ (deref_run _ _ _ Hg)).
  rewrite (bind_run _ _ _ _ _ (permute_run _ _ _ Hp)).
  unfold Tensor__new. mnorm.
  by rewrite (bind_run _ _ _ _ _ (deref_run _ _ _ Hg)).
Qed.

Lemma Tensor_permute_run st t ot order :
  objs st !! t = Some ot ->
  order ≡ₚ seq 0 (dims (_tensor ot)) ->
  Tensor_permute other t order st =
    (Ok (length (objs st) + 2),
     mkStore (heap st)
       (objs st ++
          [fresh (_tensor ot) TensorFunctions;
           fresh (permuted (_tensor ot) order) TensorFunctions;
           recorded (requires_grad ot) (tf ot, Permute)
             (mkContext (VTuple order)) [VTensor t; VTuple order]
             (permuted (_tensor ot) order) TensorFunctions])).
Proof.
  intros Ht Hp. unfold Tensor_permute, apply.
  rewrite (bind_run _ _ _ _ _ (deref_run _ _ _ Ht)).
  erewrite apply1c_run; [|done|done| |]; cycle 1.
  - cbn [forward]. eapply Permute_forward_run; [lookup_obj|done].
  - lookup_obj.
  - cbn [objs heap fresh _tensor tf]. f_equal.
    + f_equal. rewrite !length_app. simpl. lia.
    + rewrite <- !app_assoc. reflexivity.
Qed.

Lemma permuted_inverse v order :
  length (_strides v) = length (_shape v) ->
  order ≡ₚ seq 0 (dims v) ->
  permuted (permuted v order) (inverse_order order) = v.
Proof.
  intros Hlen Hp. unfold permuted. cbn [_storage _shape _strides].
  rewrite !reorder_inverse; [by destruct v|by rewrite Hlen|done].
Qed.

Lemma dims_permuted v order n :
  order ≡ₚ seq 0 n -> dims (permuted v order) = n.
Proof.
  intros Hp. unfold dims, permuted. cbn [_shape].
  by rewrite length_fmap, (Permutation_length Hp), length_seq.
Qed.

End Permute_runs.

(** ** view *)

Section View_runs.

Import TensorData.

Lemma view_run st a oa shape l :
  objs st !! a = Some oa ->
  is_contiguous (_tensor oa) = true ->
  heap st !! _storage (_tensor oa) = Some l ->
  length l = operators.prod shape ->
  let v := mkTensorData (_storage (_tensor oa)) shape
             (strides_from_shape shape) in
  Tensor_view a shape st =
    (Ok (length (objs st) + 2),
     mkStore (heap st)
       (objs st ++
          [fresh (_tensor oa) TensorFunctions;
           fresh v TensorFunctions;
           recorded (requires_grad oa) (tf oa, View)
             (mkContext (VTuple (_shape (_tensor oa))))
             [VTensor a; VTuple shape] v TensorFunctions])).
Proof.
  intros Ha Hc Hl Hlen v. unfold Tensor_view.
  rewrite (bind_run _ _ _ _ _ (deref_run _ _ _ Ha)).
  erewrite apply1c_run; cycle 1.
  - done.
  - done.
  - unfold View_forward_args, View_forward.
    erewrite (bind_run (deref _)); [|apply deref_run; lookup_obj].
    cbn [fresh _tensor tf save_for_backward]. rewrite Hc.
    unfold assert. rewrite ret_bind.
    erewrite (bind_run (Tensor_make _ _ _ _)); cycle 1.
    { by eapply Tensor_make_run. }
    cbn [default].
    unfold update_object, bind, ret. cbn [heap objs].
    rewrite (lookup_new _ _ 0) by (rewrite ?length_app; simpl; lia).
    cbn [lookup list_lookup]. rewrite snoc_insert. reflexivity.
  - lookup_obj.
  - cbn [objs heap]. f_equal.
    + f_equal. rewrite !length_app. simpl. lia.
    + rewrite <- !app_assoc. reflexivity.
Qed.

Lemma view_raises st a oa shape :
  objs st !! a = Some oa ->
  is_contiguous (_tensor oa) = false ->
  Tensor_view a shape st =
    (Raise (AssertionError "Must be contiguous to view"),
     mkStore (heap st) (objs st ++ [fresh (_tensor oa) TensorFunctions])).
Proof.
  intros Ha Hc. unfold Tensor_view.
  rewrite (bind_run _ _ _ _ _ (deref_run _ _ _ Ha)).
  unfold FunctionBase_apply. cbn [list_comp]. mnorm.
  rewrite (bind_run _ _ _ _ _ (Tensor_get_data_run _ _ _ Ha)). mnorm.
  erewrite (bind_run (deref a)); [|apply deref_run; lookup_obj]. mnorm.
  erewrite bind_raise; [reflexivity|].
  unfold View_forward_args, View_forward.
  erewrite (bind_run (deref _)); [|apply deref_run; lookup_obj].
  cbn [fresh _tensor]. by rewrite Hc.
Qed.

End View_runs.

(** ** IEEE facts used by the gradient check *)

Lemma float_add_opp (x y : float) : (x + - y = x - y)%float.
Proof.
  apply Prim2SF_inj. rewrite add_spec, sub_spec, opp_spec.
  unfold SF64add, SF64sub.
  destruct (Prim2SF x) as [sx|sx| |sx mx ex],
           (Prim2SF y) as [sy|sy| |sy my ey]; simpl; try reflexivity.
  - destruct sx, sy; reflexivity.
  - destruct sx, sy; reflexivity.
  - f_equal. destruct sy; simpl; lia.
Qed.

Lemma float_add_neg_zero (x : float) : (x + - 0 = x)%float.
Proof.
  apply Prim2SF_inj. rewrite add_spec.
  change (Prim2SF (- 0)) with (S754_zero true). unfold SF64add.
  destruct (Prim2SF x) as [sx|sx| |sx mx ex]; simpl; try reflexivity.
  destruct sx; reflexivity.
Qed.

(** Two floats are the same number: identical, or equal as IEEE numbers
    (which identifies -0.0 and 0.0). *)
Definition same_number (x y : float) : Prop :=
  x = y \/ (x =? y)%float = true.

Lemma float_add_zero (x : float) : same_number (x + 0)%float x.
Proof.
  destruct (Prim2SF x) as [sx|sx| |sx mx ex] eqn:E.
  - right. rewrite FloatAxioms.eqb_spec, add_spec, E. by destruct sx.
  - left. apply Prim2SF_inj. by rewrite add_spec, E.
  - left. apply Prim2SF_inj. by rewrite add_spec, E.
  - left. apply Prim2SF_inj. by rewrite add_spec, E.
Qed.

(** ** Negation, subtraction and the perturbation *)

Section Gradient_check.

Import TensorData.

Variable other : Backend.

Lemma neg_run st a oa (ra : list nat -> float) :
  objs st !! a = Some oa ->
  tf oa = TensorFunctions ->
  (forall idx, valid_index idx (_shape (_tensor oa)) = true ->
     read (heap st) (_tensor oa) idx = Some (ra idx)) ->
  let v := mkTensorData (length (heap st)) (_shape (_tensor oa))
             (strides_from_shape (_shape (_tensor oa))) in
  Tensor___neg__ other a st =
    (Ok (length (objs st) + 2),
     mkStore
       (heap st ++ [(fun idx => operators.neg (ra idx))
                      <$> indices (_shape (_tensor oa))])
       (objs st ++
          [fresh (_tensor oa) TensorFunctions;
           fresh v TensorFunctions;
           recorded (requires_grad oa) (TensorFunctions, Neg)
             (mkContext VNone) [VTensor a] v TensorFunctions])).
Proof.
  intros Ha Htf Hra v. unfold Tensor___neg__, apply.
  rewrite (bind_run _ _ _ _ _ (deref_run _ _ _ Ha)). rewrite Htf.
  erewrite apply1_run; [|done| |]; cycle 1.
  - cbn [forward]. unfold Neg_forward, neg_map.
    change (backend_of other TensorFunctions) with TensorOps.backend.
    cbn [map TensorOps.backend].
    erewrite bind_run; [reflexivity|].
    eapply (map_run _ _ _ _ ra); [lookup_obj|done].
  - lookup_obj.
  - cbn [objs heap fresh _tensor tf]. f_equal.
    + f_equal. rewrite !length_app. simpl. lia.
    + rewrite <- !app_assoc. reflexivity.
Qed.

Lemma well_formed_prefix hp hp' v :
  hp `prefix_of` hp' -> well_formed hp v = true -> well_formed hp' v = true.
Proof.
  intros Hp. unfold well_formed. rewrite !forallb_forall.
  intros H idx Hidx. specialize (H idx Hidx).
  apply bool_decide_eq_true in H as [x Hx]. apply bool_decide_eq_true.
  exists x. by eapply read_prefix.
Qed.

Lemma well_formed_contiguous hp loc shape (val : list nat -> float) :
  hp !! loc = Some (val <$> indices shape) ->
  well_formed hp (mkTensorData loc shape (strides_from_shape shape)) = true.
Proof.
  intros Hl. unfold well_formed. apply forallb_forall.
  intros idx Hidx%list_elem_of_In%valid_index_indices.
  apply bool_decide_eq_true. exists (val idx). by apply read_contiguous.
Qed.

Lemma entry_contiguous hp loc shape (val : list nat -> float) idx :
  hp !! loc = Some (val <$> indices shape) ->
  valid_index idx shape = true ->
  entry hp (mkTensorData loc shape (strides_from_shape shape)) idx = val idx.
Proof.
  intros Hl Hv. unfold entry. by rewrite (read_contiguous _ _ _ val).
Qed.

Lemma entry_prefix hp hp' v idx :
  hp `prefix_of` hp' ->
  well_formed hp v = true ->
  valid_index idx (_shape v) = true ->
  entry hp' v idx = entry hp v idx.
Proof.
  intros Hp Hwf Hv. unfold entry at 1.
  by rewrite (read_prefix _ _ _ _ _ Hp (well_formed_read _ _ _ Hwf Hv)).
Qed.

(** [a + b] for two tensors of one shape. *)
Lemma add_rel st a b oa ob :
  objs st !! a = Some oa ->
  objs st !! b = Some ob ->
  tf oa = TensorFunctions ->
  _shape (_tensor ob) = _shape (_tensor oa) ->
  well_formed (heap st) (_tensor oa) = true ->
  well_formed (heap st) (_tensor ob) = true ->
  exists r st' or,
    Tensor___add__ other a (OTensor b) st = (Ok r, st') /\
    heap st `prefix_of` heap st' /\
    objs st `prefix_of` objs st' /\
    objs st' !! r = Some or /\
    tf or = TensorFunctions /\
    _shape (_tensor or) = _shape (_tensor oa) /\
    well_formed (heap st') (_tensor or) = true /\
    forall idx, valid_index idx (_shape (_tensor oa)) = true ->
      entry (heap st') (_tensor or) idx =
        operators.add (entry (heap st) (_tensor oa) idx)
          (entry (heap st) (_tensor ob) idx).
Proof.
  intros Ha Hb Htf Hshape Hwa Hwb.
  pose proof (add_run other st a b oa ob (_shape (_tensor oa))
                (entry (heap st) (_tensor oa)) (entry (heap st) (_tensor ob))
                Ha Hb Htf) as Hrun.
  cbv zeta in Hrun. rewrite Hshape in Hrun.
  specialize (Hrun (shape_broadcast_fits_l _ _ (fits_refl _))).
  eexists _, _, _. split.
  { apply Hrun; intros idx Hv; rewrite (broadcast_index_same _ _ Hv);
      apply well_formed_read; [done|done|done|by rewrite Hshape]. }
  cbn [heap objs]. split; [by apply prefix_app_r|].
  split; [by apply prefix_app_r|]. split; [lookup_obj|].
  split; [done|]. split; [done|].
  cbn [recorded Variable___init__ _tensor]. split.
  - eapply well_formed_contiguous. by apply list_lookup_middle.
  - intros idx Hv.
    by rewrite (entry_contiguous _ _ _
                  (fun idx => operators.add (entry (heap st) (_tensor oa) idx)
                                (entry (heap st) (_tensor ob) idx)))
      by (by apply list_lookup_middle || done).
Qed.

(** [a - b] for two tensors of one shape: [a + (-b)]. *)
Lemma sub_rel st a b oa ob :
  objs st !! a = Some oa ->
  objs st !! b = Some ob ->
  tf oa = TensorFunctions ->
  tf ob = TensorFunctions ->
  _shape (_tensor ob) = _shape (_tensor oa) ->
  well_formed (heap st) (_tensor oa) = true ->
  well_formed (heap st) (_tensor ob) = true ->
  exists r st' or,
    Tensor___sub__ other a (OTensor b) st = (Ok r, st') /\
    heap st `prefix_of` heap st' /\
    objs st `prefix_of` objs st' /\
    objs st' !! r = Some or /\
    tf or = TensorFunctions /\
    _shape (_tensor or) = _shape (_tensor oa) /\
    well_formed (heap st') (_tensor or) = true /\
    forall idx, valid_index idx (_shape (_tensor oa)) = true ->
      entry (heap st') (_tensor or) idx =
        (entry (heap st) (_tensor oa) idx
         - entry (heap st) (_tensor ob) idx)%float.
Proof.
  intros Ha Hb Htfa Htfb Hshape Hwa Hwb. unfold Tensor___sub__.
  rewrite (bind_run _ _ _ _ _ (deref_run _ _ _ Ha)). cbn [ensure_tensor].
  mnorm.
  pose proof (neg_run st b ob (entry (heap st) (_tensor ob)) Hb Htfb) as Hneg.
  cbv zeta in Hneg.
  rewrite (bind_run _ _ _ _ _
             (Hneg (fun idx Hv => well_formed_read _ _ _ Hwb Hv))).
  set (onb := recorded (requires_grad ob) (TensorFunctions, Neg)
                (mkContext VNone) [VTensor b]
                (mkTensorData (length (heap st)) (_shape (_tensor ob))
                   (strides_from_shape (_shape (_tensor ob))))
                TensorFunctions).
  set (st1 := mkStore _ _).
  assert (objs st1 !! (length (objs st) + 2) = Some onb) as Hnb
    by (subst st1; lookup_obj).
  assert (objs st1 !! a = Some oa) as Ha1
    by (subst st1; by apply lookup_app_l_Some).
  assert (heap st `prefix_of` heap st1) as Hp1
    by (subst st1; by apply prefix_app_r).
  destruct (add_rel st1 a _ oa onb Ha1 Hnb Htfa)
    as (r & st' & or & Hrun & Hp2 & Hp3 & Hr & Htfr & Hsr & Hwr & Her).
  { by rewrite <- Hshape. }
  { by eapply well_formed_prefix. }
  { cbn [onb recorded Variable___init__ _tensor].
    eapply well_formed_contiguous. subst st1. by apply list_lookup_middle. }
  exists r, st', or. fold (apply other (tf oa) Add [VTensor a; VTensor (length (objs st) + 2)]).
  split.
  { revert Hrun. unfold Tensor___add__.
    rewrite (bind_run _ _ _ _ _ (deref_run _ _ _ Ha1)). cbn [ensure_tensor].
    by mnorm. }
  split; [by etrans|]. split.
  { etrans; [|done]. subst st1. by apply prefix_app_r. }
  repeat (split; [done|]).
  intros idx Hv. rewrite (Her idx Hv), (entry_prefix _ _ _ _ Hp1 Hwa Hv).
  cbn [onb recorded Variable___init__ _tensor].
  rewrite (entry_contiguous _ _ _
             (fun idx => operators.neg (entry (heap st) (_tensor ob) idx)));
    [|subst st1; by apply list_lookup_middle|by rewrite Hshape].
  apply float_add_opp.
Qed.

(** [a.sum()] *)
Lemma sum_rel st a oa :
  objs st !! a = Some oa ->
  tf oa = TensorFunctions ->
  well_formed (heap st) (_tensor oa) = true ->
  exists s st' os,
    Tensor_sum other a None st = (Ok s, st') /\
    heap st `prefix_of` heap st' /\
    objs st `prefix_of` objs st' /\
    objs st' !! s = Some os /\
    tf os = TensorFunctions /\
    _shape (_tensor os) = [1] /\
    well_formed (heap st') (_tensor os) = true /\
    entry (heap st') (_tensor os) [0] =
      total (entry (heap st) (_tensor oa)) (_shape (_tensor oa)).
Proof.
  intros Ha Htf Hwf.
  pose proof (sum_run other st a oa (entry (heap st) (_tensor oa)) Ha Htf
                (fun idx Hv => well_formed_read _ _ _ Hwf Hv)) as Hrun.
  cbv zeta in Hrun.
  eexists _, _, _. split; [exact Hrun|].
  cbn [heap objs]. split; [by apply prefix_app_r|].
  split; [by apply prefix_app_r|]. split; [lookup_obj|].
  split; [done|]. split; [done|].
  cbn [recorded Variable___init__ _tensor]. split.
  - apply (well_formed_contiguous _ _ [1]
             (fun _ => total (entry (heap st) (_tensor oa))
                         (_shape (_tensor oa)))).
    by apply list_lookup_middle.
  - unfold entry, read. simpl. by rewrite list_lookup_middle.
Qed.

(** The storage of [up]: zeros, and [epsilon] at [ind]. *)
Lemma insert_bump shape ind (eps : float) :
  valid_index ind shape = true ->
  <[index_to_position ind (strides_from_shape shape) := eps]>
    (replicate (operators.prod shape) 0%float)
  = (fun idx => if decide (idx = ind) then eps else 0%float)
      <$> indices shape.
Proof.
  intros Hv. apply list_eq. intros k. rewrite list_lookup_fmap.
  pose proof (lookup_at_position _ _ Hv) as Hind.
  pose proof (index_to_position_lt _ _ Hv) as Hlt.
  destruct (decide (k = index_to_position ind (strides_from_shape shape)))
    as [->|Hne].
  - rewrite list_lookup_insert_eq by (by rewrite length_replicate).
    rewrite Hind. simpl. by rewrite decide_True.
  - rewrite list_lookup_insert_ne by done.
    destruct (indices shape !! k) as [idx|] eqn:Hk; simpl.
    + rewrite lookup_replicate_2.
      * rewrite decide_False; [done|]. intros ->.
        by rewrite (position_of_lookup _ _ _ Hk) in Hne.
      * rewrite <- length_indices. by eapply lookup_lt_Some.
    + apply lookup_ge_None_2. rewrite length_replicate, <- length_indices.
      by apply lookup_ge_None_1.
Qed.

Lemma list_comp_keep (m : nat -> M nat) (vals : list nat) k target st :
  (forall i, i < length vals -> k + i <> target) ->
  list_comp (imap (fun i => pair (k + i)) vals)
    (fun jx => if bool_decide (fst jx <> target) then ret (snd jx)
               else m (snd jx)) st
    = (Ok vals, st).
Proof.
  revert k. induction vals as [|v vals IH]; intros k H; [done|].
  rewrite imap_cons. cbn [list_comp fst snd].
  rewrite bool_decide_eq_true_2 by (apply (H 0); simpl; lia). mnorm.
  rewrite (imap_ext _ (fun i => pair (S k + i)))
    by (intros; simpl; f_equal; lia).
  rewrite (bind_run _ _ _ _ _ (IH (S k) ltac:(intros i Hi;
    specialize (H (S i)); simpl in H; lia))).
  done.
Qed.

Lemma list_comp_at_gen (m : nat -> M nat) (vals : list nat) k arg x r
    st st' :
  vals !! arg = Some x ->
  m x st = (Ok r, st') ->
  list_comp (imap (fun i => pair (k + i)) vals)
    (fun jx => if bool_decide (fst jx <> k + arg) then ret (snd jx)
               else m (snd jx)) st
    = (Ok (<[arg := r]> vals), st').
Proof.
  intros Hx Hm. revert arg k Hx.
  induction vals as [|v vals IH]; intros arg k Hx; [done|].
  rewrite imap_cons. cbn [list_comp fst snd].
  rewrite (imap_ext _ (fun i => pair (S k + i)))
    by (intros; simpl; f_equal; lia).
  destruct arg as [|arg].
  - injection Hx as ->.
    rewrite bool_decide_eq_false_2 by (intros H; apply H; lia).
    rewrite (bind_run _ _ _ _ _ Hm).
    rewrite (bind_run _ _ _ _ _ (list_comp_keep m vals (S k) (k + 0) st'
      ltac:(intros; lia))).
    done.
  - rewrite bool_decide_eq_true_2 by lia. mnorm.
    replace (k + S arg) with (S k + arg) by lia.
    rewrite (bind_run _ _ _ _ _ (IH arg (S k) Hx)). done.
Qed.

(** [[x if j != arg else m(x) for j, x in enumerate(vals)]] *)
Lemma list_comp_at (m : nat -> M nat) (vals : list nat) arg x r st st' :
  vals !! arg = Some x ->
  m x st = (Ok r, st') ->
  list_comp (enumerate vals)
    (fun jx => if bool_decide (fst jx <> arg) then ret (snd jx)
               else m (snd jx)) st
    = (Ok (<[arg := r]> vals), st').
Proof. intros Hx Hm. apply (list_comp_at_gen m vals 0 arg x r st st' Hx Hm). Qed.

(** [x + e]: a tensor [t] of [st'] with the shape of [x], the entry of
    [x] plus [eps] at [ind], and the entry of [x] everywhere else (up to
    the sign of a zero: [-0.0 + 0.0] is [0.0]). *)
Definition plus_epsilon (st : Store) (ox : Tensor) (ind : list nat)
    (eps : float) (st' : Store) (t : nat) : Prop :=
  exists ot,
    objs st' !! t = Some ot /\
    tf ot = TensorFunctions /\
    _shape (_tensor ot) = _shape (_tensor ox) /\
    well_formed (heap st') (_tensor ot) = true /\
    forall idx, valid_index idx (_shape (_tensor ox)) = true ->
      (idx = ind ->
       entry (heap st') (_tensor ot) idx
         = (entry (heap st) (_tensor ox) idx + eps)%float) /\
      (idx <> ind ->
       same_number (entry (heap st') (_tensor ot) idx)
         (entry (heap st) (_tensor ox) idx)).

(** [x - e]: the entry of [x] minus [eps] at [ind], and the entry of [x]
    everywhere else. *)
Definition minus_epsilon (st : Store) (ox : Tensor) (ind : list nat)
    (eps : float) (st' : Store) (t : nat) : Prop :=
  exists ot,
    objs st' !! t = Some ot /\
    tf ot = TensorFunctions /\
    _shape (_tensor ot) = _shape (_tensor ox) /\
    well_formed (heap st') (_tensor ot) = true /\
    forall idx, valid_index idx (_shape (_tensor ox)) = true ->
      (idx = ind ->
       entry (heap st') (_tensor ot) idx
         = (entry (heap st) (_tensor ox) idx - eps)%float) /\
      (idx <> ind ->
       entry (heap st') (_tensor ot) idx = entry (heap st) (_tensor ox) idx).

Lemma minus_epsilon_extends st ox ind eps st1 st3 t :
  heap st1 `prefix_of` heap st3 ->
  objs st1 `prefix_of` objs st3 ->
  minus_epsilon st ox ind eps st1 t ->
  minus_epsilon st ox ind eps st3 t.
Proof.
  intros Hh Ho (ot & Hot & Htf & Hs & Hwf & Hent). exists ot.
  split; [by eapply prefix_lookup_Some|]. split; [done|]. split; [done|].
  split; [by eapply well_formed_prefix|].
  intros idx Hv. rewrite (entry_prefix _ _ _ _ Hh Hwf) by (by rewrite Hs).
  by apply Hent.
Qed.

(** The last two statements of [central_difference]:
    [delta = f(vals1).sum() - f(vals2).sum()] and
    [return delta[0] / (2.0 * epsilon)]. *)
Definition quotient_of_sums (f : list nat -> M nat) (vals1 vals2 : list nat)
    (epsilon : float) : M float :=
  r1 <- f vals1 ;;
  s1 <- Tensor_sum other r1 None ;;
  r2 <- f vals2 ;;
  s2 <- Tensor_sum other r2 None ;;
  delta <- Tensor___sub__ other s1 (OTensor s2) ;;
  d0 <- Tensor___getitem__ delta [0] ;;
  ret (d0 / (2 * epsilon))%float.

(** [central_difference] up to the calls of [f]: the two perturbed inputs
    are created, nothing that exists is changed, and what remains to be
    run is the quotient, on the inputs with the [arg]-th replaced. *)
Lemma central_difference_perturbs f vals arg ind eps st x ox :
  vals !! arg = Some x ->
  objs st !! x = Some ox ->
  tf ox = TensorFunctions ->
  well_formed (heap st) (_tensor ox) = true ->
  valid_index ind (_shape (_tensor ox)) = true ->
  exists xp xm st1,
    heap st `prefix_of` heap st1 /\
    objs st `prefix_of` objs st1 /\
    plus_epsilon st ox ind eps st1 xp /\
    minus_epsilon st ox ind eps st1 xm /\
    central_difference other f vals arg eps ind st =
      quotient_of_sums f (<[arg := xp]> vals) (<[arg := xm]> vals) eps st1.
Proof.
  intros Hx Hox Htf Hwf Hind.
  set (S := _shape (_tensor ox)) in *.
  set (bump := fun idx : list nat => if decide (idx = ind) then eps else 0%float).
  (* up = zeros(x.shape); up[ind] = epsilon *)
  set (oup := fresh (mkTensorData (length (heap st)) S (strides_from_shape S))
                TensorFunctions).
  set (st_b := mkStore (heap st ++ [bump <$> indices S]) (objs st ++ [oup])).
  assert (heap st `prefix_of` heap st_b) as Hpb by (by apply prefix_app_r).
  assert (objs st `prefix_of` objs st_b) as Hpb' by (by apply prefix_app_r).
  assert (objs st_b !! x = Some ox) as Hxb by (by apply lookup_app_l_Some).
  assert (objs st_b !! length (objs st) = Some oup) as Hupb
    by (by apply list_lookup_middle).
  assert (well_formed (heap st_b) (_tensor ox) = true) as Hwfb
    by (by eapply well_formed_prefix).
  assert (well_formed (heap st_b) (_tensor oup) = true) as Hwfup.
  { eapply well_formed_contiguous. by apply list_lookup_middle. }
  (* x + up *)
  destruct (add_rel st_b x _ ox oup Hxb Hupb Htf eq_refl Hwfb Hwfup)
    as (xp & st_c & oxp & Hadd & Hpc & Hpc' & Hxp & Htfp & Hsp & Hwp & Hep).
  (* x - up *)
  destruct (sub_rel st_c x (length (objs st)) ox oup)
    as (xm & st_d & oxm & Hsub & Hpd & Hpd' & Hxm & Htfm & Hsm & Hwm & Hem);
    try done.
  { by eapply prefix_lookup_Some. }
  { by eapply prefix_lookup_Some. }
  { by eapply well_formed_prefix. }
  { by eapply well_formed_prefix. }
  exists xp, xm, st_d.
  split; [by repeat (etrans; [done|])|].
  split; [by repeat (etrans; [done|])|]. split; [|split].
  - exists oxp. split; [by eapply prefix_lookup_Some|]. split; [done|].
    split; [done|]. split; [by eapply well_formed_prefix|].
    intros idx Hv.
    rewrite (entry_prefix _ _ _ _ Hpd Hwp) by (by rewrite Hsp).
    rewrite (Hep idx Hv), (entry_prefix _ _ _ _ Hpb Hwf Hv).
    cbn [oup fresh _tensor].
    rewrite (entry_contiguous _ _ _ bump)
      by (by apply list_lookup_middle || done).
    unfold bump. split.
    + intros ->. by rewrite decide_True.
    + intros Hne. rewrite decide_False by done. apply float_add_zero.
  - exists oxm. split; [done|]. split; [done|]. split; [done|].
    split; [done|]. intros idx Hv. rewrite (Hem idx Hv).
    rewrite (entry_prefix (heap st) (heap st_c)) by (done || by etrans).
    rewrite (entry_prefix (heap st_b) (heap st_c)) by done.
    cbn [oup fresh _tensor].
    rewrite (entry_contiguous _ _ _ bump)
      by (by apply list_lookup_middle || done).
    unfold bump. split.
    + intros ->. by rewrite decide_True.
    + intros Hne. rewrite decide_False by done.
      rewrite <- float_add_opp. apply float_add_neg_zero.
  - unfold central_difference. rewrite Hx. mnorm.
    rewrite (bind_run _ _ _ _ _ (Tensor_shape_run _ _ _ Hox)). fold S.
    rewrite (bind_run _ _ _ _ _ (zeros_run _ _)).
    erewrite (bind_run (Tensor___setitem__ _ _ _)); cycle 1.
    { eapply (setitem_run _ _ oup); [lookup_obj|done| |].
      - cbn [heap oup fresh _tensor _storage]. by apply list_lookup_middle.
      - cbn [oup fresh _tensor _strides]. rewrite length_replicate.
        by apply index_to_position_lt. }
    cbn [heap objs oup fresh _tensor _storage _strides].
    rewrite snoc_insert, (insert_bump _ _ eps Hind). fold bump oup st_b.
    erewrite (bind_run (list_comp _ _));
      [|by eapply (list_comp_at
                     (fun x => Tensor___add__ other x
                                 (OTensor (length (objs st)))))].
    erewrite (bind_run (list_comp _ _));
      [|by eapply (list_comp_at
                     (fun x => Tensor___sub__ other x
                                 (OTensor (length (objs st)))))].
    reflexivity.
Qed.

(** The value of the quotient when the two calls of [f] return tensors:
    the first sum is taken in the store the first call leaves, the second
    call runs in the store that sum leaves, and, if it only creates
    objects, the value is the difference of the two totals over
    [2 * epsilon]. *)
Lemma quotient_of_sums_value f vals1 vals2 eps st1 r1 st2 o1 :
  f vals1 st1 = (Ok r1, st2) ->
  objs st2 !! r1 = Some o1 ->
  tf o1 = TensorFunctions ->
  well_formed (heap st2) (_tensor o1) = true ->
  exists s1 st3,
    Tensor_sum other r1 None st2 = (Ok s1, st3) /\
    heap st2 `prefix_of` heap st3 /\
    objs st2 `prefix_of` objs st3 /\
    forall r2 st4 o2,
      f vals2 st3 = (Ok r2, st4) ->
      heap st3 `prefix_of` heap st4 ->
      objs st3 `prefix_of` objs st4 ->
      objs st4 !! r2 = Some o2 ->
      tf o2 = TensorFunctions ->
      well_formed (heap st4) (_tensor o2) = true ->
      exists st5,
        quotient_of_sums f vals1 vals2 eps st1 =
          (Ok ((total (entry (heap st2) (_tensor o1)) (_shape (_tensor o1))
                - total (entry (heap st4) (_tensor o2)) (_shape (_tensor o2)))
               / (2 * eps))%float,
           st5).
Proof.
  intros Hr1 Ho1 Htf1 Hw1.
  destruct (sum_rel st2 r1 o1 Ho1 Htf1 Hw1)
    as (s1 & st3 & os1 & Hs1 & Hp3 & Hp3' & Hos1 & Htfs1 & Hss1 & Hws1 & Hes1).
  exists s1, st3. split; [done|]. split; [done|]. split; [done|].
  intros r2 st4 o2 Hr2 Hp4 Hp4' Ho2 Htf2 Hw2.
  destruct (sum_rel st4 r2 o2 Ho2 Htf2 Hw2)
    as (s2 & st5 & os2 & Hs2 & Hp5 & Hp5' & Hos2 & Htfs2 & Hss2 & Hws2 & Hes2).
  (* delta = s1 - s2 *)
  assert (heap st3 `prefix_of` heap st5) as Hp35 by (by etrans).
  destruct (sub_rel st5 s1 s2 os1 os2)
    as (dl & st6 & odl & Hdl & Hp6 & Hp6' & Hodl & Htfdl & Hsdl & Hwdl & Hedl);
    try done.
  { eapply prefix_lookup_Some; [done|]. by etrans. }
  { congruence. }
  { by eapply well_formed_prefix. }
  exists st6. unfold quotient_of_sums.
  rewrite (bind_run _ _ _ _ _ Hr1), (bind_run _ _ _ _ _ Hs1).
  rewrite (bind_run _ _ _ _ _ Hr2), (bind_run _ _ _ _ _ Hs2).
  rewrite (bind_run _ _ _ _ _ Hdl).
  erewrite (bind_run (Tensor___getitem__ _ _)); cycle 1.
  { eapply getitem_run; [done|]. apply well_formed_read; [done|].
    by rewrite Hsdl, Hss1. }
  unfold ret. do 3 f_equal.
  rewrite Hedl by (by rewrite Hss1).
  by rewrite (entry_prefix _ _ _ _ Hp35 Hws1) by (by rewrite Hss1); congruence.
Qed.

End Gradient_check.

(** * Theorems *)

(** C2. For a tensor [x] of shape [(n,)], [n >= 1], whose entries all
    equal [v] and which requires grad, [x.sum().backward()] succeeds and
    afterwards [x.grad] has shape [(n,)] and is 1.0 at every position of
    [x].  The broadcast is that of the backward step of the node of
    [x.sum()]: [Sum.backward] returns the seed [g = tensor([1.0])] as it
    is, [x.expand(g)] makes of it a tensor [e] of shape [(n,)] with 1.0 at
    every position, and [e] is what is accumulated into the slot of
    [x]. *)
Theorem sum_backward_uniformity (other : Backend) (st : Store) (x : nat)
    (ox : Tensor) (n : nat) (v : float) :
  objs st !! x = Some ox ->
  back ox = None ->
  requires_grad ox = true ->
  derivative ox = None ->
  tf ox = TensorFunctions ->
  _shape (_tensor ox) = [n] ->
  1 <= n ->
  (forall i, i < n -> read (heap st) (_tensor ox) [i] = Some v) ->
  exists s st1 g st_g e st_e st2,
    Tensor_sum other x None st = (Ok s, st1) /\
    tensor [1%float] None st1 = (Ok g, st_g) /\
    (exists os h,
       objs st_g !! s = Some os /\ back os = Some h /\
       last_fn h = (TensorFunctions, Sum) /\
       Sum_backward (ctx h) g st_g = (Ok [g], st_g) /\
       FunctionBase_chain_rule other h g st_g = (Ok [(x, e)], st_e)) /\
    Tensor_expand other x g st_g = (Ok e, st_e) /\
    Tensor_shape e st_e = (Ok [n], st_e) /\
    (forall i, i < n -> Tensor___getitem__ e [i] st_e = (Ok 1%float, st_e)) /\
    Variable_accumulate_derivative other x e st_e = (Ok tt, st2) /\
    Tensor_backward other s None st1 = (Ok tt, st2) /\
    (exists d, Tensor_grad x st2 = (Ok (Some d), st2) /\
               Tensor_shape d st2 = (Ok [n], st2)) /\
    forall i, i < n -> Tensor_grad_getitem x [i] st2 = (Ok 1%float, st2).
Proof.
  intros Hx Hb Hrg Hd Htf Hshape Hn Hentries.
  destruct (sum_backward_leaf_steps other st x ox (fun _ => v))
    as (s & st1 & g & st_g & e & st_e & oe & st2 & Hsum & Hseed & Hs & Hexp
        & Hoe & Hse & Hre & Hacc & Hback & Hpost); try done.
  { rewrite Hshape. intros idx (i & -> & Hi)%valid_index_1d_inv.
    by apply Hentries. }
  assert (forall i, i < n -> TensorData.valid_index [i] [n] = true) as Hvalid.
  { intros i Hi. simpl. rewrite andb_true_r. by apply Nat.ltb_lt. }
  exists s, st1, g, st_g, e, st_e, st2.
  split; [done|]. split; [done|]. split.
  { eexists _, _. split; [exact Hs|]. split; [reflexivity|].
    split; [reflexivity|]. split; [reflexivity|].
    by apply (chain_rule_unary other st_g st_g st_e g g e x Sum). }
  split; [done|]. split.
  { rewrite (Tensor_shape_run _ _ _ Hoe). by rewrite Hse, Hshape. }
  split.
  { intros i Hi. eapply getitem_run; [done|]. apply Hre.
    rewrite Hshape. by apply Hvalid. }
  split; [done|]. split; [done|]. split.
  - destruct Hpost as (_ & _ & d & od & Hxd & Hod & _ & Hsd & _).
    exists d. split.
    + unfold Tensor_grad. by rewrite (bind_run _ _ _ _ _ (deref_run _ _ _ Hxd)).
    + rewrite (Tensor_shape_run _ _ _ Hod). by rewrite Hsd, Hshape.
  - intros i Hi. apply (grad_getitem_run _ _ _ _ _ _ [i] Hpost).
    rewrite Hshape. by apply Hvalid.
Qed.

(** C1. For a tensor [x] that requires grad, with [y = x + x],
    [y.sum().backward()] succeeds and afterwards [x.grad[idx]] is 2.0 at
    every position of [x]: the two uses of [x] are summed into its
    gradient slot. *)
Theorem additive_accumulation (other : Backend) (st : Store) (x : nat)
    (ox : Tensor) :
  objs st !! x = Some ox ->
  back ox = None ->
  requires_grad ox = true ->
  derivative ox = None ->
  tf ox = TensorFunctions ->
  well_formed (heap st) (_tensor ox) = true ->
  exists y st1 s st2 st3,
    Tensor___add__ other x (OTensor x) st = (Ok y, st1) /\
    Tensor_sum other y None st1 = (Ok s, st2) /\
    Tensor_backward other s None st2 = (Ok tt, st3) /\
    forall idx, TensorData.valid_index idx (_shape (_tensor ox)) = true ->
      Tensor_grad_getitem x idx st3 = (Ok 2%float, st3).
Proof.
  intros Hx Hb Hrg Hd Htf Hwf.
  destruct (add_sum_backward_leaf other st x ox (entry (heap st) (_tensor ox)))
    as (y & st1 & s & st2 & st3 & st' & ox' & Hadd & Hsum & Hback & Hacc);
    try done.
  { intros idx Hv. by apply well_formed_read. }
  exists y, st1, s, st2, st3. repeat (split; [done|]).
  intros idx Hv. apply (grad_getitem_run _ _ _ _ _ _ idx Hacc Hv).
Qed.

(** C3. [tensor([2.0, 3.0]) * tensor([4.0, 5.0])], both operands
    requiring grad: [Mul.forward] raises NotImplementedError, so no product
    and no gradient is computed. *)
Definition mul_scenario (other : Backend) : M nat :=
  a <- tensor [2%float; 3%float] None ;;
  b <- tensor [4%float; 5%float] None ;;
  Variable_requires_grad_ a true ;;
  Variable_requires_grad_ b true ;;
  Tensor___mul__ other a (OTensor b).

Theorem mul_scenario_not_implemented (other : Backend) :
  fst (mul_scenario other (mkStore [] []))
    = Raise (NotImplementedError past_assignment).
Proof. reflexivity. Qed.

(** C10. [backward()] without [grad_output]: on a tensor of shape [(1,)]
    the pass runs with a new tensor [tensor([1.0])] (of the backend of
    [self]) as its seed; on any other shape it raises the assertion error
    and leaves the store, hence every gradient slot, as it was. *)
Theorem backward_default_seed (other : Backend) (st : Store) (self : nat)
    (o : Tensor) :
  objs st !! self = Some o ->
  (_shape (_tensor o) = [1] ->
   Tensor_backward other self None st =
     Variable_backward other self (length (objs st))
       (mkStore (heap st ++ [[1%float]])
          (objs st ++
             [fresh (mkTensorData (length (heap st)) [1] [1]) (tf o)]))) /\
  (_shape (_tensor o) <> [1] ->
   Tensor_backward other self None st =
     (Raise (AssertionError "Must provide grad_output if non-scalar"), st)).
Proof.
  intros Ho. unfold Tensor_backward. split; intros Hshape; mnorm;
    rewrite (bind_run _ _ _ _ _ (Tensor_shape_run _ _ _ Ho)).
  - rewrite bool_decide_eq_true_2 by done. unfold assert. mnorm.
    rewrite (bind_run _ _ _ _ _ (tensor_run _ _)). mnorm.
    erewrite (bind_run (deref _)); [|apply deref_run; lookup_obj]. mnorm.
    unfold update_object at 1. unfold bind at 1. cbn [objs heap].
    rewrite list_lookup_middle by done. by rewrite snoc_insert.
  - rewrite bool_decide_eq_false_2 by done. reflexivity.
Qed.

Definition store_scalar : Store :=
  mkStore [[7%float]] [fresh (mkTensorData 0 [1] [1]) TensorFunctions].

Definition store_matrix : Store :=
  mkStore [[1%float; 2%float; 3%float; 4%float; 5%float; 6%float]]
    [fresh (mkTensorData 0 [2; 3] [3; 1]) TensorFunctions].

Lemma backward_default_seed_witness :
  Tensor_backward TensorOps.backend 0 None store_scalar =
    Variable_backward TensorOps.backend 0 1
      (mkStore [[7%float]; [1%float]]
         [fresh (mkTensorData 0 [1] [1]) TensorFunctions;
          fresh (mkTensorData 1 [1] [1]) TensorFunctions]) /\
  Tensor_backward TensorOps.backend 0 None store_matrix =
    (Raise (AssertionError "Must provide grad_output if non-scalar"),
     store_matrix).
Proof.
  split.
  - apply (backward_default_seed TensorOps.backend store_scalar 0
             (fresh (mkTensorData 0 [1] [1]) TensorFunctions));
      reflexivity.
  - apply (backward_default_seed TensorOps.backend store_matrix 0
             (fresh (mkTensorData 0 [2; 3] [3; 1]) TensorFunctions)).
    + reflexivity.
    + simpl. discriminate.
Defined.

Definition store_permuted : Store :=
  mkStore [[1%float; 2%float; 3%float; 4%float; 5%float; 6%float]]
    [fresh (mkTensorData 0 [3; 2] [1; 3]) TensorFunctions].

(** C6, as stated: a non-contiguous tensor (shape [(3, 2)], strides
    [(1, 3)]) whose [view(6)] does not fail with ContiguityError. *)
Lemma view_error_is_not_ContiguityError :
  fst (Tensor_view 0 [6] store_permuted) <> Raise ContiguityError.
Proof. discriminate. Qed.

(** C6, amended. [a.view(shape)] on a non-contiguous [a] raises the
    assertion error "Must be contiguous to view"; on a contiguous [a] with
    [product(shape) == a.size] it succeeds. *)
Theorem view_contiguity (st : Store) (a : nat) (oa : Tensor)
    (shape : list nat) :
  objs st !! a = Some oa ->
  (TensorData.is_contiguous (_tensor oa) = false ->
   fst (Tensor_view a shape st)
     = Raise (AssertionError "Must be contiguous to view")) /\
  (TensorData.is_contiguous (_tensor oa) = true ->
   (exists l, heap st !! _storage (_tensor oa) = Some l /\
              length l = TensorData.size (_tensor oa)) ->
   operators.prod shape = TensorData.size (_tensor oa) ->
   exists r st', Tensor_view a shape st = (Ok r, st')).
Proof.
  intros Ha. split.
  - intros Hc. by rewrite (view_raises _ _ _ _ Ha Hc).
  - intros Hc (l & Hl & Hlen) Hsize.
    eexists _, _. eapply view_run; [done|done|done|]. congruence.
Qed.

Lemma view_contiguity_witness :
  fst (Tensor_view 0 [6] store_permuted)
    = Raise (AssertionError "Must be contiguous to view") /\
  exists r st', Tensor_view 0 [6] store_matrix = (Ok r, st').
Proof.
  split.
  - apply (view_contiguity store_permuted 0
             (fresh (mkTensorData 0 [3; 2] [1; 3]) TensorFunctions) [6]);
      reflexivity.
  - apply (view_contiguity store_matrix 0
             (fresh (mkTensorData 0 [2; 3] [3; 1]) TensorFunctions) [6]).
    + reflexivity.
    + reflexivity.
    + eexists. split; reflexivity.
    + reflexivity.
Defined.

(** C9. The tensor returned by [a.view(shape)] shares the storage of [a]:
    no storage is created, and for every flat position [p] the entry of
    the view and the entry of [a] at [p] are one cell: a value set through
    either is read through the other. *)
Theorem view_aliases_storage (st : Store) (a : nat) (oa : Tensor)
    (shape : list nat) (l : list float) :
  objs st !! a = Some oa ->
  TensorData.is_contiguous (_tensor oa) = true ->
  heap st !! _storage (_tensor oa) = Some l ->
  length l = TensorData.size (_tensor oa) ->
  operators.prod shape = TensorData.size (_tensor oa) ->
  exists r st1 or,
    Tensor_view a shape st = (Ok r, st1) /\
    heap st1 = heap st /\
    objs st1 !! a = Some oa /\
    objs st1 !! r = Some or /\
    _shape (_tensor or) = shape /\
    _storage (_tensor or) = _storage (_tensor oa) /\
    forall p, p < operators.prod shape ->
      exists k j,
        TensorData.indices shape !! p = Some k /\
        TensorData.indices (_shape (_tensor oa)) !! p = Some j /\
        forall v,
          (exists st2,
             Tensor___setitem__ r k v st1 = (Ok tt, st2) /\
             Tensor___getitem__ a j st2 = (Ok v, st2)) /\
          (exists st2,
             Tensor___setitem__ a j v st1 = (Ok tt, st2) /\
             Tensor___getitem__ r k st2 = (Ok v, st2)).
Proof.
  intros Ha Hc Hl Hlen Hsize. unfold TensorData.size in *.
  assert (length l = operators.prod shape) as Hlen' by congruence.
  pose proof (view_run st a oa shape l Ha Hc Hl Hlen') as Hview.
  cbv zeta in Hview.
  set (v := mkTensorData _ shape _) in Hview.
  set (st1 := mkStore _ _) in Hview.
  set (or := recorded _ _ _ _ v _) in *.
  assert (objs st1 !! a = Some oa) as Ha1.
  { subst st1. by apply lookup_app_l_Some. }
  assert (objs st1 !! (length (objs st) + 2) = Some or) as Hr1.
  { subst st1. lookup_obj. }
  exists (length (objs st) + 2), st1, or.
  repeat (split; [done|]).
  intros p Hp.
  destruct (lookup_lt_is_Some_2 (TensorData.indices shape) p) as [k Hk].
  { by rewrite length_indices. }
  destruct (lookup_lt_is_Some_2 (TensorData.indices (_shape (_tensor oa))) p)
    as [j Hj].
  { rewrite length_indices. lia. }
  exists k, j. split; [done|]. split; [done|]. intros x.
  assert (TensorData.valid_index k shape = true) as Hvk.
  { apply valid_index_indices. by eapply list_elem_of_lookup_2. }
  assert (TensorData.valid_index j (_shape (_tensor oa)) = true) as Hvj.
  { apply valid_index_indices. by eapply list_elem_of_lookup_2. }
  assert (TensorData.index_to_position k (TensorData.strides_from_shape shape)
            = p) as Hpk.
  { pose proof (positions_indices shape) as E.
    apply (f_equal (fun l => l !! p)) in E.
    rewrite list_lookup_fmap, Hk, lookup_seq_lt in E by done.
    by injection E. }
  assert (TensorData.index_to_position j (_strides (_tensor oa)) = p) as Hpj.
  { apply bool_decide_eq_true in Hc. rewrite Hc.
    pose proof (positions_indices (_shape (_tensor oa))) as E.
    apply (f_equal (fun l => l !! p)) in E.
    rewrite list_lookup_fmap, Hj, lookup_seq_lt in E by lia.
    by injection E. }
  assert (read (<[_storage (_tensor oa) := <[p := x]> l]> (heap st))
            (_tensor oa) j = Some x) as Hreada.
  { unfold read. rewrite Hvj, Hpj.
    rewrite list_lookup_insert_eq by (by eapply lookup_lt_Some). simpl.
    apply list_lookup_insert_eq. lia. }
  assert (read (<[_storage (_tensor oa) := <[p := x]> l]> (heap st)) v k
            = Some x) as Hreadv.
  { unfold read. cbn [v _shape _storage _strides]. rewrite Hvk, Hpk.
    rewrite list_lookup_insert_eq by (by eapply lookup_lt_Some). simpl.
    apply list_lookup_insert_eq. lia. }
  split.
  - eexists. split.
    + eapply (setitem_run _ _ or); [done|done|done|].
      cbn [or recorded Variable___init__ _tensor v _strides]. lia.
    + cbn [or recorded Variable___init__ _tensor v _strides _storage].
      rewrite Hpk. by eapply getitem_run.
  - eexists. split.
    + eapply (setitem_run _ _ oa); [done|done|done|]. lia.
    + rewrite Hpj. by eapply getitem_run.
Qed.

Lemma view_aliases_storage_witness :
  exists r st1 or,
    Tensor_view 0 [3; 2] store_matrix = (Ok r, st1) /\
    heap st1 = heap store_matrix /\
    objs st1 !! 0 = Some (fresh (mkTensorData 0 [2; 3] [3; 1]) TensorFunctions) /\
    objs st1 !! r = Some or /\
    _shape (_tensor or) = [3; 2] /\
    _storage (_tensor or) = 0 /\
    forall p, p < 6 ->
      exists k j,
        TensorData.indices [3; 2] !! p = Some k /\
        TensorData.indices [2; 3] !! p = Some j /\
        forall v,
          (exists st2,
             Tensor___setitem__ r k v st1 = (Ok tt, st2) /\
             Tensor___getitem__ 0 j st2 = (Ok v, st2)) /\
          (exists st2,
             Tensor___setitem__ 0 j v st1 = (Ok tt, st2) /\
             Tensor___getitem__ r k st2 = (Ok v, st2)).
Proof.
  apply (view_aliases_storage store_matrix 0
           (fresh (mkTensorData 0 [2; 3] [3; 1]) TensorFunctions) [3; 2]
           [1%float; 2%float; 3%float; 4%float; 5%float; 6%float]);
    reflexivity.
Defined.

(** C8. [a.sum(dim)] collapses dimension [dim], and only it, to size 1:
    each entry of the result is the sum, from 0 and left to right, of the
    entries of [a] along [dim].  [a.sum()] has shape [(1,)] and its entry is
    the sum of all entries of [a]. *)
Theorem sum_forward (other : Backend) (st : Store) (a : nat) (oa : Tensor) :
  objs st !! a = Some oa ->
  tf oa = TensorFunctions ->
  well_formed (heap st) (_tensor oa) = true ->
  (forall dim n, _shape (_tensor oa) !! dim = Some n ->
     exists r st' or,
       Tensor_sum other a (Some dim) st = (Ok r, st') /\
       objs st' !! r = Some or /\
       _shape (_tensor or) = <[dim := 1]> (_shape (_tensor oa)) /\
       forall idx,
         TensorData.valid_index idx (_shape (_tensor or)) = true ->
         Tensor___getitem__ r idx st' =
           (Ok (foldl (fun acc k =>
                         operators.add acc
                           (entry (heap st) (_tensor oa) (<[dim := k]> idx)))
                  0%float (seq 0 n)),
            st')) /\
  (exists r st' or,
     Tensor_sum other a None st = (Ok r, st') /\
     objs st' !! r = Some or /\
     _shape (_tensor or) = [1] /\
     Tensor___getitem__ r [0] st' =
       (Ok (total (entry (heap st) (_tensor oa)) (_shape (_tensor oa))), st')).
Proof.
  intros Ha Htf Hwf.
  assert (forall idx,
            TensorData.valid_index idx (_shape (_tensor oa)) = true ->
            read (heap st) (_tensor oa) idx
              = Some (entry (heap st) (_tensor oa) idx)) as Hra.
  { intros idx Hv. by apply well_formed_read. }
  split.
  - intros dim n Hdim.
    pose proof (sum_dim_run other st a oa dim n _ Ha Htf Hdim Hra) as Hrun.
    cbv zeta in Hrun.
    eexists _, _, _. split; [exact Hrun|]. split; [lookup_obj|].
    split; [reflexivity|].
    intros idx Hv. eapply getitem_run; [lookup_obj|].
    cbn [recorded Variable___init__ _tensor heap].
    apply (read_contiguous _ _ _
             (fun oi => foldl (fun acc k =>
                operators.add acc
                  (entry (heap st) (_tensor oa) (<[dim := k]> oi)))
                0%float (seq 0 n))); [|done].
    by apply list_lookup_middle.
  - pose proof (sum_run other st a oa _ Ha Htf Hra) as Hrun.
    cbv zeta in Hrun.
    eexists _, _, _. split; [exact Hrun|]. split; [lookup_obj|].
    split; [reflexivity|].
    eapply getitem_run; [lookup_obj|].
    cbn [recorded Variable___init__ _tensor heap].
    unfold read. simpl. by rewrite list_lookup_middle.
Qed.

Lemma sum_forward_witness :
  (exists r st' or,
     Tensor_sum TensorOps.backend 0 (Some 1) store_matrix = (Ok r, st') /\
     objs st' !! r = Some or /\
     _shape (_tensor or) = [2; 1] /\
     forall idx,
       TensorData.valid_index idx (_shape (_tensor or)) = true ->
       Tensor___getitem__ r idx st' =
         (Ok (foldl (fun acc k =>
                       operators.add acc
                         (entry (heap store_matrix)
                            (mkTensorData 0 [2; 3] [3; 1]) (<[1 := k]> idx)))
                0%float (seq 0 3)),
          st')) /\
  (exists r st' or,
     Tensor_sum TensorOps.backend 0 None store_matrix = (Ok r, st') /\
     objs st' !! r = Some or /\
     _shape (_tensor or) = [1] /\
     Tensor___getitem__ r [0] st' = (Ok 21%float, st')).
Proof.
  pose proof (sum_forward TensorOps.backend store_matrix 0
                (fresh (mkTensorData 0 [2; 3] [3; 1]) TensorFunctions)
                eq_refl eq_refl eq_refl) as [Hdim Hall].
  split.
  - exact (Hdim 1 3 eq_refl).
  - exact Hall.
Defined.

(** A leaf that requires grad, as [x.requires_grad_(True)] leaves it. *)
Definition leaf (v : TensorData) : Tensor :=
  mkTensor v None None None true TensorFunctions.

Definition store_leaf_vector : Store :=
  mkStore [[5%float; 5%float; 5%float]] [leaf (mkTensorData 0 [3] [1])].

Definition store_leaf_matrix : Store :=
  mkStore [[1%float; 2%float; 3%float; 4%float; 5%float; 6%float]]
    [leaf (mkTensorData 0 [2; 3] [3; 1])].

Lemma sum_backward_uniformity_witness :
  exists s st1 g st_g e st_e st2,
    Tensor_sum TensorOps.backend 0 None store_leaf_vector = (Ok s, st1) /\
    tensor [1%float] None st1 = (Ok g, st_g) /\
    (exists os h,
       objs st_g !! s = Some os /\ back os = Some h /\
       last_fn h = (TensorFunctions, Sum) /\
       Sum_backward (ctx h) g st_g = (Ok [g], st_g) /\
       FunctionBase_chain_rule TensorOps.backend h g st_g
         = (Ok [(0, e)], st_e)) /\
    Tensor_expand TensorOps.backend 0 g st_g = (Ok e, st_e) /\
    Tensor_shape e st_e = (Ok [3], st_e) /\
    (forall i, i < 3 -> Tensor___getitem__ e [i] st_e = (Ok 1%float, st_e)) /\
    Variable_accumulate_derivative TensorOps.backend 0 e st_e = (Ok tt, st2) /\
    Tensor_backward TensorOps.backend s None st1 = (Ok tt, st2) /\
    (exists d, Tensor_grad 0 st2 = (Ok (Some d), st2) /\
               Tensor_shape d st2 = (Ok [3], st2)) /\
    forall i, i < 3 -> Tensor_grad_getitem 0 [i] st2 = (Ok 1%float, st2).
Proof.
  apply (sum_backward_uniformity TensorOps.backend store_leaf_vector 0
           (leaf (mkTensorData 0 [3] [1])) 3 5%float);
    try reflexivity.
  - lia.
  - intros i Hi. destruct i as [|[|[|i]]]; [reflexivity..|lia].
Defined.

Lemma additive_accumulation_witness :
  exists y st1 s st2 st3,
    Tensor___add__ TensorOps.backend 0 (OTensor 0) store_leaf_matrix
      = (Ok y, st1) /\
    Tensor_sum TensorOps.backend y None st1 = (Ok s, st2) /\
    Tensor_backward TensorOps.backend s None st2 = (Ok tt, st3) /\
    forall idx, TensorData.valid_index idx [2; 3] = true ->
      Tensor_grad_getitem 0 idx st3 = (Ok 2%float, st3).
Proof.
  apply (additive_accumulation TensorOps.backend store_leaf_matrix 0
           (leaf (mkTensorData 0 [2; 3] [3; 1])));
    reflexivity.
Defined.

(** C5. For a permutation [order] of [range(t.dims)],
    [t.permute(order).permute(inverse(order))] has the buffer of [t]: the
    same shape and the same entry at every multi-index; and
    [Permute.backward], which permutes by the inverse of the saved order,
    takes the result of [Permute.forward] back to the buffer of [t]. *)
Theorem permute_inverse (other : Backend) (st : Store) (t : nat)
    (ot : Tensor) (order : list nat) :
  objs st !! t = Some ot ->
  length (_strides (_tensor ot)) = length (_shape (_tensor ot)) ->
  order ≡ₚ seq 0 (TensorData.dims (_tensor ot)) ->
  (exists p st1 q st2 oq,
     Tensor_permute other t order st = (Ok p, st1) /\
     Tensor_permute other p (inverse_order order) st1 = (Ok q, st2) /\
     objs st2 !! q = Some oq /\
     _shape (_tensor oq) = _shape (_tensor ot) /\
     forall idx,
       Tensor___getitem__ q idx st2 = Tensor___getitem__ t idx st2) /\
  (exists c r st1 g st2 og,
     Permute_forward (mkContext VNone) t order st = (Ok (c, r), st1) /\
     Permute_backward c r st1 = (Ok [g], st2) /\
     objs st2 !! g = Some og /\
     _tensor og = _tensor ot).
Proof.
  intros Ht Hlen Hp.
  pose proof (inverse_order_perm _ _ Hp) as Hinv. split.
  - pose proof (Tensor_permute_run other st t ot order Ht Hp) as Hrun1.
    set (st1 := mkStore _ _) in Hrun1.
    set (op := recorded _ _ _ _ (permuted (_tensor ot) order) _) in *.
    assert (objs st1 !! (length (objs st) + 2) = Some op) as Hp1
      by (subst st1; lookup_obj).
    pose proof (Tensor_permute_run other st1 _ op (inverse_order order) Hp1)
      as Hrun2.
    cbn [op recorded Variable___init__ _tensor] in Hrun2.
    rewrite (dims_permuted _ _ _ Hp) in Hrun2. specialize (Hrun2 Hinv).
    rewrite (permuted_inverse _ _ Hlen Hp) in Hrun2.
    eexists _, _, _, _, _. split; [exact Hrun1|]. split; [exact Hrun2|].
    split; [lookup_obj|]. split; [reflexivity|].
    intros idx. unfold Tensor___getitem__.
    erewrite (bind_run (deref _)); [|apply deref_run; lookup_obj].
    erewrite (bind_run (deref t)); cycle 1.
    { apply deref_run. cbn [objs]. apply lookup_app_l_Some.
      subst st1. by apply lookup_app_l_Some. }
    reflexivity.
  - pose proof (Permute_forward_run (mkContext VNone) st t ot order Ht Hp)
      as Hrun1.
    set (st1 := mkStore _ _) in Hrun1.
    assert (objs st1 !! length (objs st)
              = Some (fresh (permuted (_tensor ot) order) (tf ot))) as Hr
      by (subst st1; lookup_obj).
    pose proof (Permute_backward_run st1 _ _ order Hr) as Hrun2.
    cbn [fresh _tensor] in Hrun2.
    rewrite (dims_permuted _ _ _ Hp) in Hrun2. specialize (Hrun2 Hinv).
    rewrite (permuted_inverse _ _ Hlen Hp) in Hrun2.
    eexists _, _, _, _, _, _. split; [exact Hrun1|]. split; [exact Hrun2|].
    split; [lookup_obj|reflexivity].
Qed.

Lemma permute_inverse_witness :
  (exists p st1 q st2 oq,
     Tensor_permute TensorOps.backend 0 [1; 0] store_matrix = (Ok p, st1) /\
     Tensor_permute TensorOps.backend p (inverse_order [1; 0]) st1
       = (Ok q, st2) /\
     objs st2 !! q = Some oq /\
     _shape (_tensor oq) = [2; 3] /\
     forall idx,
       Tensor___getitem__ q idx st2 = Tensor___getitem__ 0 idx st2) /\
  (exists c r st1 g st2 og,
     Permute_forward (mkContext VNone) 0 [1; 0] store_matrix
       = (Ok (c, r), st1) /\
     Permute_backward c r st1 = (Ok [g], st2) /\
     objs st2 !! g = Some og /\
     _tensor og = mkTensorData 0 [2; 3] [3; 1]).
Proof.
  apply (permute_inverse TensorOps.backend store_matrix 0
           (fresh (mkTensorData 0 [2; 3] [3; 1]) TensorFunctions) [1; 0]).
  - reflexivity.
  - reflexivity.
  - apply Permutation_swap.
Defined.

(** Two vectors of the sequential backend. *)
Definition two_vectors : Store :=
  mkStore [[2%float; 3%float]; [4%float; 5%float]]
    [fresh (mkTensorData 0 [2] [1]) TensorFunctions;
     fresh (mkTensorData 1 [2] [1]) TensorFunctions].

(** ** The gradient check *)

(** What [central_difference(f, vals, arg=arg, ind=ind)] does on the
    store [st], where [x] is the [arg]-th input.

    - Before [f] is called, the tensors [xp] ("x + e") and [xm]
      ("x - e") are created; they differ from [x] at [ind] only, by
      [+epsilon] and [-epsilon]; what existed in [st], the other inputs
      among it, is as it was.
    - What is returned is the quotient of the source, run from there:
      [f] on the inputs with the [arg]-th replaced by [xp], its sum, then
      [f] on the inputs with the [arg]-th replaced by [xm], its sum, the
      difference, and the division by [2 * epsilon].  This holds for
      every [f], whatever it does.
    - When the first call returns a tensor [r1], having only created
      objects, its sum is taken, and the second call runs in the store
      [st3] that this sum leaves, where [xm] is still "x - e"; when the
      second call returns a tensor [r2], having only created objects,
      the value returned is the total of [r1] minus the total of [r2],
      over [2 * epsilon]. *)
Definition central_difference_spec (other : Backend) (f : list nat -> M nat)
    (vals : list nat) (arg : nat) (ind : list nat) (st : Store)
    (ox : Tensor) : Prop :=
  let eps := default_epsilon in
  exists xp xm st1,
    heap st `prefix_of` heap st1 /\
    objs st `prefix_of` objs st1 /\
    plus_epsilon st ox ind eps st1 xp /\
    minus_epsilon st ox ind eps st1 xm /\
    central_difference other f vals arg eps ind st =
      quotient_of_sums other f (<[arg := xp]> vals) (<[arg := xm]> vals)
        eps st1 /\
    forall r1 st2 o1,
      f (<[arg := xp]> vals) st1 = (Ok r1, st2) ->
      heap st1 `prefix_of` heap st2 ->
      objs st1 `prefix_of` objs st2 ->
      objs st2 !! r1 = Some o1 ->
      tf o1 = TensorFunctions ->
      well_formed (heap st2) (_tensor o1) = true ->
      exists s1 st3,
        Tensor_sum other r1 None st2 = (Ok s1, st3) /\
        heap st `prefix_of` heap st3 /\
        objs st `prefix_of` objs st3 /\
        minus_epsilon st ox ind eps st3 xm /\
        forall r2 st4 o2,
          f (<[arg := xm]> vals) st3 = (Ok r2, st4) ->
          heap st3 `prefix_of` heap st4 ->
          objs st3 `prefix_of` objs st4 ->
          objs st4 !! r2 = Some o2 ->
          tf o2 = TensorFunctions ->
          well_formed (heap st4) (_tensor o2) = true ->
          exists st5,
            central_difference other f vals arg eps ind st =
              (Ok ((total (entry (heap st2) (_tensor o1)) (_shape (_tensor o1))
                    - total (entry (heap st4) (_tensor o2))
                        (_shape (_tensor o2)))
                   / (2 * eps))%float,
               st5).

(** C7. For every function [f], inputs [vals], a position [arg] among
    them and an index [ind] of that input, [central_difference] with the
    default epsilon returns
    [(f(x+e).sum() - f(x-e).sum()) / (2 * epsilon)], where [x+e] and [x-e]
    differ from the [arg]-th input at [ind] only, by [+epsilon] and
    [-epsilon], and the other inputs are passed as they are. *)
Theorem central_difference_formula (other : Backend) (f : list nat -> M nat)
    (vals : list nat) (arg : nat) (ind : list nat) (st : Store) (x : nat)
    (ox : Tensor) :
  vals !! arg = Some x ->
  objs st !! x = Some ox ->
  tf ox = TensorFunctions ->
  well_formed (heap st) (_tensor ox) = true ->
  TensorData.valid_index ind (_shape (_tensor ox)) = true ->
  central_difference_spec other f vals arg ind st ox.
Proof.
  intros Hx Hox Htf Hwf Hind.
  destruct (central_difference_perturbs other f vals arg ind default_epsilon
              st x ox Hx Hox Htf Hwf Hind)
    as (xp & xm & st1 & Hh1 & Ho1 & Hxp & Hxm & Hrun).
  exists xp, xm, st1. repeat (split; [done|]).
  intros r1 st2 o1 Hr1 Hh2 Ho2 Hlook1 Htf1 Hwf1.
  destruct (quotient_of_sums_value other f (<[arg := xp]> vals)
              (<[arg := xm]> vals) default_epsilon st1 r1 st2 o1
              Hr1 Hlook1 Htf1 Hwf1)
    as (s1 & st3 & Hs1 & Hh3 & Ho3 & Hrest).
  exists s1, st3. split; [done|].
  split; [by repeat (etrans; [done|])|].
  split; [by repeat (etrans; [done|])|]. split.
  { eapply minus_epsilon_extends; [| |done]; by etrans. }
  intros r2 st4 o2 Hr2 Hh4 Ho4 Hlook2 Htf2 Hwf2.
  destruct (Hrest r2 st4 o2 Hr2 Hh4 Ho4 Hlook2 Htf2 Hwf2) as (st5 & Hq).
  exists st5. by rewrite Hrun.
Qed.

(** A function for the gradient check: [lambda t: -t]. *)
Definition negate_input (vs : list nat) : M nat :=
  match vs with
  | [v] => Tensor___neg__ TensorOps.backend v
  | _ => raise TypeError
  end.

(** What [negate_input] does on a tensor of the sequential backend: it
    returns a tensor of that backend and only creates objects. *)
Lemma negate_input_run st v o :
  objs st !! v = Some o ->
  tf o = TensorFunctions ->
  well_formed (heap st) (_tensor o) = true ->
  exists r st' or,
    negate_input [v] st = (Ok r, st') /\
    heap st `prefix_of` heap st' /\
    objs st `prefix_of` objs st' /\
    objs st' !! r = Some or /\
    tf or = TensorFunctions /\
    well_formed (heap st') (_tensor or) = true.
Proof.
  intros Ho Htf Hwf.
  pose proof (neg_run TensorOps.backend st v o (entry (heap st) (_tensor o))
                Ho Htf (fun idx Hv => well_formed_read _ _ _ Hwf Hv)) as Hrun.
  cbv zeta in Hrun. eexists _, _, _. split; [exact Hrun|].
  cbn [heap objs]. split; [by apply prefix_app_r|].
  split; [by apply prefix_app_r|]. split; [lookup_obj|]. split; [done|].
  eapply well_formed_contiguous. by apply list_lookup_middle.
Qed.

Lemma central_difference_formula_witness :
  central_difference_spec TensorOps.backend negate_input [0] 0 [1; 1]
    store_matrix (fresh (mkTensorData 0 [2; 3] [3; 1]) TensorFunctions) /\
  exists q st5,
    central_difference TensorOps.backend negate_input [0] 0 default_epsilon
      [1; 1] store_matrix = (Ok q, st5).
Proof.
  pose proof (central_difference_formula TensorOps.backend negate_input [0] 0
                [1; 1] store_matrix 0
                (fresh (mkTensorData 0 [2; 3] [3; 1]) TensorFunctions)
                eq_refl eq_refl eq_refl eq_refl eq_refl) as H.
  split; [exact H|].
  destruct H as (xp & xm & st1 & _ & _ & (oxp & Hxp & Htfp & _ & Hwp & _)
                 & _ & _ & Hcalls).
  destruct (negate_input_run st1 xp oxp Hxp Htfp Hwp)
    as (r1 & st2 & o1 & Hr1 & Hh2 & Ho2 & Hlook1 & Htf1 & Hwf1).
  destruct (Hcalls r1 st2 o1 Hr1 Hh2 Ho2 Hlook1 Htf1 Hwf1)
    as (s1 & st3 & _ & _ & _ & (oxm & Hxm & Htfm & _ & Hwm & _) & Hsecond).
  destruct (negate_input_run st3 xm oxm Hxm Htfm Hwm)
    as (r2 & st4 & o2 & Hr2 & Hh4 & Ho4 & Hlook2 & Htf2 & Hwf2).
  destruct (Hsecond r2 st4 o2 Hr2 Hh4 Ho4 Hlook2 Htf2 Hwf2) as (st5 & Hq).
  eexists _, st5. exact Hq.
Defined.

(** * More of tensor.py *)

(** ** Indexing *)

Section Indexing.

Import TensorData.

Lemma getitem_invalid st t o idx :
  objs st !! t = Some o ->
  valid_index idx (_shape (_tensor o)) = false ->
  Tensor___getitem__ t idx st = (Raise IndexError, st).
Proof.
  intros Ho Hv. unfold Tensor___getitem__.
  rewrite (bind_run _ _ _ _ _ (deref_run _ _ _ Ho)).
  unfold get, index, bind. by rewrite Hv.
Qed.

Lemma setitem_invalid st t o idx x :
  objs st !! t = Some o ->
  valid_index idx (_shape (_tensor o)) = false ->
  Tensor___setitem__ t idx x st = (Raise IndexError, st).
Proof.
  intros Ho Hv. unfold Tensor___setitem__.
  rewrite (bind_run _ _ _ _ _ (deref_run _ _ _ Ho)).
  unfold set, index, bind. by rewrite Hv.
Qed.

(** Two multi-indices of a contiguous buffer never share a position. *)
Lemma index_to_position_inj shape idx idx' :
  valid_index idx shape = true ->
  valid_index idx' shape = true ->
  index_to_position idx (strides_from_shape shape)
    = index_to_position idx' (strides_from_shape shape) ->
  idx = idx'.
Proof.
  intros H1%lookup_at_position H2%lookup_at_position E.
  rewrite E in H1. congruence.
Qed.

(** A value set through one tensor object is read through every object
    that has the same buffer. *)
Lemma setitem_visible st a b oa ob key val st' :
  objs st !! a = Some oa ->
  objs st !! b = Some ob ->
  _tensor ob = _tensor oa ->
  Tensor___setitem__ a key val st = (Ok tt, st') ->
  Tensor___getitem__ b key st' = (Ok val, st').
Proof.
  intros Ha Hb E. unfold Tensor___setitem__.
  rewrite (bind_run _ _ _ _ _ (deref_run _ _ _ Ha)).
  unfold set, index.
  destruct (valid_index key (_shape (_tensor oa))) eqn:Hv; [|done].
  rewrite ret_bind. unfold list_setitem.
  destruct (heap st !! _storage (_tensor oa)) as [l|] eqn:Hl; [|done].
  destruct (decide _) as [Hlt|]; [|done].
  intros [= <-].
  eapply getitem_run; [done|]. rewrite E. unfold read. rewrite Hv. cbn [heap].
  rewrite list_lookup_insert_eq by (by eapply lookup_lt_Some). simpl.
  by apply list_lookup_insert_eq.
Qed.

End Indexing.

(** X1. [t[key] = val] on a contiguous tensor: an index outside the shape
    raises IndexError and changes nothing; otherwise [t[key]] then reads
    [val], and reading any other index gives what it gave before. *)
Theorem setitem_then_getitem (st : Store) (t : nat) (o : Tensor)
    (l : list float) (key : list nat) (val : float) :
  objs st !! t = Some o ->
  TensorData.is_contiguous (_tensor o) = true ->
  heap st !! _storage (_tensor o) = Some l ->
  length l = TensorData.size (_tensor o) ->
  (TensorData.valid_index key (_shape (_tensor o)) = false ->
   Tensor___setitem__ t key val st = (Raise IndexError, st)) /\
  (TensorData.valid_index key (_shape (_tensor o)) = true ->
   exists st',
     Tensor___setitem__ t key val st = (Ok tt, st') /\
     Tensor___getitem__ t key st' = (Ok val, st') /\
     forall key', key' <> key ->
       fst (Tensor___getitem__ t key' st')
         = fst (Tensor___getitem__ t key' st)).
Proof.
  intros Ho Hc%bool_decide_eq_true Hl Hlen. unfold TensorData.size in Hlen.
  split; [by apply setitem_invalid|]. intros Hv.
  pose proof (index_to_position_lt _ _ Hv) as Hlt.
  rewrite <- Hc, <- Hlen in Hlt.
  pose proof (setitem_run st t o key val l Ho Hv Hl Hlt) as Hset.
  eexists. split; [exact Hset|].
  split; [by eapply setitem_visible|].
  intros key' Hne.
  destruct (TensorData.valid_index key' (_shape (_tensor o))) eqn:Hv'.
  - pose proof (index_to_position_lt _ _ Hv') as Hlt'.
    rewrite <- Hc, <- Hlen in Hlt'.
    destruct (lookup_lt_is_Some_2 _ _ Hlt') as [x Hx].
    erewrite (getitem_run st); [|done|]; cycle 1.
    { unfold read. rewrite Hv', Hl. simpl. exact Hx. }
    erewrite getitem_run; [done|done|].
    unfold read. rewrite Hv'. cbn [heap].
    rewrite list_lookup_insert_eq by (by eapply lookup_lt_Some). simpl.
    rewrite list_lookup_insert_ne; [done|].
    rewrite Hc. intros E. apply Hne. symmetry.
    by apply (index_to_position_inj (_shape (_tensor o))).
  - rewrite !(getitem_invalid _ _ o) by done. done.
Qed.

Lemma setitem_then_getitem_witness :
  (TensorData.valid_index [1; 2] [2; 3] = false ->
   Tensor___setitem__ 0 [1; 2] 9%float store_matrix
     = (Raise IndexError, store_matrix)) /\
  (TensorData.valid_index [1; 2] [2; 3] = true ->
   exists st',
     Tensor___setitem__ 0 [1; 2] 9%float store_matrix = (Ok tt, st') /\
     Tensor___getitem__ 0 [1; 2] st' = (Ok 9%float, st') /\
     forall key', key' <> [1; 2] ->
       fst (Tensor___getitem__ 0 key' st')
         = fst (Tensor___getitem__ 0 key' store_matrix)).
Proof.
  apply (setitem_then_getitem store_matrix 0
           (fresh (mkTensorData 0 [2; 3] [3; 1]) TensorFunctions)
           [1%float; 2%float; 3%float; 4%float; 5%float; 6%float]
           [1; 2] 9%float);
    reflexivity.
Defined.

(** ** Copies of the tensor object: cuda, get_data *)

(** X2. [t.cuda()] creates a tensor object over the buffer of [t], with
    the history and the name of [t]; as [CudaTensorFunctions] is [None],
    the constructor gives it [TensorFunctions], whatever the backend of
    [t] was.  The buffer is shared: a value set through the new object is
    read through [t]. *)
Theorem cuda_keeps_sequential_backend (st : Store) (self : nat)
    (o : Tensor) :
  objs st !! self = Some o ->
  exists oc,
    let st1 := mkStore (heap st) (objs st ++ [oc]) in
    Tensor_cuda self st = (Ok (length (objs st)), st1) /\
    tf oc = TensorFunctions /\
    _tensor oc = _tensor o /\
    back oc = back o /\
    name oc = name o /\
    forall key val st',
      Tensor___setitem__ (length (objs st)) key val st1 = (Ok tt, st') ->
      Tensor___getitem__ self key st' = (Ok val, st').
Proof.
  intros Ho. eexists. cbv zeta. split.
  { unfold Tensor_cuda. rewrite (bind_run _ _ _ _ _ (deref_run _ _ _ Ho)).
    reflexivity. }
  repeat (split; [reflexivity|]).
  intros key val st' Hset.
  eapply (setitem_visible _ (length (objs st)) self _ o);
    [| | |exact Hset]; cbn [objs].
  - by apply list_lookup_middle.
  - by apply lookup_app_l_Some.
  - reflexivity.
Qed.

Definition store_other_backend : Store :=
  mkStore [[1%float; 2%float; 3%float]]
    [mkTensor (mkTensorData 0 [3] [1]) None (Some "w"%string) None true
       (make_tensor_functions OtherOps)].

Lemma cuda_keeps_sequential_backend_witness :
  exists oc,
    let st1 := mkStore (heap store_other_backend)
                 (objs store_other_backend ++ [oc]) in
    Tensor_cuda 0 store_other_backend = (Ok 1, st1) /\
    tf oc = TensorFunctions /\
    _tensor oc = mkTensorData 0 [3] [1] /\
    back oc = None /\
    name oc = Some "w"%string /\
    forall key val st',
      Tensor___setitem__ 1 key val st1 = (Ok tt, st') ->
      Tensor___getitem__ 0 key st' = (Ok val, st').
Proof.
  apply (cuda_keeps_sequential_backend store_other_backend 0
           (mkTensor (mkTensorData 0 [3] [1]) None (Some "w"%string) None
              true (make_tensor_functions OtherOps))).
  reflexivity.
Defined.

(** X3. [t.get_data()] creates a tensor object over the buffer of [t]
    without history and with [TensorFunctions] as its backend, and leaves
    [t] as it was; the buffer is shared, so a value set through the new
    object is read through [t]. *)
Theorem get_data_detaches (st : Store) (self : nat) (o : Tensor) :
  objs st !! self = Some o ->
  exists od,
    let st1 := mkStore (heap st) (objs st ++ [od]) in
    Tensor_get_data self st = (Ok (length (objs st)), st1) /\
    back od = None /\
    tf od = TensorFunctions /\
    _tensor od = _tensor o /\
    objs st1 !! self = Some o /\
    forall key val st',
      Tensor___setitem__ (length (objs st)) key val st1 = (Ok tt, st') ->
      Tensor___getitem__ self key st' = (Ok val, st').
Proof.
  intros Ho. eexists. cbv zeta. split.
  { by apply Tensor_get_data_run. }
  repeat (split; [reflexivity|]).
  split; [by apply lookup_app_l_Some|].
  intros key val st' Hset.
  eapply (setitem_visible _ (length (objs st)) self _ o);
    [| | |exact Hset]; cbn [objs].
  - by apply list_lookup_middle.
  - by apply lookup_app_l_Some.
  - reflexivity.
Qed.

Lemma get_data_detaches_witness :
  exists od,
    let st1 := mkStore (heap store_other_backend)
                 (objs store_other_backend ++ [od]) in
    Tensor_get_data 0 store_other_backend = (Ok 1, st1) /\
    back od = None /\
    tf od = TensorFunctions /\
    _tensor od = mkTensorData 0 [3] [1] /\
    objs st1 !! 0 =
      Some (mkTensor (mkTensorData 0 [3] [1]) None (Some "w"%string) None
              true (make_tensor_functions OtherOps)) /\
    forall key val st',
      Tensor___setitem__ 1 key val st1 = (Ok tt, st') ->
      Tensor___getitem__ 0 key st' = (Ok val, st').
Proof.
  apply (get_data_detaches store_other_backend 0
           (mkTensor (mkTensorData 0 [3] [1]) None (Some "w"%string) None
              true (make_tensor_functions OtherOps))).
  reflexivity.
Defined.

(** ** Construction: zeros, tensor *)

(** X4. [t.zeros(shape)] creates a contiguous tensor of the given shape
    ([t.shape] when [shape] is [None]) over a new storage, with the
    backend of [t]: every index of the shape reads 0.0, any other index
    raises IndexError; [t] is left as it was. *)
Theorem zeros_reads (st : Store) (self : nat) (o : Tensor)
    (shape : option (list nat)) :
  objs st !! self = Some o ->
  let s := default (_shape (_tensor o)) shape in
  exists z st' oz,
    Tensor_zeros self shape st = (Ok z, st') /\
    objs st' !! z = Some oz /\
    objs st' !! self = Some o /\
    tf oz = tf o /\
    _shape (_tensor oz) = s /\
    TensorData.is_contiguous (_tensor oz) = true /\
    _storage (_tensor oz) = length (heap st) /\
    forall idx,
      Tensor___getitem__ z idx st' =
        (if TensorData.valid_index idx s then Ok 0%float
         else Raise IndexError, st').
Proof.
  intros Ho s.
  assert (Tensor_zeros self shape st = Tensor_zeros self (Some s) st) as ->.
  { destruct shape; [done|]. unfold Tensor_zeros.
    by rewrite !(bind_run _ _ _ _ _ (deref_run _ _ _ Ho)). }
  rewrite (Tensor_zeros_run _ _ _ s Ho).
  eexists _, _, _. split; [reflexivity|]. cbn [objs heap].
  split; [by apply list_lookup_middle|].
  split; [by apply lookup_app_l_Some|].
  repeat (split; [reflexivity|]).
  split; [by apply bool_decide_eq_true_2|]. split; [reflexivity|].
  intros idx. destruct (TensorData.valid_index idx s) eqn:Hv.
  - eapply getitem_run; [by apply list_lookup_middle|].
    cbn [fresh _tensor heap].
    apply (read_contiguous _ _ _ (fun _ => 0%float)); [|done].
    rewrite fmap_const_indices. by apply list_lookup_middle.
  - eapply getitem_invalid; [by apply list_lookup_middle|done].
Qed.

Lemma zeros_reads_witness :
  exists z st' oz,
    Tensor_zeros 0 (Some [2; 2]) store_other_backend = (Ok z, st') /\
    objs st' !! z = Some oz /\
    objs st' !! 0 =
      Some (mkTensor (mkTensorData 0 [3] [1]) None (Some "w"%string) None
              true (make_tensor_functions OtherOps)) /\
    tf oz = make_tensor_functions OtherOps /\
    _shape (_tensor oz) = [2; 2] /\
    TensorData.is_contiguous (_tensor oz) = true /\
    _storage (_tensor oz) = 1 /\
    forall idx,
      Tensor___getitem__ z idx st' =
        (if TensorData.valid_index idx [2; 2] then Ok 0%float
         else Raise IndexError, st').
Proof.
  apply (zeros_reads store_other_backend 0
           (mkTensor (mkTensorData 0 [3] [1]) None (Some "w"%string) None
              true (make_tensor_functions OtherOps)) (Some [2; 2])).
  reflexivity.
Defined.

(** X5. [tensor(ls)] and [tensor(ls, shape=())] are the same call (an
    empty shape is replaced like [None]): a tensor of shape [(len(ls),)]
    with the default backend over a new storage, whose entry [i] is
    [ls[i]]; an index beyond [len(ls)] raises IndexError. *)
Theorem tensor_default_shape (st : Store) (ls : list float) :
  tensor ls (Some []) st = tensor ls None st /\
  exists t st' ot,
    tensor ls None st = (Ok t, st') /\
    objs st' !! t = Some ot /\
    _shape (_tensor ot) = [length ls] /\
    tf ot = TensorFunctions /\
    back ot = None /\
    forall i,
      Tensor___getitem__ t [i] st' =
        (match ls !! i with
         | Some v => Ok v
         | None => Raise IndexError
         end, st').
Proof.
  split; [reflexivity|]. rewrite tensor_run.
  eexists _, _, _. split; [reflexivity|]. cbn [objs heap].
  split; [by apply list_lookup_middle|].
  repeat (split; [reflexivity|]).
  intros i. destruct (ls !! i) as [v|] eqn:Hi.
  - eapply getitem_run; [by apply list_lookup_middle|].
    unfold read. cbn [fresh _tensor _shape _strides _storage heap].
    cbn [TensorData.valid_index]. apply lookup_lt_Some in Hi as Hlt.
    apply Nat.ltb_lt in Hlt as ->. cbn [andb].
    rewrite list_lookup_middle by done. simpl.
    by rewrite Nat.mul_1_r, Nat.add_0_r.
  - eapply getitem_invalid; [by apply list_lookup_middle|].
    cbn [fresh _tensor _shape TensorData.valid_index].
    apply lookup_ge_None in Hi. apply Nat.ltb_ge in Hi as ->. done.
Qed.

(** ** Operations that are not implemented *)

Lemma apply1_raise cls fwd st a oa e st2 :
  objs st !! a = Some oa ->
  fwd (mkContext VNone) [VTensor (length (objs st))]
    (mkStore (heap st) (objs st ++ [fresh (_tensor oa) TensorFunctions]))
    = (Raise e, st2) ->
  FunctionBase_apply cls fwd [VTensor a] st = (Raise e, st2).
Proof.
  intros Ha Hfwd. unfold FunctionBase_apply. cbn [list_comp]. mnorm.
  rewrite (bind_run _ _ _ _ _ (Tensor_get_data_run _ _ _ Ha)). mnorm.
  erewrite (bind_run (deref a)); [|apply deref_run; simpl;
    by apply lookup_app_l_Some].
  mnorm. by rewrite (bind_raise _ _ _ _ _ Hfwd).
Qed.

Lemma apply1c_raise cls fwd st a v oa e st2 :
  objs st !! a = Some oa ->
  is_constant v ->
  fwd (mkContext VNone) [VTensor (length (objs st)); v]
    (mkStore (heap st) (objs st ++ [fresh (_tensor oa) TensorFunctions]))
    = (Raise e, st2) ->
  FunctionBase_apply cls fwd [VTensor a; v] st = (Raise e, st2).
Proof.
  intros Ha Hv Hfwd. unfold FunctionBase_apply. cbn [list_comp]. mnorm.
  rewrite (bind_run _ _ _ _ _ (Tensor_get_data_run _ _ _ Ha)). mnorm.
  assert (forall st',
    match v with
    | VTensor t => d <- Tensor_get_data t ;; ret (VTensor d)
    | _ => ret v
    end st' = (Ok v, st')) as Hv1 by (intros st'; by destruct v).
  rewrite (bind_run _ _ _ _ _ (Hv1 _)). mnorm.
  erewrite (bind_run (deref a)); [|apply deref_run; simpl;
    by apply lookup_app_l_Some].
  mnorm.
  assert (forall st',
    match v with
    | VTensor t => o <- deref t ;; ret (requires_grad o)
    | _ => ret false
    end st' = (Ok false, st')) as Hv2 by (intros st'; by destruct v).
  rewrite (bind_run _ _ _ _ _ (Hv2 _)). mnorm.
  by rewrite (bind_raise _ _ _ _ _ Hfwd).
Qed.

Lemma apply2_raise cls fwd st a b oa ob e st2 :
  objs st !! a = Some oa ->
  objs st !! b = Some ob ->
  fwd (mkContext VNone)
    [VTensor (length (objs st)); VTensor (S (length (objs st)))]
    (mkStore (heap st)
       (objs st ++ [fresh (_tensor oa) TensorFunctions;
                    fresh (_tensor ob) TensorFunctions]))
    = (Raise e, st2) ->
  FunctionBase_apply cls fwd [VTensor a; VTensor b] st = (Raise e, st2).
Proof.
  intros Ha Hb Hfwd. unfold FunctionBase_apply. cbn [list_comp]. mnorm.
  rewrite (bind_run _ _ _ _ _ (Tensor_get_data_run _ _ _ Ha)). mnorm.
  erewrite (bind_run (Tensor_get_data b)); [|apply Tensor_get_data_run; simpl;
    by apply lookup_app_l_Some].
  mnorm. simpl.
  erewrite (bind_run (deref a)); [|apply deref_run; simpl;
    rewrite <- app_assoc; by apply lookup_app_l_Some].
  mnorm.
  erewrite (bind_run (deref b)); [|apply deref_run; simpl;
    rewrite <- app_assoc; by apply lookup_app_l_Some].
  mnorm.
  rewrite <- app_assoc, length_app, Nat.add_1_r. simpl.
  by rewrite (bind_raise _ _ _ _ _ Hfwd).
Qed.

(** The right operand is a number or a tensor of the store. *)
Definition operand_in (st : Store) (b : Operand) : Prop :=
  match b with
  | OTensor t => is_Some (objs st !! t)
  | ONumber _ => True
  end.

Lemma ensure_tensor_run st b :
  operand_in st b ->
  exists t st' ot,
    ensure_tensor b st = (Ok t, st') /\
    objs st' !! t = Some ot /\
    objs st `prefix_of` objs st'.
Proof.
  destruct b as [t|x]; simpl.
  - intros [ot Hot]. by exists t, st, ot.
  - intros _. rewrite tensor_run. eexists _, _, _. split; [done|].
    cbn [objs]. split; [by apply list_lookup_middle|by apply prefix_app_r].
Qed.

(** X6. The operations whose class in [make_tensor_functions] is left
    unimplemented ([Mul], [LT], [Sigmoid], [ReLU], [Log], [Mean]) raise
    NotImplementedError on every tensor, every right operand and every
    backend: [*], [<], [>], [sigmoid], [relu], [log] and [mean] never
    return a tensor. *)
Theorem unimplemented_operations_raise (other : Backend) (st : Store)
    (self : nat) (o : Tensor) (b : Operand) (dim : option nat) :
  objs st !! self = Some o ->
  operand_in st b ->
  let e : result nat := Raise (NotImplementedError past_assignment) in
  fst (Tensor___mul__ other self b st) = e /\
  fst (Tensor___lt__ other self b st) = e /\
  fst (Tensor___gt__ other self b st) = e /\
  fst (Tensor_sigmoid other self st) = e /\
  fst (Tensor_relu other self st) = e /\
  fst (Tensor_log other self st) = e /\
  fst (Tensor_mean other self dim st) = e.
Proof.
  intros Ho Hb e.
  destruct (ensure_tensor_run st b Hb) as (t & st' & ot & Hrun & Hot & Hp).
  pose proof (prefix_lookup_Some _ _ _ _ Ho Hp) as Ho'.
  unfold Tensor___mul__, Tensor___lt__, Tensor___gt__, Tensor_sigmoid,
    Tensor_relu, Tensor_log, Tensor_mean, apply.
  rewrite !(bind_run _ _ _ _ _ (deref_run _ _ _ Ho)).
  rewrite !(bind_run _ _ _ _ _ Hrun).
  repeat split.
  - by erewrite apply2_raise.
  - by erewrite apply2_raise.
  - by erewrite apply2_raise.
  - by erewrite apply1_raise.
  - by erewrite apply1_raise.
  - by erewrite apply1_raise.
  - erewrite apply1c_raise; [done|done|by destruct dim|by destruct dim].
Qed.

Lemma unimplemented_operations_raise_witness :
  let e : result nat := Raise (NotImplementedError past_assignment) in
  fst (Tensor___mul__ TensorOps.backend 0 (OTensor 1) two_vectors) = e /\
  fst (Tensor___lt__ TensorOps.backend 0 (OTensor 1) two_vectors) = e /\
  fst (Tensor___gt__ TensorOps.backend 0 (OTensor 1) two_vectors) = e /\
  fst (Tensor_sigmoid TensorOps.backend 0 two_vectors) = e /\
  fst (Tensor_relu TensorOps.backend 0 two_vectors) = e /\
  fst (Tensor_log TensorOps.backend 0 two_vectors) = e /\
  fst (Tensor_mean TensorOps.backend 0 (Some 0) two_vectors) = e.
Proof.
  apply (unimplemented_operations_raise TensorOps.backend two_vectors 0
           (fresh (mkTensorData 0 [2] [1]) TensorFunctions)
           (OTensor 1) (Some 0)).
  - reflexivity.
  - eexists. reflexivity.
Defined.

(** ** Arithmetic on entries *)

Lemma float_opp_involutive (x : float) : (- - x = x)%float.
Proof.
  apply Prim2SF_inj. rewrite !opp_spec.
  destruct (Prim2SF x) as [s|s| |s m e]; simpl; by rewrite ?negb_involutive.
Qed.

Section Entries.

Import TensorData.

Variable other : Backend.

(** What a successful [t[idx]] says about the store. *)
Lemma getitem_read st t o idx v st' :
  objs st !! t = Some o ->
  Tensor___getitem__ t idx st = (Ok v, st') ->
  valid_index idx (_shape (_tensor o)) = true /\
  entry (heap st) (_tensor o) idx = v.
Proof.
  intros Ho. unfold Tensor___getitem__.
  rewrite (bind_run _ _ _ _ _ (deref_run _ _ _ Ho)).
  unfold get, index, entry, read.
  destruct (valid_index idx (_shape (_tensor o))); [|done].
  rewrite ret_bind. unfold list_getitem, read_list, bind.
  destruct (heap st !! _storage (_tensor o)) as [l|]; [|done]. simpl.
  destruct (l !! _) as [x|]; [|done]. by intros [= -> _].
Qed.

Lemma getitem_entry st t o idx :
  objs st !! t = Some o ->
  well_formed (heap st) (_tensor o) = true ->
  valid_index idx (_shape (_tensor o)) = true ->
  Tensor___getitem__ t idx st = (Ok (entry (heap st) (_tensor o) idx), st).
Proof.
  intros Ho Hwf Hv. eapply getitem_run; [done|]. by apply well_formed_read.
Qed.

(** [-a] *)
Lemma neg_rel st a oa :
  objs st !! a = Some oa ->
  tf oa = TensorFunctions ->
  well_formed (heap st) (_tensor oa) = true ->
  exists r st' or,
    Tensor___neg__ other a st = (Ok r, st') /\
    heap st `prefix_of` heap st' /\
    objs st `prefix_of` objs st' /\
    objs st' !! r = Some or /\
    tf or = TensorFunctions /\
    _shape (_tensor or) = _shape (_tensor oa) /\
    well_formed (heap st') (_tensor or) = true /\
    forall idx, valid_index idx (_shape (_tensor oa)) = true ->
      entry (heap st') (_tensor or) idx
        = operators.neg (entry (heap st) (_tensor oa) idx).
Proof.
  intros Ha Htf Hwf.
  pose proof (neg_run other st a oa (entry (heap st) (_tensor oa)) Ha Htf
                (fun idx Hv => well_formed_read _ _ _ Hwf Hv)) as Hrun.
  cbv zeta in Hrun. eexists _, _, _. split; [exact Hrun|]. cbn [heap objs].
  split; [by apply prefix_app_r|]. split; [by apply prefix_app_r|].
  split; [lookup_obj|]. split; [done|]. split; [done|].
  cbn [recorded Variable___init__ _tensor]. split.
  - eapply well_formed_contiguous. by apply list_lookup_middle.
  - intros idx Hv.
    apply (entry_contiguous _ _ _
             (fun idx => operators.neg (entry (heap st) (_tensor oa) idx)));
      [by apply list_lookup_middle|done].
Qed.

End Entries.

(** X7. [-(-x)] has the shape of [x] and, at every index, the very entry
    of [x]: negating twice gives back each float bit for bit. *)
Theorem neg_involution (other : Backend) (st : Store) (x : nat)
    (ox : Tensor) :
  objs st !! x = Some ox ->
  tf ox = TensorFunctions ->
  well_formed (heap st) (_tensor ox) = true ->
  exists n st1 m st2,
    Tensor___neg__ other x st = (Ok n, st1) /\
    Tensor___neg__ other n st1 = (Ok m, st2) /\
    Tensor_shape m st2 = (Ok (_shape (_tensor ox)), st2) /\
    forall idx v,
      Tensor___getitem__ x idx st = (Ok v, st) ->
      Tensor___getitem__ m idx st2 = (Ok v, st2).
Proof.
  intros Hx Htf Hwf.
  destruct (neg_rel other st x ox Hx Htf Hwf)
    as (n & st1 & on & Hrun1 & Hp1 & Hq1 & Hn & Htfn & Hsn & Hwn & Hen).
  destruct (neg_rel other st1 n on Hn Htfn Hwn)
    as (m & st2 & om & Hrun2 & Hp2 & Hq2 & Hm & Htfm & Hsm & Hwm & Hem).
  exists n, st1, m, st2. split; [done|]. split; [done|]. split.
  { rewrite (Tensor_shape_run _ _ _ Hm). congruence. }
  intros idx v Hget. destruct (getitem_read _ _ _ _ _ _ Hx Hget) as [Hv <-].
  rewrite (getitem_entry _ _ _ _ Hm Hwm) by congruence.
  rewrite Hem by congruence. rewrite Hen by done.
  unfold operators.neg. by rewrite float_opp_involutive.
Qed.

Lemma neg_involution_witness :
  exists n st1 m st2,
    Tensor___neg__ TensorOps.backend 0 store_matrix = (Ok n, st1) /\
    Tensor___neg__ TensorOps.backend n st1 = (Ok m, st2) /\
    Tensor_shape m st2 = (Ok [2; 3], st2) /\
    forall idx v,
      Tensor___getitem__ 0 idx store_matrix = (Ok v, store_matrix) ->
      Tensor___getitem__ m idx st2 = (Ok v, st2).
Proof.
  apply (neg_involution TensorOps.backend store_matrix 0
           (fresh (mkTensorData 0 [2; 3] [3; 1]) TensorFunctions));
    reflexivity.
Defined.

(** X8. [a - b], computed as [a + (-b)], has at every index exactly the
    IEEE difference of the entries of [a] and [b] (tensors of one shape). *)
Theorem sub_entries (other : Backend) (st : Store) (a b : nat)
    (oa ob : Tensor) :
  objs st !! a = Some oa ->
  objs st !! b = Some ob ->
  tf oa = TensorFunctions ->
  tf ob = TensorFunctions ->
  _shape (_tensor ob) = _shape (_tensor oa) ->
  well_formed (heap st) (_tensor oa) = true ->
  well_formed (heap st) (_tensor ob) = true ->
  exists r st',
    Tensor___sub__ other a (OTensor b) st = (Ok r, st') /\
    Tensor_shape r st' = (Ok (_shape (_tensor oa)), st') /\
    forall idx va vb,
      Tensor___getitem__ a idx st = (Ok va, st) ->
      Tensor___getitem__ b idx st = (Ok vb, st) ->
      Tensor___getitem__ r idx st' = (Ok (va - vb)%float, st').
Proof.
  intros Ha Hb Htfa Htfb Hshape Hwa Hwb.
  destruct (sub_rel other st a b oa ob Ha Hb Htfa Htfb Hshape Hwa Hwb)
    as (r & st' & or & Hrun & Hp & Hq & Hr & Htfr & Hsr & Hwr & Her).
  exists r, st'. split; [done|]. split.
  { rewrite (Tensor_shape_run _ _ _ Hr). congruence. }
  intros idx va vb Hga Hgb.
  destruct (getitem_read _ _ _ _ _ _ Ha Hga) as [Hv <-].
  destruct (getitem_read _ _ _ _ _ _ Hb Hgb) as [_ <-].
  rewrite (getitem_entry _ _ _ _ Hr Hwr) by congruence.
  by rewrite Her.
Qed.

Lemma sub_entries_witness :
  exists r st',
    Tensor___sub__ TensorOps.backend 0 (OTensor 1) two_vectors = (Ok r, st') /\
    Tensor_shape r st' = (Ok [2], st') /\
    forall idx va vb,
      Tensor___getitem__ 0 idx two_vectors = (Ok va, two_vectors) ->
      Tensor___getitem__ 1 idx two_vectors = (Ok vb, two_vectors) ->
      Tensor___getitem__ r idx st' = (Ok (va - vb)%float, st').
Proof.
  apply (sub_entries TensorOps.backend two_vectors 0 1
           (fresh (mkTensorData 0 [2] [1]) TensorFunctions)
           (fresh (mkTensorData 1 [2] [1]) TensorFunctions));
    reflexivity.
Defined.

(** X9. [x + c] for a Python number [c]: the number becomes the tensor
    [tensor([c])], which is broadcast over [x]; the result has the shape of
    [x] (of at least one dimension) and the entry [x[idx] + c] at every
    index. *)
Theorem add_number (other : Backend) (st : Store) (x : nat) (ox : Tensor)
    (c : float) :
  objs st !! x = Some ox ->
  tf ox = TensorFunctions ->
  well_formed (heap st) (_tensor ox) = true ->
  _shape (_tensor ox) <> [] ->
  exists r st',
    Tensor___add__ other x (ONumber c) st = (Ok r, st') /\
    Tensor_shape r st' = (Ok (_shape (_tensor ox)), st') /\
    forall idx v,
      Tensor___getitem__ x idx st = (Ok v, st) ->
      Tensor___getitem__ r idx st' = (Ok (v + c)%float, st').
Proof.
  intros Hx Htf Hwf Hne.
  set (st1 := mkStore (heap st ++ [[c]])
                (objs st ++ [fresh (mkTensorData (length (heap st)) [1] [1])
                               TensorFunctions])).
  assert (objs st1 !! x = Some ox) as Hx1
    by (subst st1; by apply lookup_app_l_Some).
  assert (objs st1 !! length (objs st)
            = Some (fresh (mkTensorData (length (heap st)) [1] [1])
                      TensorFunctions)) as Hb
    by (subst st1; by apply list_lookup_middle).
  pose proof (add_run other st1 x (length (objs st)) ox _
                (_shape (_tensor ox)) (entry (heap st) (_tensor ox))
                (fun _ => c) Hx1 Hb Htf) as Hadd.
  cbv zeta in Hadd. cbn [fresh _tensor _shape] in Hadd.
  rewrite (shape_broadcast_fits_r _ _ (fits_one _ Hne)) in Hadd.
  specialize (Hadd eq_refl).
  assert (Tensor___add__ other x (ONumber c) st
            = Tensor___add__ other x (OTensor (length (objs st))) st1) as ->.
  { unfold Tensor___add__.
    rewrite (bind_run _ _ _ _ _ (deref_run _ _ _ Hx)).
    rewrite (bind_run _ _ _ _ _ (deref_run _ _ _ Hx1)).
    cbn [ensure_tensor]. by rewrite (bind_run _ _ _ _ _ (tensor_run _ _)). }
  rewrite Hadd; cycle 1.
  { intros idx Hv. rewrite (broadcast_index_same _ _ Hv).
    eapply read_prefix; [|by apply well_formed_read].
    subst st1. by apply prefix_app_r. }
  { intros idx Hv. rewrite (broadcast_index_one _ _ Hne Hv).
    unfold read. subst st1. cbn [_shape _storage _strides heap].
    rewrite list_lookup_middle by done. reflexivity. }
  eexists _, _. split; [reflexivity|]. split.
  { erewrite Tensor_shape_run; [|cbn [objs]; lookup_obj]. reflexivity. }
  intros idx v Hget. destruct (getitem_read _ _ _ _ _ _ Hx Hget) as [Hv <-].
  eapply getitem_run; [cbn [objs]; lookup_obj|].
  cbn [recorded Variable___init__ _tensor heap].
  apply (read_contiguous _ _ _
           (fun idx => operators.add (entry (heap st) (_tensor ox) idx) c));
    [|done].
  by apply list_lookup_middle.
Qed.

Lemma add_number_witness :
  exists r st',
    Tensor___add__ TensorOps.backend 0 (ONumber 10) store_matrix
      = (Ok r, st') /\
    Tensor_shape r st' = (Ok [2; 3], st') /\
    forall idx v,
      Tensor___getitem__ 0 idx store_matrix = (Ok v, store_matrix) ->
      Tensor___getitem__ r idx st' = (Ok (v + 10)%float, st').
Proof.
  apply (add_number TensorOps.backend store_matrix 0
           (fresh (mkTensorData 0 [2; 3] [3; 1]) TensorFunctions) 10%float);
    try reflexivity.
  simpl. discriminate.
Defined.

(** ** contiguous *)

Section Copies.

Import TensorData.

Variable other : Backend.

Lemma contiguous_run st a oa (ra : list nat -> float) :
  objs st !! a = Some oa ->
  tf oa = TensorFunctions ->
  (forall idx, valid_index idx (_shape (_tensor oa)) = true ->
     read (heap st) (_tensor oa) idx = Some (ra idx)) ->
  let v := mkTensorData (length (heap st)) (_shape (_tensor oa))
             (strides_from_shape (_shape (_tensor oa))) in
  Tensor_contiguous other a st =
    (Ok (length (objs st) + 2),
     mkStore
       (heap st ++ [(fun idx => operators.id (ra idx))
                      <$> indices (_shape (_tensor oa))])
       (objs st ++
          [fresh (_tensor oa) TensorFunctions;
           fresh v TensorFunctions;
           recorded (requires_grad oa) (TensorFunctions, Copy)
             (mkContext VNone) [VTensor a] v TensorFunctions])).
Proof.
  intros Ha Htf Hra v. unfold Tensor_contiguous, apply.
  rewrite (bind_run _ _ _ _ _ (deref_run _ _ _ Ha)). rewrite Htf.
  erewrite apply1_run; [|done| |]; cycle 1.
  - cbn [forward]. unfold Copy_forward, id_map.
    change (backend_of other TensorFunctions) with TensorOps.backend.
    cbn [map TensorOps.backend].
    erewrite bind_run; [reflexivity|].
    eapply (map_run _ _ _ _ ra); [lookup_obj|done].
  - lookup_obj.
  - cbn [objs heap fresh _tensor tf]. f_equal.
    + f_equal. rewrite !length_app. simpl. lia.
    + rewrite <- !app_assoc. reflexivity.
Qed.

(** What a successful [t[key] = val] did to the store. *)
Lemma setitem_written st t o key val st' :
  objs st !! t = Some o ->
  Tensor___setitem__ t key val st = (Ok tt, st') ->
  exists l,
    heap st !! _storage (_tensor o) = Some l /\
    st' = mkStore (<[_storage (_tensor o) :=
                      <[index_to_position key (_strides (_tensor o)) := val]>
                        l]> (heap st))
            (objs st).
Proof.
  intros Ho. unfold Tensor___setitem__.
  rewrite (bind_run _ _ _ _ _ (deref_run _ _ _ Ho)).
  unfold set, index.
  destruct (valid_index key (_shape (_tensor o))); [|done].
  rewrite ret_bind. unfold list_setitem.
  destruct (heap st !! _storage (_tensor o)) as [l|]; [|done].
  destruct (decide _); [|done]. intros [= <-]. by exists l.
Qed.

End Copies.

(** X10. [a.contiguous()] gives a contiguous tensor of the shape of [a]
    with the entries of [a], also when [a] itself is not contiguous; so
    [a.contiguous().view(shape)] succeeds for every [shape] of the size
    of [a]. *)
Theorem contiguous_then_view (other : Backend) (st : Store) (a : nat)
    (oa : Tensor) (shape : list nat) :
  objs st !! a = Some oa ->
  tf oa = TensorFunctions ->
  well_formed (heap st) (_tensor oa) = true ->
  operators.prod shape = TensorData.size (_tensor oa) ->
  exists c st1 oc v st2 ov,
    Tensor_contiguous other a st = (Ok c, st1) /\
    objs st1 !! c = Some oc /\
    TensorData.is_contiguous (_tensor oc) = true /\
    _shape (_tensor oc) = _shape (_tensor oa) /\
    (forall idx x,
       Tensor___getitem__ a idx st = (Ok x, st) ->
       Tensor___getitem__ c idx st1 = (Ok x, st1)) /\
    Tensor_view c shape st1 = (Ok v, st2) /\
    objs st2 !! v = Some ov /\
    _shape (_tensor ov) = shape.
Proof.
  intros Ha Htf Hwf Hsize.
  pose proof (contiguous_run other st a oa (entry (heap st) (_tensor oa))
                Ha Htf (fun idx Hv => well_formed_read _ _ _ Hwf Hv)) as Hrun.
  cbv zeta in Hrun.
  set (vc := mkTensorData (length (heap st)) _ _) in Hrun.
  set (oc := recorded _ _ _ _ vc _) in Hrun.
  set (st1 := mkStore _ _) in Hrun.
  assert (objs st1 !! (length (objs st) + 2) = Some oc) as Hc
    by (subst st1; lookup_obj).
  epose proof (view_run st1 _ oc shape _ Hc) as Hview.
  cbv zeta in Hview.
  eexists _, st1, oc, _, _, _. split; [exact Hrun|]. split; [exact Hc|].
  split; [by apply bool_decide_eq_true_2|]. split; [reflexivity|]. split.
  { intros idx x Hget. destruct (getitem_read _ _ _ _ _ _ Ha Hget) as [Hv <-].
    eapply getitem_run; [exact Hc|].
    apply (read_contiguous _ _ _
             (fun idx => operators.id (entry (heap st) (_tensor oa) idx)));
      [|done].
    subst st1. by apply list_lookup_middle. }
  split.
  { apply Hview.
    - by apply bool_decide_eq_true_2.
    - subst st1. by apply list_lookup_middle.
    - by rewrite length_fmap, length_indices. }
  split; [lookup_obj|reflexivity].
Qed.

Lemma contiguous_then_view_witness :
  exists c st1 oc v st2 ov,
    Tensor_contiguous TensorOps.backend 0 store_permuted = (Ok c, st1) /\
    objs st1 !! c = Some oc /\
    TensorData.is_contiguous (_tensor oc) = true /\
    _shape (_tensor oc) = [3; 2] /\
    (forall idx x,
       Tensor___getitem__ 0 idx store_permuted = (Ok x, store_permuted) ->
       Tensor___getitem__ c idx st1 = (Ok x, st1)) /\
    Tensor_view c [6] st1 = (Ok v, st2) /\
    objs st2 !! v = Some ov /\
    _shape (_tensor ov) = [6].
Proof.
  apply (contiguous_then_view TensorOps.backend store_permuted 0
           (fresh (mkTensorData 0 [3; 2] [1; 3]) TensorFunctions) [6]);
    reflexivity.
Defined.

(** X11. [a.contiguous()] copies: the new tensor has a storage of its
    own, and setting an entry of it changes no entry of [a]. *)
Theorem contiguous_copies (other : Backend) (st : Store) (a : nat)
    (oa : Tensor) :
  objs st !! a = Some oa ->
  tf oa = TensorFunctions ->
  well_formed (heap st) (_tensor oa) = true ->
  exists c st1 oc,
    Tensor_contiguous other a st = (Ok c, st1) /\
    objs st1 !! c = Some oc /\
    _storage (_tensor oc) = length (heap st) /\
    forall key val st2,
      Tensor___setitem__ c key val st1 = (Ok tt, st2) ->
      forall key',
        Tensor___getitem__ a key' st2
          = (fst (Tensor___getitem__ a key' st), st2).
Proof.
  intros Ha Htf Hwf.
  pose proof (contiguous_run other st a oa (entry (heap st) (_tensor oa))
                Ha Htf (fun idx Hv => well_formed_read _ _ _ Hwf Hv)) as Hrun.
  cbv zeta in Hrun.
  set (vc := mkTensorData (length (heap st)) _ _) in Hrun.
  set (oc := recorded _ _ _ _ vc _) in Hrun.
  set (st1 := mkStore _ _) in Hrun.
  assert (objs st1 !! (length (objs st) + 2) = Some oc) as Hc
    by (subst st1; lookup_obj).
  eexists _, st1, oc. split; [exact Hrun|]. split; [exact Hc|].
  split; [reflexivity|].
  intros key val st2 Hset key'.
  destruct (setitem_written _ _ _ _ _ _ Hc Hset) as (l & Hl & ->).
  assert (objs st1 !! a = Some oa) as Ha1
    by (subst st1; by apply lookup_app_l_Some).
  destruct (TensorData.valid_index key' (_shape (_tensor oa))) eqn:Hv.
  - rewrite (getitem_entry _ _ _ _ Ha Hwf Hv). cbn [fst].
    eapply getitem_run; [exact Ha1|]. subst st1. cbn [heap].
    apply read_snoc. by apply well_formed_read.
  - rewrite (getitem_invalid _ _ _ _ Ha Hv). cbn [fst].
    by apply (getitem_invalid _ _ oa).
Qed.

Lemma contiguous_copies_witness :
  exists c st1 oc,
    Tensor_contiguous TensorOps.backend 0 store_matrix = (Ok c, st1) /\
    objs st1 !! c = Some oc /\
    _storage (_tensor oc) = 1 /\
    forall key val st2,
      Tensor___setitem__ c key val st1 = (Ok tt, st2) ->
      forall key',
        Tensor___getitem__ 0 key' st2
          = (fst (Tensor___getitem__ 0 key' store_matrix), st2).
Proof.
  apply (contiguous_copies TensorOps.backend store_matrix 0
           (fresh (mkTensorData 0 [2; 3] [3; 1]) TensorFunctions));
    reflexivity.
Defined.

(** ** view: there and back *)

Section View_back.

Import TensorData.

Lemma View_backward_run st g og original lg :
  objs st !! g = Some og ->
  heap st !! _storage (_tensor og) = Some lg ->
  length lg = operators.prod original ->
  View_backward (mkContext (VTuple original)) g st =
    (Ok [length (objs st)],
     mkStore (heap st)
       (objs st ++
          [fresh (mkTensorData (_storage (_tensor og)) original
                    (strides_from_shape original)) (tf og)])).
Proof.
  intros Hg Hl Hlen. unfold View_backward. cbn [saved_values].
  rewrite (bind_run _ _ _ _ _ (deref_run _ _ _ Hg)).
  erewrite (bind_run (Tensor_make _ _ _ _)); cycle 1.
  { by eapply Tensor_make_run. }
  cbn [default].
  unfold update_object, bind, ret. cbn [heap objs].
  rewrite list_lookup_middle by done. by rewrite snoc_insert.
Qed.

Lemma contiguous_buffer v :
  is_contiguous v = true ->
  mkTensorData (_storage v) (_shape v) (strides_from_shape (_shape v)) = v.
Proof. intros Hc%bool_decide_eq_true. destruct v; simpl in *. by subst. Qed.

End View_back.

(** X12. Viewing back: for a contiguous [a] and a shape of the size of
    [a], [a.view(shape).view(a.shape)] has the buffer of [a] (its storage,
    shape and strides) and no storage is created.  [View.backward] does
    this for gradients: with the shape saved by [View.forward] it gives,
    for a [grad_output] whose storage has the size of [a], a tensor of the
    shape of [a] over the storage of [grad_output], with the backend of
    [grad_output]. *)
Theorem view_round_trip (st : Store) (a : nat) (oa : Tensor)
    (shape : list nat) (l : list float) :
  objs st !! a = Some oa ->
  TensorData.is_contiguous (_tensor oa) = true ->
  heap st !! _storage (_tensor oa) = Some l ->
  length l = TensorData.size (_tensor oa) ->
  operators.prod shape = TensorData.size (_tensor oa) ->
  (exists v st1 w st2 ow,
     Tensor_view a shape st = (Ok v, st1) /\
     Tensor_view v (_shape (_tensor oa)) st1 = (Ok w, st2) /\
     objs st2 !! w = Some ow /\
     _tensor ow = _tensor oa /\
     heap st2 = heap st) /\
  (exists c r st1,
     View_forward (mkContext VNone) a shape st = (Ok (c, r), st1) /\
     forall g og lg,
       objs st1 !! g = Some og ->
       heap st1 !! _storage (_tensor og) = Some lg ->
       length lg = TensorData.size (_tensor oa) ->
       exists k st2 ok,
         View_backward c g st1 = (Ok [k], st2) /\
         objs st2 !! k = Some ok /\
         _shape (_tensor ok) = _shape (_tensor oa) /\
         _storage (_tensor ok) = _storage (_tensor og) /\
         tf ok = tf og).
Proof.
  intros Ha Hc Hl Hlen Hsize. unfold TensorData.size in *. split.
  - assert (length l = operators.prod shape) as Hlen' by congruence.
    pose proof (view_run st a oa shape l Ha Hc Hl Hlen') as Hrun1.
    cbv zeta in Hrun1.
    set (v := mkTensorData _ shape _) in Hrun1.
    set (ov := recorded _ _ _ _ v _) in Hrun1.
    set (st1 := mkStore _ _) in Hrun1.
    assert (objs st1 !! (length (objs st) + 2) = Some ov) as Hv
      by (subst st1; lookup_obj).
    pose proof (view_run st1 _ ov (_shape (_tensor oa)) l Hv) as Hrun2.
    cbv zeta in Hrun2.
    eexists _, st1, _, _, _. split; [exact Hrun1|]. split.
    { apply Hrun2; [by apply bool_decide_eq_true_2|done|done]. }
    split; [lookup_obj|]. split; [|reflexivity].
    cbn [recorded Variable___init__ _tensor ov v _storage].
    by apply contiguous_buffer.
  - unfold View_forward.
    rewrite (bind_run _ _ _ _ _ (deref_run _ _ _ Ha)). rewrite Hc.
    unfold assert. rewrite ret_bind.
    erewrite (bind_run (Tensor_make _ _ _ _)); cycle 1.
    { eapply Tensor_make_run; [done|congruence]. }
    unfold update_object at 1. unfold bind at 1. cbn [heap objs].
    rewrite list_lookup_middle by done. rewrite snoc_insert.
    eexists _, _, _. split; [reflexivity|].
    intros g og lg Hg Hlg Hlglen. unfold save_for_backward.
    rewrite (View_backward_run _ _ _ _ _ Hg Hlg Hlglen).
    eexists _, _, _. split; [reflexivity|].
    split; [by apply list_lookup_middle|]. done.
Qed.

Lemma view_round_trip_witness :
  (exists v st1 w st2 ow,
     Tensor_view 0 [3; 2] store_matrix = (Ok v, st1) /\
     Tensor_view v [2; 3] st1 = (Ok w, st2) /\
     objs st2 !! w = Some ow /\
     _tensor ow = mkTensorData 0 [2; 3] [3; 1] /\
     heap st2 = heap store_matrix) /\
  (exists c r st1,
     View_forward (mkContext VNone) 0 [3; 2] store_matrix
       = (Ok (c, r), st1) /\
     forall g og lg,
       objs st1 !! g = Some og ->
       heap st1 !! _storage (_tensor og) = Some lg ->
       length lg = 6 ->
       exists k st2 ok,
         View_backward c g st1 = (Ok [k], st2) /\
         objs st2 !! k = Some ok /\
         _shape (_tensor ok) = [2; 3] /\
         _storage (_tensor ok) = _storage (_tensor og) /\
         tf ok = tf og).
Proof.
  apply (view_round_trip store_matrix 0
           (fresh (mkTensorData 0 [2; 3] [3; 1]) TensorFunctions) [3; 2]
           [1%float; 2%float; 3%float; 4%float; 5%float; 6%float]);
    reflexivity.
Defined.

(** ** permute: the entries of the permuted tensor *)

Section Permuted_entries.

Import TensorData.

Lemma getitem_ok_read st t o idx v st' :
  objs st !! t = Some o ->
  Tensor___getitem__ t idx st = (Ok v, st') ->
  read (heap st) (_tensor o) idx = Some v.
Proof.
  intros Ho. unfold Tensor___getitem__.
  rewrite (bind_run _ _ _ _ _ (deref_run _ _ _ Ho)).
  unfold get, index, read.
  destruct (valid_index idx (_shape (_tensor o))); [|done].
  rewrite ret_bind. unfold list_getitem, read_list, bind.
  destruct (heap st !! _storage (_tensor o)) as [l|]; [|done]. simpl.
  destruct (l !! _) as [x|]; [|done]. by intros [= -> _].
Qed.

Lemma position_reorder (f g : nat -> nat) (order : list nat) :
  index_to_position (f <$> order) (g <$> order)
    = sum_list_with (fun o => f o * g o) order.
Proof.
  induction order as [|o order IH]; simpl; [done|]. f_equal. exact IH.
Qed.

Lemma sum_list_with_fmap {A B} (f : B -> nat) (g : A -> B) (l : list A) :
  sum_list_with f (g <$> l) = sum_list_with (fun x => f (g x)) l.
Proof. induction l as [|x l IH]; simpl; [done|]. f_equal. exact IH. Qed.

Lemma position_seq (idx strides : list nat) :
  length idx = length strides ->
  index_to_position idx strides
    = sum_list_with (fun o => nth o idx 0 * nth o strides 0)
        (seq 0 (length idx)).
Proof.
  revert strides. induction idx as [|i idx IH]; intros [|s strides] Hlen;
    try done.
  injection Hlen as Hlen. cbn [index_to_position length seq sum_list_with nth].
  f_equal. rewrite <- fmap_S_seq, sum_list_with_fmap. by apply IH.
Qed.

(** The position of a multi-index does not change when the index and the
    strides are reordered together. *)
Lemma position_permuted (idx strides order : list nat) :
  length idx = length strides ->
  order ≡ₚ seq 0 (length idx) ->
  index_to_position ((fun o => nth o idx 0) <$> order)
    ((fun o => nth o strides 0) <$> order)
  = index_to_position idx strides.
Proof.
  intros Hlen Hp. rewrite position_reorder, Hp. symmetry.
  by apply position_seq.
Qed.

Lemma valid_index_nth idx shape o :
  valid_index idx shape = true -> o < length shape ->
  nth o idx 0 < nth o shape 0.
Proof.
  revert idx o. induction shape as [|n shape IH]; intros [|i idx] o; simpl;
    try done; try lia.
  intros [Hi Hv]%andb_true_iff Ho. apply Nat.ltb_lt in Hi.
  destruct o as [|o]; [done|]. apply IH; [done|lia].
Qed.

Lemma valid_index_reorder idx shape order :
  valid_index idx shape = true ->
  Forall (fun o => o < length shape) order ->
  valid_index ((fun o => nth o idx 0) <$> order)
    ((fun o => nth o shape 0) <$> order) = true.
Proof.
  intros Hv. induction 1 as [|o order Ho _ IH]; [done|].
  cbn [fmap list_fmap valid_index]. rewrite IH, andb_true_r.
  by apply Nat.ltb_lt, valid_index_nth.
Qed.

End Permuted_entries.

(** X13. [p = t.permute(order[0], order[1], ...)] for a permutation
    [order] of [range(t.dims)]: no storage is created, [p] has the storage
    of [t] and the shape [(t.shape[order[0]], t.shape[order[1]], ...)],
    and [p[idx[order[0]], idx[order[1]], ...]] is [t[idx]] for every
    index [idx] of [t]. *)
Theorem permute_entries (other : Backend) (st : Store) (t : nat)
    (ot : Tensor) (order : list nat) :
  objs st !! t = Some ot ->
  length (_strides (_tensor ot)) = length (_shape (_tensor ot)) ->
  order ≡ₚ seq 0 (TensorData.dims (_tensor ot)) ->
  exists p st1 op,
    Tensor_permute other t order st = (Ok p, st1) /\
    heap st1 = heap st /\
    objs st1 !! p = Some op /\
    _storage (_tensor op) = _storage (_tensor ot) /\
    _shape (_tensor op) = (fun o => nth o (_shape (_tensor ot)) 0) <$> order /\
    forall idx v,
      Tensor___getitem__ t idx st = (Ok v, st) ->
      Tensor___getitem__ p ((fun o => nth o idx 0) <$> order) st1
        = (Ok v, st1).
Proof.
  intros Ht Hlen Hp. unfold TensorData.dims in Hp.
  rewrite (Tensor_permute_run other st t ot order Ht Hp).
  eexists _, _, _. split; [reflexivity|]. split; [reflexivity|].
  split; [cbn [objs]; lookup_obj|].
  split; [reflexivity|]. split; [reflexivity|].
  intros idx v Hget. pose proof (getitem_ok_read _ _ _ _ _ _ Ht Hget) as Hr.
  eapply getitem_run; [cbn [objs]; lookup_obj|].
  cbn [recorded Variable___init__ _tensor heap].
  revert Hr. unfold read, permuted. cbn [_shape _strides _storage].
  destruct (TensorData.valid_index idx (_shape (_tensor ot))) eqn:Hv; [|done].
  pose proof (valid_index_length _ _ Hv) as Hil.
  rewrite valid_index_reorder; [|done|]; cycle 1.
  { rewrite Hp. apply Forall_forall. intros o Ho%list_elem_of_In%in_seq. lia. }
  rewrite position_permuted; [done|congruence|by rewrite Hil].
Qed.

Lemma permute_entries_witness :
  exists p st1 op,
    Tensor_permute TensorOps.backend 0 [1; 0] store_matrix = (Ok p, st1) /\
    heap st1 = heap store_matrix /\
    objs st1 !! p = Some op /\
    _storage (_tensor op) = 0 /\
    _shape (_tensor op) = [3; 2] /\
    forall idx v,
      Tensor___getitem__ 0 idx store_matrix = (Ok v, store_matrix) ->
      Tensor___getitem__ p ((fun o => nth o idx 0) <$> [1; 0]) st1
        = (Ok v, st1).
Proof.
  apply (permute_entries TensorOps.backend store_matrix 0
           (fresh (mkTensorData 0 [2; 3] [3; 1]) TensorFunctions) [1; 0]).
  - reflexivity.
  - reflexivity.
  - apply Permutation_swap.
Defined.

(** ** expand: broadcasting a gradient *)

Section Expand.

Import TensorData.

Lemma shape_broadcast_rev_inv rb rs :
  shape_broadcast_rev rb rs = Some rb ->
  exists rt rp,
    rb = rt ++ rp /\ Forall2 (fun m n => m = n \/ m = 1) rs rt.
Proof.
  revert rs. induction rb as [|x rb IH]; intros [|y rs]; simpl.
  - intros _. by exists [], [].
  - done.
  - intros _. by exists [], (x :: rb).
  - destruct (x =? y) eqn:Exy.
    + apply Nat.eqb_eq in Exy as ->.
      destruct (shape_broadcast_rev rb rs) as [s|] eqn:E; [|done].
      intros [= ->]. destruct (IH _ E) as (rt & rp & -> & HF).
      exists (y :: rt), rp. split; [done|]. constructor; auto.
    + destruct (x =? 1) eqn:Ex1.
      * destruct (shape_broadcast_rev rb rs) as [s|]; [|done].
        intros [= -> _]. by rewrite Nat.eqb_refl in Exy.
      * destruct (y =? 1) eqn:Ey1; [|done]. apply Nat.eqb_eq in Ey1 as ->.
        destruct (shape_broadcast_rev rb rs) as [s|] eqn:E; [|done].
        intros [= ->]. destruct (IH _ E) as (rt & rp & -> & HF).
        exists (x :: rt), rp. split; [done|]. constructor; auto.
Qed.

(** [shape_broadcast] gives back its first argument exactly when the
    second broadcasts to it. *)
Lemma shape_broadcast_fits_inv big small :
  shape_broadcast big small = Ok big -> fits small big.
Proof.
  unfold shape_broadcast.
  destruct (shape_broadcast_rev (reverse big) (reverse small)) as [s|] eqn:E;
    [|done].
  intros [= Hs]. apply (f_equal reverse) in Hs.
  rewrite reverse_involutive in Hs. subst s.
  destruct (shape_broadcast_rev_inv _ _ E) as (rt & rp & Hb & HF).
  apply (f_equal reverse) in Hb. rewrite reverse_involutive, reverse_app in Hb.
  exists (reverse rp), (reverse rt). split; [done|].
  apply Forall2_reverse in HF. by rewrite reverse_involutive in HF.
Qed.

(** [self.expand(g)] when the shape of [g] broadcasts to the different
    shape of [self]: [g] is copied, broadcast, into a new buffer of the
    shape of [self]. *)
Lemma expand_fits (other : Backend) st self g oself og
    (ra : list nat -> float) :
  objs st !! self = Some oself ->
  objs st !! g = Some og ->
  tf oself = TensorFunctions ->
  fits (_shape (_tensor og)) (_shape (_tensor oself)) ->
  _shape (_tensor oself) <> _shape (_tensor og) ->
  _storage (_tensor og) < length (heap st) ->
  (forall idx, valid_index idx (_shape (_tensor oself)) = true ->
     read (heap st) (_tensor og)
       (broadcast_index idx (_shape (_tensor og))) = Some (ra idx)) ->
  Tensor_expand other self g st =
    (Ok (length (objs st)),
     mkStore
       (heap st ++ [(fun idx => operators.id (ra idx))
                      <$> indices (_shape (_tensor oself))])
       (objs st ++
          [fresh (mkTensorData (length (heap st)) (_shape (_tensor oself))
                    (strides_from_shape (_shape (_tensor oself))))
             TensorFunctions])).
Proof.
  intros Hself Hg Htf Hfits E Hlt Hra. unfold Tensor_expand.
  rewrite (bind_run _ _ _ _ _ (Tensor_shape_run _ _ _ Hself)).
  rewrite (bind_run _ _ _ _ _ (Tensor_shape_run _ _ _ Hg)).
  rewrite bool_decide_eq_false_2 by done.
  rewrite (shape_broadcast_fits_r _ _ Hfits), lift_ok, ret_bind.
  rewrite (bind_run _ _ _ _ _ (zeros_run _ _)).
  erewrite (bind_run (deref _)); [|apply deref_run; lookup_obj].
  rewrite Htf.
  change (backend_of other TensorFunctions) with TensorOps.backend.
  unfold id_map. cbn [map TensorOps.backend].
  erewrite (bind_run (TensorOps.map _ _ _)); cycle 1.
  { eapply (map_out_run _ _ _ _ og _ (length (heap st)) _ _ ra).
    - by apply lookup_app_l_Some.
    - cbn [objs]. by apply list_lookup_middle.
    - reflexivity.
    - cbn [heap]. by apply list_lookup_middle.
    - by rewrite length_replicate.
    - lia.
    - done.
    - intros idx Hv. eapply read_prefix; [by apply prefix_app_r|].
      by apply Hra. }
  rewrite bool_decide_eq_true_2 by done.
  cbn [heap objs]. by rewrite snoc_insert.
Qed.

End Expand.

(** X14. [self.expand(g)] when the shape of [g] broadcasts to the shape of
    [self] ([shape_broadcast] gives the shape of [self]): the result has
    the shape of [self] and, at every index, the entry of [g] that
    broadcasting puts there; with equal shapes it is [g] itself. *)
Theorem expand_broadcasts (other : Backend) (st : Store) (self g : nat)
    (oself og : Tensor) :
  objs st !! self = Some oself ->
  objs st !! g = Some og ->
  tf oself = TensorFunctions ->
  well_formed (heap st) (_tensor og) = true ->
  is_Some (heap st !! _storage (_tensor og)) ->
  TensorData.shape_broadcast (_shape (_tensor oself)) (_shape (_tensor og))
    = Ok (_shape (_tensor oself)) ->
  exists e st',
    Tensor_expand other self g st = (Ok e, st') /\
    Tensor_shape e st' = (Ok (_shape (_tensor oself)), st') /\
    (_shape (_tensor oself) = _shape (_tensor og) -> e = g) /\
    forall idx,
      TensorData.valid_index idx (_shape (_tensor oself)) = true ->
      Tensor___getitem__ e idx st' =
        (fst (Tensor___getitem__ g
                (TensorData.broadcast_index idx (_shape (_tensor og))) st),
         st').
Proof.
  intros Hself Hg Htf Hwf [lg Hlg] Hb.
  pose proof (shape_broadcast_fits_inv _ _ Hb) as Hfits.
  destruct (decide (_shape (_tensor oself) = _shape (_tensor og))) as [E|E].
  { rewrite (expand_same other _ _ _ _ _ Hself Hg E).
    exists g, st. split; [done|]. split.
    { rewrite (Tensor_shape_run _ _ _ Hg). by rewrite E. }
    split; [done|]. intros idx Hv. rewrite E in Hv.
    rewrite (broadcast_index_same _ _ Hv).
    by rewrite (getitem_entry _ _ _ _ Hg Hwf Hv). }
  set (ra := fun idx =>
         entry (heap st) (_tensor og)
           (TensorData.broadcast_index idx (_shape (_tensor og)))).
  rewrite (expand_fits other st self g oself og ra Hself Hg Htf Hfits E);
    cycle 1.
  { by eapply lookup_lt_Some. }
  { intros idx Hv. apply well_formed_read; [done|].
    by eapply broadcast_index_valid. }
  eexists _, _. split; [reflexivity|]. split.
  { erewrite Tensor_shape_run; [|cbn [objs]; by apply list_lookup_middle].
    reflexivity. }
  split; [done|]. intros idx Hv.
  rewrite (getitem_entry _ _ _ _ Hg Hwf)
    by (by eapply broadcast_index_valid).
  eapply getitem_run; [cbn [objs]; by apply list_lookup_middle|].
  cbn [fresh _tensor heap fst].
  apply (read_contiguous _ _ _ (fun idx => operators.id (ra idx))); [|done].
  by apply list_lookup_middle.
Qed.

Definition store_row_and_matrix : Store :=
  mkStore [[1%float; 2%float; 3%float; 4%float; 5%float; 6%float];
           [7%float; 8%float; 9%float]]
    [fresh (mkTensorData 0 [2; 3] [3; 1]) TensorFunctions;
     fresh (mkTensorData 1 [3] [1]) TensorFunctions].

Lemma expand_broadcasts_witness :
  exists e st',
    Tensor_expand TensorOps.backend 0 1 store_row_and_matrix = (Ok e, st') /\
    Tensor_shape e st' = (Ok [2; 3], st') /\
    ([2; 3] = [3] -> e = 1) /\
    forall idx,
      TensorData.valid_index idx [2; 3] = true ->
      Tensor___getitem__ e idx st' =
        (fst (Tensor___getitem__ 1 (TensorData.broadcast_index idx [3])
                store_row_and_matrix),
         st').
Proof.
  apply (expand_broadcasts TensorOps.backend store_row_and_matrix 0 1
           (fresh (mkTensorData 0 [2; 3] [3; 1]) TensorFunctions)
           (fresh (mkTensorData 1 [3] [1]) TensorFunctions));
    try reflexivity.
  eexists. reflexivity.
Defined.

(** ** The gradient check: indices out of range *)

(** X15. [central_difference] raises IndexError before it calls [f]:
    when [arg] is not a position of [vals], with the store untouched; and
    when [ind] is not an index of [vals[arg]], with only the zero tensor
    [up] created. *)
Theorem central_difference_index_errors (other : Backend)
    (f : list nat -> M nat) (vals : list nat) (arg : nat) (epsilon : float)
    (ind : list nat) (st : Store) :
  (length vals <= arg ->
   central_difference other f vals arg epsilon ind st
     = (Raise IndexError, st)) /\
  (forall x ox,
     vals !! arg = Some x ->
     objs st !! x = Some ox ->
     TensorData.valid_index ind (_shape (_tensor ox)) = false ->
     central_difference other f vals arg epsilon ind st
       = (Raise IndexError,
          mkStore
            (heap st ++
               [replicate (operators.prod (_shape (_tensor ox))) 0%float])
            (objs st ++
               [fresh (mkTensorData (length (heap st)) (_shape (_tensor ox))
                         (TensorData.strides_from_shape
                            (_shape (_tensor ox))))
                  TensorFunctions]))).
Proof.
  split.
  - intros Hlen. unfold central_difference.
    by rewrite (lookup_ge_None_2 _ _ Hlen).
  - intros x ox Hx Hox Hv. unfold central_difference. rewrite Hx, ret_bind.
    rewrite (bind_run _ _ _ _ _ (Tensor_shape_run _ _ _ Hox)).
    rewrite (bind_run _ _ _ _ _ (zeros_run _ _)).
    erewrite bind_raise; [reflexivity|].
    eapply setitem_invalid; [cbn [objs]; by apply list_lookup_middle|done].
Qed.

Lemma central_difference_index_errors_witness :
  central_difference TensorOps.backend negate_input [0] 1 default_epsilon
    [0; 0] store_matrix
    = (Raise IndexError, store_matrix) /\
  fst (central_difference TensorOps.backend negate_input [0] 0
         default_epsilon [2; 0] store_matrix)
    = Raise IndexError.
Proof.
  split.
  - apply (central_difference_index_errors TensorOps.backend negate_input
             [0] 1 default_epsilon [0; 0] store_matrix).
    simpl. lia.
  - erewrite (proj2 (central_difference_index_errors TensorOps.backend
                       negate_input [0] 0 default_epsilon [2; 0]
                       store_matrix) 0
                (fresh (mkTensorData 0 [2; 3] [3; 1]) TensorFunctions));
      reflexivity.
Defined.

(** ** Gradients through one operation *)

Section Unary_backward.

Import TensorData.

Variable other : Backend.

(** The node of an operation of the sequential backend with one tensor
    input [x]: the gradient that its [backward] returns goes to [x],
    expanded. *)
Lemma visit_unary st st1 y g d x oy op c consts (pending : gmap nat nat) :
  pending !! y = Some g ->
  objs st !! y = Some oy ->
  back oy = Some (mkHistory (TensorFunctions, op) c (VTensor x :: consts)) ->
  backward TensorOps.backend op c g st = (Ok [d], st1) ->
  visit other y pending st =
    (e <- Tensor_expand other x d ;; contribute other pending (x, e)) st1.
Proof.
  intros Hp Hy Hb Hbwd. unfold visit. rewrite Hp.
  rewrite (bind_run _ _ _ _ _ (deref_run _ _ _ Hy)). rewrite Hb.
  unfold FunctionBase_chain_rule. cbn [last_fn ctx inputs fst snd].
  change (backend_of other TensorFunctions) with TensorOps.backend.
  mnorm. rewrite (bind_run _ _ _ _ _ Hbwd).
  replace (zip_with pair (VTensor x :: consts) [d]) with [(VTensor x, d)]
    by (by destruct consts).
  cbn [omap list_omap fst snd list_comp]. mnorm.
  apply bind_ext. intros e st'. mnorm. cbn [TensorOps.fold_each].
  apply bind_ret_r.
Qed.

(** [y.sum().backward()] where [y] is the result of an operation on the
    leaf [x], step by step: the node of the sum hands a tensor [e] of ones
    of the shape of [y] to the node of [y]; the [backward] of the
    operation turns it into [d], [x.expand(d)] into [e'], and [e'] is
    accumulated into the slot of [x]. *)
Lemma unary_sum_backward_steps st1 x ox y oy op c consts
    (rd : list nat -> float) :
  objs st1 !! x = Some ox ->
  back ox = None ->
  requires_grad ox = true ->
  derivative ox = None ->
  tf ox = TensorFunctions ->
  objs st1 !! y = Some oy ->
  back oy = Some (mkHistory (TensorFunctions, op) c (VTensor x :: consts)) ->
  requires_grad oy = true ->
  tf oy = TensorFunctions ->
  well_formed (heap st1) (_tensor oy) = true ->
  x < y ->
  (forall st' e loc',
     heap st1 `prefix_of` heap st' ->
     objs st1 `prefix_of` objs st' ->
     objs st' !! e =
       Some (fresh (mkTensorData loc' (_shape (_tensor oy))
                      (strides_from_shape (_shape (_tensor oy))))
               TensorFunctions) ->
     heap st' !! loc'
       = Some ((fun _ => 1%float) <$> indices (_shape (_tensor oy))) ->
     exists d st_b e' st'' oe',
       backward TensorOps.backend op c e st' = (Ok [d], st_b) /\
       Tensor_expand other x d st_b = (Ok e', st'') /\
       heap st' `prefix_of` heap st'' /\
       objs st' `prefix_of` objs st'' /\
       objs st'' !! e' = Some oe' /\
       _shape (_tensor oe') = _shape (_tensor ox) /\
       forall idx, valid_index idx (_shape (_tensor ox)) = true ->
         read (heap st'') (_tensor oe') idx = Some (rd idx)) ->
  exists s st2 st3 e st' loc' d st_b e' st'' oe',
    Tensor_sum other y None st1 = (Ok s, st2) /\
    Tensor_backward other s None st2 = (Ok tt, st3) /\
    objs st' !! y = Some oy /\
    objs st' !! e =
      Some (fresh (mkTensorData loc' (_shape (_tensor oy))
                     (strides_from_shape (_shape (_tensor oy))))
              TensorFunctions) /\
    heap st' !! loc'
      = Some ((fun _ => 1%float) <$> indices (_shape (_tensor oy))) /\
    backward TensorOps.backend op c e st' = (Ok [d], st_b) /\
    Tensor_expand other x d st_b = (Ok e', st'') /\
    objs st'' !! e' = Some oe' /\
    _shape (_tensor oe') = _shape (_tensor ox) /\
    (forall idx, valid_index idx (_shape (_tensor ox)) = true ->
       read (heap st'') (_tensor oe') idx = Some (rd idx)) /\
    Variable_accumulate_derivative other x e' st'' = (Ok tt, st3) /\
    accumulated st'' st3 x ox (_shape (_tensor ox))
      (fun idx => operators.add 0 (rd idx)).
Proof.
  intros Hx Hb Hrg Hd Htf Hy Hby Hrgy Htfy Hwfy Hxy Hbwd.
  (* s = y.sum() *)
  pose proof (sum_run other st1 y oy (entry (heap st1) (_tensor oy)) Hy Htfy
                (fun idx Hv => well_formed_read _ _ _ Hwfy Hv)) as Hsum.
  cbv zeta in Hsum. rewrite Hrgy in Hsum.
  set (os := recorded true (TensorFunctions, Sum)
               (mkContext (VTuple (_shape (_tensor oy))))
               [VTensor y; VNone]
               (mkTensorData (length (heap st1)) [1] [1]) TensorFunctions)
    in Hsum.
  set (st2 := mkStore _ _) in Hsum.
  set (s := length (objs st1) + 5) in *.
  assert (objs st2 !! s = Some os) as Hs by (subst st2 s; lookup_obj).
  assert (objs st2 !! y = Some oy) as Hy2
    by (subst st2; by apply lookup_app_l_Some).
  assert (y < s) as Hys by (subst s; apply lookup_lt_Some in Hy; lia).
  (* s.backward() *)
  destruct (backward_sum other st2 s y os oy
              (mkContext (VTuple (_shape (_tensor oy)))) Hs)
    as (g & e & st' & loc' & Hp1 & Hp2 & He & Hloc' & Hback); try done.
  assert (heap st1 `prefix_of` heap st') as Hq1.
  { etrans; [|exact Hp1]. subst st2. by apply prefix_app_r. }
  assert (objs st1 `prefix_of` objs st') as Hq2.
  { etrans; [|exact Hp2]. subst st2. by apply prefix_app_r. }
  destruct (Hbwd st' e loc' Hq1 Hq2 He Hloc')
    as (d & st_b & e' & st'' & oe' & Hrun & Hexp & Hr1 & Hr2 & Hoe' & Hsd
        & Hrd).
  assert (objs st' !! y = Some oy) as Hy' by (by eapply prefix_lookup_Some).
  assert (objs st'' !! x = Some ox) as Hx''.
  { eapply prefix_lookup_Some; [|exact Hr2].
    by eapply prefix_lookup_Some. }
  destruct (accumulate_run other st'' x e' ox oe' (fun _ => 0%float) rd
              Hx'' Htf Hoe' Hsd Hrd) as (st3 & Hacc & Hpost).
  { by rewrite Hd. }
  exists s, st2, st3, e, st', loc', d, st_b, e', st'', oe'.
  split; [done|]. split; [|by repeat (split; [done|])].
  erewrite Hback; cycle 1.
  { eapply contribute_node; [done|done|].
    apply lookup_singleton_ne. lia. }
  rewrite (backpropagate_skip_to other y); cycle 1.
  { lia. }
  { intros k Hk. rewrite lookup_insert_ne by lia.
    apply lookup_singleton_ne. lia. }
  eapply backpropagate_last.
  - erewrite visit_unary; [|apply lookup_insert_eq|done|done|done].
    rewrite (bind_run _ _ _ _ _ Hexp).
    rewrite (contribute_leaf other _ _ _ _ _ Hx'' Hb Hrg).
    rewrite (bind_run _ _ _ _ _ Hacc). reflexivity.
  - intros k Hk. rewrite lookup_insert_ne by lia.
    apply lookup_singleton_ne. lia.
Qed.

(** What the pass leaves behind: when the [backward] of the operation,
    followed by [x.expand], turns a tensor of ones of the shape of [y]
    into a tensor of the shape of [x] with entries [rd], the slot of [x]
    ends up with the entries [0 + rd]. *)
Lemma unary_sum_backward_expand st1 x ox y oy op c consts
    (rd : list nat -> float) :
  objs st1 !! x = Some ox ->
  back ox = None ->
  requires_grad ox = true ->
  derivative ox = None ->
  tf ox = TensorFunctions ->
  objs st1 !! y = Some oy ->
  back oy = Some (mkHistory (TensorFunctions, op) c (VTensor x :: consts)) ->
  requires_grad oy = true ->
  tf oy = TensorFunctions ->
  well_formed (heap st1) (_tensor oy) = true ->
  x < y ->
  (forall st' e loc',
     heap st1 `prefix_of` heap st' ->
     objs st1 `prefix_of` objs st' ->
     objs st' !! e =
       Some (fresh (mkTensorData loc' (_shape (_tensor oy))
                      (strides_from_shape (_shape (_tensor oy))))
               TensorFunctions) ->
     heap st' !! loc'
       = Some ((fun _ => 1%float) <$> indices (_shape (_tensor oy))) ->
     exists d st_b e' st'' oe',
       backward TensorOps.backend op c e st' = (Ok [d], st_b) /\
       Tensor_expand other x d st_b = (Ok e', st'') /\
       heap st' `prefix_of` heap st'' /\
       objs st' `prefix_of` objs st'' /\
       objs st'' !! e' = Some oe' /\
       _shape (_tensor oe') = _shape (_tensor ox) /\
       forall idx, valid_index idx (_shape (_tensor ox)) = true ->
         read (heap st'') (_tensor oe') idx = Some (rd idx)) ->
  exists s st2 st3 st0,
    Tensor_sum other y None st1 = (Ok s, st2) /\
    Tensor_backward other s None st2 = (Ok tt, st3) /\
    accumulated st0 st3 x ox (_shape (_tensor ox))
      (fun idx => operators.add 0 (rd idx)).
Proof.
  intros Hx Hb Hrg Hd Htf Hy Hby Hrgy Htfy Hwfy Hxy Hbwd.
  destruct (unary_sum_backward_steps st1 x ox y oy op c consts rd)
    as (s & st2 & st3 & e & st' & loc' & d & st_b & e' & st'' & oe' & Hsum
        & Hback & _ & _ & _ & _ & _ & _ & _ & _ & _ & Hpost); try done.
  by exists s, st2, st3, st''.
Qed.

(** The same when the [backward] of the operation gives a tensor of the
    shape of [x], which [x.expand] hands on as it is. *)
Lemma unary_sum_backward st1 x ox y oy op c consts
    (rd : list nat -> float) :
  objs st1 !! x = Some ox ->
  back ox = None ->
  requires_grad ox = true ->
  derivative ox = None ->
  tf ox = TensorFunctions ->
  objs st1 !! y = Some oy ->
  back oy = Some (mkHistory (TensorFunctions, op) c (VTensor x :: consts)) ->
  requires_grad oy = true ->
  tf oy = TensorFunctions ->
  well_formed (heap st1) (_tensor oy) = true ->
  x < y ->
  (forall st' e loc',
     heap st1 `prefix_of` heap st' ->
     objs st1 `prefix_of` objs st' ->
     objs st' !! e =
       Some (fresh (mkTensorData loc' (_shape (_tensor oy))
                      (strides_from_shape (_shape (_tensor oy))))
               TensorFunctions) ->
     heap st' !! loc'
       = Some ((fun _ => 1%float) <$> indices (_shape (_tensor oy))) ->
     exists d st'' od,
       backward TensorOps.backend op c e st' = (Ok [d], st'') /\
       heap st' `prefix_of` heap st'' /\
       objs st' `prefix_of` objs st'' /\
       objs st'' !! d = Some od /\
       _shape (_tensor od) = _shape (_tensor ox) /\
       forall idx, valid_index idx (_shape (_tensor ox)) = true ->
         read (heap st'') (_tensor od) idx = Some (rd idx)) ->
  exists s st2 st3 st0,
    Tensor_sum other y None st1 = (Ok s, st2) /\
    Tensor_backward other s None st2 = (Ok tt, st3) /\
    accumulated st0 st3 x ox (_shape (_tensor ox))
      (fun idx => operators.add 0 (rd idx)).
Proof.
  intros Hx Hb Hrg Hd Htf Hy Hby Hrgy Htfy Hwfy Hxy Hbwd.
  eapply unary_sum_backward_expand; try done.
  intros st' e loc' Hq1 Hq2 He Hloc'.
  destruct (Hbwd st' e loc' Hq1 Hq2 He Hloc')
    as (d & st'' & od & Hrun & Hr1 & Hr2 & Hod & Hsd & Hrd).
  exists d, st'', d, st'', od. split; [done|]. split; [|done].
  eapply expand_same; [|done|done].
  eapply prefix_lookup_Some; [|exact Hr2]. by eapply prefix_lookup_Some.
Qed.

End Unary_backward.

(** X16. [(-x).sum().backward()] for a leaf [x] that requires grad:
    [Neg.backward] negates the gradient, and the gradient of [x] is -1.0
    at every position. *)
Theorem neg_gradient (other : Backend) (st : Store) (x : nat)
    (ox : Tensor) :
  objs st !! x = Some ox ->
  back ox = None ->
  requires_grad ox = true ->
  derivative ox = None ->
  tf ox = TensorFunctions ->
  well_formed (heap st) (_tensor ox) = true ->
  exists y st1 s st2 st3,
    Tensor___neg__ other x st = (Ok y, st1) /\
    Tensor_sum other y None st1 = (Ok s, st2) /\
    Tensor_backward other s None st2 = (Ok tt, st3) /\
    forall idx, TensorData.valid_index idx (_shape (_tensor ox)) = true ->
      Tensor_grad_getitem x idx st3 = (Ok (-1)%float, st3).
Proof.
  intros Hx Hb Hrg Hd Htf Hwf.
  pose proof (neg_run other st x ox (entry (heap st) (_tensor ox)) Hx Htf
                (fun idx Hv => well_formed_read _ _ _ Hwf Hv)) as Hrun.
  cbv zeta in Hrun. rewrite Hrg in Hrun.
  set (vy := mkTensorData (length (heap st)) _ _) in Hrun.
  set (oy := recorded true _ _ _ vy _) in Hrun.
  set (st1 := mkStore _ _) in Hrun.
  destruct (unary_sum_backward other st1 x ox (length (objs st) + 2) oy
              Neg (mkContext VNone) [] (fun _ => operators.neg 1))
    as (s & st2 & st3 & st0 & Hsum & Hback & Hacc); try done.
  - subst st1. by apply lookup_app_l_Some.
  - subst st1. lookup_obj.
  - eapply well_formed_contiguous. subst st1. by apply list_lookup_middle.
  - apply lookup_lt_Some in Hx. lia.
  - intros st' e loc' _ _ He Hloc'. cbn [backward].
    unfold Neg_backward, neg_map. cbn [map TensorOps.backend].
    erewrite bind_run; cycle 1.
    { eapply (map_run _ _ _ _ (fun _ => 1%float)); [exact He|].
      intros idx Hv. by apply (read_contiguous _ _ _ (fun _ => 1%float)). }
    eexists _, _, _. split; [reflexivity|]. cbn [heap objs].
    split; [by apply prefix_app_r|]. split; [by apply prefix_app_r|].
    split; [by apply list_lookup_middle|]. split; [reflexivity|].
    intros idx Hv. cbn [fresh _tensor _shape].
    apply (read_contiguous _ _ _ (fun _ => operators.neg 1)); [|done].
    by apply list_lookup_middle.
  - exists (length (objs st) + 2), st1, s, st2, st3.
    repeat (split; [done|]). intros idx Hv.
    by rewrite (grad_getitem_run _ _ _ _ _ _ _ Hacc Hv).
Qed.

Lemma neg_gradient_witness :
  exists y st1 s st2 st3,
    Tensor___neg__ TensorOps.backend 0 store_leaf_matrix = (Ok y, st1) /\
    Tensor_sum TensorOps.backend y None st1 = (Ok s, st2) /\
    Tensor_backward TensorOps.backend s None st2 = (Ok tt, st3) /\
    forall idx, TensorData.valid_index idx [2; 3] = true ->
      Tensor_grad_getitem 0 idx st3 = (Ok (-1)%float, st3).
Proof.
  apply (neg_gradient TensorOps.backend store_leaf_matrix 0
           (leaf (mkTensorData 0 [2; 3] [3; 1])));
    reflexivity.
Defined.

(** X17. [x.contiguous().sum().backward()] for a leaf [x] that requires
    grad: [Copy.backward] hands the gradient on as it is, and the gradient
    of [x] is 1.0 at every position. *)
Theorem contiguous_gradient (other : Backend) (st : Store) (x : nat)
    (ox : Tensor) :
  objs st !! x = Some ox ->
  back ox = None ->
  requires_grad ox = true ->
  derivative ox = None ->
  tf ox = TensorFunctions ->
  well_formed (heap st) (_tensor ox) = true ->
  exists y st1 s st2 st3,
    Tensor_contiguous other x st = (Ok y, st1) /\
    Tensor_sum other y None st1 = (Ok s, st2) /\
    Tensor_backward other s None st2 = (Ok tt, st3) /\
    forall idx, TensorData.valid_index idx (_shape (_tensor ox)) = true ->
      Tensor_grad_getitem x idx st3 = (Ok 1%float, st3).
Proof.
  intros Hx Hb Hrg Hd Htf Hwf.
  pose proof (contiguous_run other st x ox (entry (heap st) (_tensor ox))
                Hx Htf (fun idx Hv => well_formed_read _ _ _ Hwf Hv)) as Hrun.
  cbv zeta in Hrun. rewrite Hrg in Hrun.
  set (vy := mkTensorData (length (heap st)) _ _) in Hrun.
  set (oy := recorded true _ _ _ vy _) in Hrun.
  set (st1 := mkStore _ _) in Hrun.
  destruct (unary_sum_backward other st1 x ox (length (objs st) + 2) oy
              Copy (mkContext VNone) [] (fun _ => 1%float))
    as (s & st2 & st3 & st0 & Hsum & Hback & Hacc); try done.
  - subst st1. by apply lookup_app_l_Some.
  - subst st1. lookup_obj.
  - eapply well_formed_contiguous. subst st1. by apply list_lookup_middle.
  - apply lookup_lt_Some in Hx. lia.
  - intros st' e loc' _ _ He Hloc'. cbn [backward]. unfold Copy_backward.
    eexists _, _, _. split; [reflexivity|]. split; [done|]. split; [done|].
    split; [exact He|]. split; [reflexivity|].
    intros idx Hv. by apply (read_contiguous _ _ _ (fun _ => 1%float)).
  - exists (length (objs st) + 2), st1, s, st2, st3.
    repeat (split; [done|]). intros idx Hv.
    by rewrite (grad_getitem_run _ _ _ _ _ _ _ Hacc Hv).
Qed.

Lemma contiguous_gradient_witness :
  exists y st1 s st2 st3,
    Tensor_contiguous TensorOps.backend 0 store_leaf_matrix = (Ok y, st1) /\
    Tensor_sum TensorOps.backend y None st1 = (Ok s, st2) /\
    Tensor_backward TensorOps.backend s None st2 = (Ok tt, st3) /\
    forall idx, TensorData.valid_index idx [2; 3] = true ->
      Tensor_grad_getitem 0 idx st3 = (Ok 1%float, st3).
Proof.
  apply (contiguous_gradient TensorOps.backend store_leaf_matrix 0
           (leaf (mkTensorData 0 [2; 3] [3; 1])));
    reflexivity.
Defined.

Section Buffers.

Import TensorData.

Lemma well_formed_sized hp loc shape (l : list float) :
  hp !! loc = Some l ->
  length l = operators.prod shape ->
  well_formed hp (mkTensorData loc shape (strides_from_shape shape)) = true.
Proof.
  intros Hl Hlen. unfold well_formed. apply forallb_forall.
  intros idx Hv%list_elem_of_In%valid_index_indices. cbn [_shape] in *.
  apply bool_decide_eq_true. unfold read. cbn [_shape _storage _strides].
  rewrite Hv, Hl. simpl. apply lookup_lt_is_Some.
  rewrite Hlen. by apply index_to_position_lt.
Qed.

Lemma read_permuted hp v order idx :
  length (_strides v) = length (_shape v) ->
  order ≡ₚ seq 0 (length (_shape v)) ->
  valid_index idx (_shape v) = true ->
  read hp (permuted v order) ((fun o => nth o idx 0) <$> order)
    = read hp v idx.
Proof.
  intros Hlen Hp Hv. unfold read, permuted. cbn [_shape _strides _storage].
  pose proof (valid_index_length _ _ Hv) as Hil.
  rewrite Hv, valid_index_reorder; [|done|]; cycle 1.
  { rewrite Hp. apply Forall_forall. intros o Ho%list_elem_of_In%in_seq. lia. }
  rewrite position_permuted; [done|congruence|by rewrite Hil].
Qed.

Lemma length_permuted v order :
  length (_strides (permuted v order)) = length (_shape (permuted v order)).
Proof. unfold permuted. cbn [_shape _strides]. by rewrite !length_fmap. Qed.

Lemma well_formed_permuted hp v order :
  length (_strides v) = length (_shape v) ->
  order ≡ₚ seq 0 (length (_shape v)) ->
  well_formed hp v = true ->
  well_formed hp (permuted v order) = true.
Proof.
  intros Hlen Hp Hwf. unfold well_formed. apply forallb_forall.
  intros idx Hv%list_elem_of_In%valid_index_indices.
  apply bool_decide_eq_true.
  pose proof (inverse_order_perm _ _ Hp) as Hinv.
  assert (length (_shape (permuted v order)) = length (_shape v)) as Hn.
  { unfold permuted. cbn [_shape].
    by rewrite length_fmap, (Permutation_length Hp), length_seq. }
  rewrite <- (read_permuted hp (permuted v order) (inverse_order order) idx);
    [|apply length_permuted|by rewrite Hn|done].
  rewrite (permuted_inverse v order Hlen Hp).
  rewrite well_formed_read; [done|done|].
  pose proof (valid_index_reorder _ _ (inverse_order order) Hv) as Hv'.
  unfold permuted in Hv'. cbn [_shape] in Hv'.
  rewrite (reorder_inverse 0 (_shape v) order Hp) in Hv'. apply Hv'.
  rewrite Hinv. apply Forall_forall.
  intros o Ho%list_elem_of_In%in_seq. rewrite length_fmap.
  rewrite (Permutation_length Hp), length_seq. lia.
Qed.

End Buffers.

(** X18. [x.view(shape).sum().backward()] for a contiguous leaf [x] that
    requires grad: [View.backward] gives the gradient the shape of [x]
    again, and the gradient of [x] is 1.0 at every position of [x]. *)
Theorem view_gradient (other : Backend) (st : Store) (x : nat)
    (ox : Tensor) (shape : list nat) (l : list float) :
  objs st !! x = Some ox ->
  back ox = None ->
  requires_grad ox = true ->
  derivative ox = None ->
  tf ox = TensorFunctions ->
  TensorData.is_contiguous (_tensor ox) = true ->
  heap st !! _storage (_tensor ox) = Some l ->
  length l = TensorData.size (_tensor ox) ->
  operators.prod shape = TensorData.size (_tensor ox) ->
  exists y st1 s st2 st3,
    Tensor_view x shape st = (Ok y, st1) /\
    Tensor_sum other y None st1 = (Ok s, st2) /\
    Tensor_backward other s None st2 = (Ok tt, st3) /\
    forall idx, TensorData.valid_index idx (_shape (_tensor ox)) = true ->
      Tensor_grad_getitem x idx st3 = (Ok 1%float, st3).
Proof.
  intros Hx Hb Hrg Hd Htf Hc Hl Hlen Hsize. unfold TensorData.size in *.
  assert (length l = operators.prod shape) as Hlen' by congruence.
  pose proof (view_run st x ox shape l Hx Hc Hl Hlen') as Hrun.
  cbv zeta in Hrun. rewrite Hrg, Htf in Hrun.
  set (vy := mkTensorData _ shape _) in Hrun.
  set (oy := recorded true _ _ _ vy _) in Hrun.
  set (st1 := mkStore _ _) in Hrun.
  destruct (unary_sum_backward other st1 x ox (length (objs st) + 2) oy
              View (mkContext (VTuple (_shape (_tensor ox))))
              [VTuple shape] (fun _ => 1%float))
    as (s & st2 & st3 & st0 & Hsum & Hback & Hacc); try done.
  - subst st1. by apply lookup_app_l_Some.
  - subst st1. lookup_obj.
  - by eapply well_formed_sized.
  - apply lookup_lt_Some in Hx. lia.
  - intros st' e loc' _ _ He Hloc'. cbn [backward].
    erewrite View_backward_run; [|exact He|exact Hloc'|]; cycle 1.
    { cbn [oy recorded Variable___init__ _tensor vy _shape].
      rewrite length_fmap, length_indices. congruence. }
    eexists _, _, _. split; [reflexivity|]. cbn [heap objs].
    split; [done|]. split; [by apply prefix_app_r|].
    split; [by apply list_lookup_middle|]. split; [reflexivity|].
    intros idx Hv. cbn [fresh _tensor _storage].
    apply (read_contiguous _ _ _ (fun _ => 1%float)); [|done].
    rewrite Hloc'. cbn [oy recorded Variable___init__ _tensor vy _shape].
    rewrite !fmap_const_indices. congruence.
  - exists (length (objs st) + 2), st1, s, st2, st3.
    repeat (split; [done|]). intros idx Hv.
    by rewrite (grad_getitem_run _ _ _ _ _ _ _ Hacc Hv).
Qed.

Lemma view_gradient_witness :
  exists y st1 s st2 st3,
    Tensor_view 0 [3; 2] store_leaf_matrix = (Ok y, st1) /\
    Tensor_sum TensorOps.backend y None st1 = (Ok s, st2) /\
    Tensor_backward TensorOps.backend s None st2 = (Ok tt, st3) /\
    forall idx, TensorData.valid_index idx [2; 3] = true ->
      Tensor_grad_getitem 0 idx st3 = (Ok 1%float, st3).
Proof.
  apply (view_gradient TensorOps.backend store_leaf_matrix 0
           (leaf (mkTensorData 0 [2; 3] [3; 1])) [3; 2]
           [1%float; 2%float; 3%float; 4%float; 5%float; 6%float]);
    reflexivity.
Defined.

(** X19. [x.permute(order).sum().backward()] for a leaf [x] that requires
    grad and a permutation [order] of [range(x.dims)]: [Permute.backward]
    permutes the gradient back by the inverse order, and the gradient of
    [x] has the shape of [x] and is 1.0 at every position of [x]. *)
Theorem permute_gradient (other : Backend) (st : Store) (x : nat)
    (ox : Tensor) (order : list nat) :
  objs st !! x = Some ox ->
  back ox = None ->
  requires_grad ox = true ->
  derivative ox = None ->
  tf ox = TensorFunctions ->
  well_formed (heap st) (_tensor ox) = true ->
  length (_strides (_tensor ox)) = length (_shape (_tensor ox)) ->
  order ≡ₚ seq 0 (TensorData.dims (_tensor ox)) ->
  exists y st1 s st2 st3,
    Tensor_permute other x order st = (Ok y, st1) /\
    Tensor_sum other y None st1 = (Ok s, st2) /\
    Tensor_backward other s None st2 = (Ok tt, st3) /\
    forall idx, TensorData.valid_index idx (_shape (_tensor ox)) = true ->
      Tensor_grad_getitem x idx st3 = (Ok 1%float, st3).
Proof.
  intros Hx Hb Hrg Hd Htf Hwf Hlen Hp.
  pose proof (Tensor_permute_run other st x ox order Hx Hp) as Hrun.
  rewrite Hrg, Htf in Hrun. unfold TensorData.dims in Hp.
  set (oy := recorded true _ _ _ (permuted (_tensor ox) order) _) in Hrun.
  set (st1 := mkStore _ _) in Hrun.
  pose proof (inverse_order_perm _ _ Hp) as Hinv.
  assert (length order = length (_shape (_tensor ox))) as Hlo
    by (by rewrite (Permutation_length Hp), length_seq).
  destruct (unary_sum_backward other st1 x ox (length (objs st) + 2) oy
              Permute (mkContext (VTuple order)) [VTuple order]
              (fun _ => 1%float))
    as (s & st2 & st3 & st0 & Hsum & Hback & Hacc); try done.
  - subst st1. by apply lookup_app_l_Some.
  - subst st1. lookup_obj.
  - by apply well_formed_permuted.
  - apply lookup_lt_Some in Hx. lia.
  - intros st' e loc' _ _ He Hloc'. cbn [backward].
    cbn [oy recorded Variable___init__ _tensor permuted _shape] in He, Hloc'.
    set (sy := (fun o => nth o (_shape (_tensor ox)) 0) <$> order) in *.
    set (ve := mkTensorData loc' sy (TensorData.strides_from_shape sy)) in *.
    assert (length sy = length (_shape (_tensor ox))) as Hsy
      by (subst sy; by rewrite length_fmap).
    erewrite Permute_backward_run; [|exact He|]; cycle 1.
    { cbn [fresh _tensor]. unfold TensorData.dims. cbn [ve _shape].
      by rewrite Hsy. }
    eexists _, _, _. split; [reflexivity|]. cbn [heap objs].
    split; [done|]. split; [by apply prefix_app_r|].
    split; [by apply list_lookup_middle|]. cbn [fresh _tensor]. split.
    { unfold permuted. cbn [ve _shape]. subst sy.
      by apply reorder_inverse. }
    intros idx Hv. pose proof (valid_index_length _ _ Hv) as Hil.
    assert (TensorData.valid_index ((fun o => nth o idx 0) <$> order) sy
              = true) as Hv'.
    { subst sy. apply valid_index_reorder; [done|].
      rewrite Hp. apply Forall_forall.
      intros o Ho%list_elem_of_In%in_seq. lia. }
    rewrite <- (reorder_inverse 0 idx order) by (by rewrite Hil).
    rewrite read_permuted; cycle 1.
    { cbn [ve _shape _strides]. apply length_strides_from_shape. }
    { cbn [ve _shape]. by rewrite Hsy. }
    { exact Hv'. }
    by apply (read_contiguous _ _ _ (fun _ => 1%float)).
  - exists (length (objs st) + 2), st1, s, st2, st3.
    repeat (split; [done|]). intros idx Hv.
    by rewrite (grad_getitem_run _ _ _ _ _ _ _ Hacc Hv).
Qed.

Lemma permute_gradient_witness :
  exists y st1 s st2 st3,
    Tensor_permute TensorOps.backend 0 [1; 0] store_leaf_matrix
      = (Ok y, st1) /\
    Tensor_sum TensorOps.backend y None st1 = (Ok s, st2) /\
    Tensor_backward TensorOps.backend s None st2 = (Ok tt, st3) /\
    forall idx, TensorData.valid_index idx [2; 3] = true ->
      Tensor_grad_getitem 0 idx st3 = (Ok 1%float, st3).
Proof.
  apply (permute_gradient TensorOps.backend store_leaf_matrix 0
           (leaf (mkTensorData 0 [2; 3] [3; 1])) [1; 0]);
    try reflexivity.
  apply Permutation_swap.
Defined.

(** ** Gradients of a difference *)

Section Sub_backward.

Import TensorData.

Variable other : Backend.

(** [a - b]: the node of [-b], then the node of the addition. *)
Lemma sub_run st a b oa ob (ra rb : list nat -> float) :
  objs st !! a = Some oa ->
  objs st !! b = Some ob ->
  tf oa = TensorFunctions ->
  tf ob = TensorFunctions ->
  _shape (_tensor ob) = _shape (_tensor oa) ->
  (forall idx, valid_index idx (_shape (_tensor oa)) = true ->
     read (heap st) (_tensor oa) idx = Some (ra idx)) ->
  (forall idx, valid_index idx (_shape (_tensor oa)) = true ->
     read (heap st) (_tensor ob) idx = Some (rb idx)) ->
  let S := _shape (_tensor oa) in
  let vn := mkTensorData (length (heap st)) S (strides_from_shape S) in
  let on := recorded (requires_grad ob) (TensorFunctions, Neg)
              (mkContext VNone) [VTensor b] vn TensorFunctions in
  let vr := mkTensorData (length (heap st) + 1) S (strides_from_shape S) in
  Tensor___sub__ other a (OTensor b) st =
    (Ok (length (objs st) + 6),
     mkStore
       (heap st ++
          [(fun idx => operators.neg (rb idx)) <$> indices S;
           (fun idx => operators.add (ra idx) (operators.neg (rb idx)))
             <$> indices S])
       (objs st ++
          [fresh (_tensor ob) TensorFunctions;
           fresh vn TensorFunctions;
           on;
           fresh (_tensor oa) TensorFunctions;
           fresh vn TensorFunctions;
           fresh vr TensorFunctions;
           recorded (requires_grad oa || requires_grad on)
             (TensorFunctions, Add) (mkContext VNone)
             [VTensor a; VTensor (length (objs st) + 2)] vr
             TensorFunctions])).
Proof.
  intros Ha Hb Htfa Htfb Hshape Hra Hrb S vn on vr. subst S.
  unfold Tensor___sub__.
  rewrite (bind_run _ _ _ _ _ (deref_run _ _ _ Ha)). cbn [ensure_tensor].
  mnorm.
  pose proof (neg_run other st b ob rb Hb Htfb) as Hneg.
  cbv zeta in Hneg. rewrite Hshape in Hneg.
  rewrite (bind_run _ _ _ _ _ (Hneg Hrb)). fold vn on.
  set (st1 := mkStore _ _).
  assert (objs st1 !! (length (objs st) + 2) = Some on) as Hnb
    by (subst st1; lookup_obj).
  assert (objs st1 !! a = Some oa) as Ha1
    by (subst st1; by apply lookup_app_l_Some).
  pose proof (add_run other st1 a _ oa on (_shape (_tensor oa)) ra
                (fun idx => operators.neg (rb idx)) Ha1 Hnb Htfa) as Hadd.
  cbv zeta in Hadd.
  assert (Tensor___add__ other a (OTensor (length (objs st) + 2)) st1
          = apply other (tf oa) Add
              [VTensor a; VTensor (length (objs st) + 2)] st1) as Hsame.
  { unfold Tensor___add__.
    rewrite (bind_run _ _ _ _ _ (deref_run _ _ _ Ha1)). cbn [ensure_tensor].
    by mnorm. }
  rewrite <- Hsame, Hadd; cycle 1.
  { apply shape_broadcast_fits_l, fits_refl. }
  { intros idx Hv. rewrite (broadcast_index_same _ _ Hv).
    eapply read_prefix; [|by apply Hra]. subst st1. by apply prefix_app_r. }
  { intros idx Hv. cbn [on recorded Variable___init__ _tensor vn _shape].
    rewrite (broadcast_index_same _ _ Hv).
    apply (read_contiguous _ _ _ (fun idx => operators.neg (rb idx)));
      [|done].
    subst st1. by apply list_lookup_middle. }
  subst st1. cbn [heap objs]. f_equal.
  - f_equal. rewrite !length_app. simpl. lia.
  - f_equal.
    + by rewrite <- app_assoc.
    + rewrite <- app_assoc. cbn [app]. subst vr.
      rewrite length_app. cbn [length]. reflexivity.
Qed.

(** The node of [a + b]: its gradient goes to both operands. *)
Lemma visit_add_operands st y g a b oy c (pending : gmap nat nat) :
  pending !! y = Some g ->
  objs st !! y = Some oy ->
  back oy = Some (mkHistory (TensorFunctions, Add) c [VTensor a; VTensor b]) ->
  visit other y pending st =
    (e1 <- Tensor_expand other a g ;;
     e2 <- Tensor_expand other b g ;;
     pending <- contribute other pending (a, e1) ;;
     contribute other pending (b, e2)) st.
Proof.
  intros Hp Hy Hb. unfold visit. rewrite Hp.
  rewrite (bind_run _ _ _ _ _ (deref_run _ _ _ Hy)). rewrite Hb.
  unfold FunctionBase_chain_rule. cbn [last_fn ctx inputs fst snd].
  cbn [backward]. unfold Add_backward. mnorm.
  cbn [zip_with omap list_omap fst snd list_comp]. mnorm.
  apply bind_ext. intros e1 st1. mnorm.
  apply bind_ext. intros e2 st2. mnorm. cbn [TensorOps.fold_each].
  apply bind_ext. intros p st3. apply bind_ret_r.
Qed.

End Sub_backward.

(** A leaf of the sequential backend that requires grad, with an empty
    gradient slot and its entries within its storage. *)
Definition grad_leaf (st : Store) (x : nat) (ox : Tensor) : Prop :=
  objs st !! x = Some ox /\
  back ox = None /\
  requires_grad ox = true /\
  derivative ox = None /\
  tf ox = TensorFunctions /\
  well_formed (heap st) (_tensor ox) = true.

(** X20. [(x - y).sum().backward()] for two leaves [x] and [y] of one
    shape that require grad: the gradient of the sum reaches [x] through
    [Add.backward] and [y] through [Add.backward] and [Neg.backward]; the
    gradient of [x] is 1.0 and the gradient of [y] is -1.0 at every
    position. *)
Theorem sub_gradient (other : Backend) (st : Store) (x y : nat)
    (ox oy : Tensor) :
  grad_leaf st x ox ->
  grad_leaf st y oy ->
  x <> y ->
  _shape (_tensor oy) = _shape (_tensor ox) ->
  exists r st1 s st2 st3,
    Tensor___sub__ other x (OTensor y) st = (Ok r, st1) /\
    Tensor_sum other r None st1 = (Ok s, st2) /\
    Tensor_backward other s None st2 = (Ok tt, st3) /\
    forall idx, TensorData.valid_index idx (_shape (_tensor ox)) = true ->
      Tensor_grad_getitem x idx st3 = (Ok 1%float, st3) /\
      Tensor_grad_getitem y idx st3 = (Ok (-1)%float, st3).
Proof.
  intros (Hx & Hbx & Hrx & Hdx & Htx & Hwx)
         (Hy & Hby & Hry & Hdy & Hty & Hwy) Hne Hshape.
  pose proof (lookup_lt_Some _ _ _ Hx) as Hxlt.
  pose proof (lookup_lt_Some _ _ _ Hy) as Hylt.
  (* r = x - y *)
  pose proof (sub_run other st x y ox oy (entry (heap st) (_tensor ox))
                (entry (heap st) (_tensor oy)) Hx Hy Htx Hty Hshape
                (fun idx Hv => well_formed_read _ _ _ Hwx Hv)) as Hsub.
  cbv zeta in Hsub. rewrite Hrx, Hry in Hsub. cbn [orb] in Hsub.
  set (vn := mkTensorData (length (heap st)) _ _) in Hsub.
  set (vr := mkTensorData (length (heap st) + 1) _ _) in Hsub.
  set (on := recorded true (TensorFunctions, Neg) _ _ vn _) in Hsub.
  set (or := recorded true (TensorFunctions, Add) _ _ vr _) in Hsub.
  set (st1 := mkStore _ _) in Hsub.
  set (nb := length (objs st) + 2) in *.
  set (r := length (objs st) + 6) in *.
  assert (forall idx,
            TensorData.valid_index idx (_shape (_tensor ox)) = true ->
            read (heap st) (_tensor oy) idx
              = Some (entry (heap st) (_tensor oy) idx)) as Hrb.
  { intros idx Hv. apply well_formed_read; [done|]. by rewrite Hshape. }
  specialize (Hsub Hrb).
  assert (objs st1 !! r = Some or) as Hr.
  { subst st1 r. cbn [objs]. rewrite (lookup_new _ _ 6) by lia. reflexivity. }
  assert (objs st1 !! nb = Some on) as Hnb by (subst st1 nb; lookup_obj).
  (* s = r.sum() *)
  pose proof (sum_run other st1 r or (entry (heap st1) (_tensor or)) Hr
                eq_refl) as Hsum.
  cbv zeta in Hsum.
  change (requires_grad or) with true in Hsum.
  change (_shape (_tensor or)) with (_shape (_tensor ox)) in Hsum.
  set (os := recorded true (TensorFunctions, Sum) _ _ _ _) in Hsum.
  set (st2 := mkStore _ _) in Hsum.
  set (s := length (objs st1) + 5) in *.
  assert (well_formed (heap st1) (_tensor or) = true) as Hwr.
  { eapply well_formed_contiguous. subst st1. cbn [heap].
    rewrite (lookup_new _ _ 1) by lia. reflexivity. }
  specialize (Hsum (fun idx Hv => well_formed_read _ _ _ Hwr Hv)).
  assert (objs st2 !! s = Some os) as Hs.
  { subst st2 s. cbn [objs]. rewrite (lookup_new _ _ 5) by lia. reflexivity. }
  assert (objs st2 !! r = Some or) as Hr2
    by (subst st2; by apply lookup_app_l_Some).
  assert (r < s) as Hrs by (subst s; apply lookup_lt_Some in Hr; lia).
  (* s.backward(): the seed, expanded, reaches the node of the addition *)
  destruct (backward_sum other st2 s r os or
              (mkContext (VTuple (_shape (_tensor ox)))) Hs)
    as (g & e & st' & loc' & Hp1 & Hp2 & He & Hloc' & Hback); try done.
  set (oe := fresh _ _) in He.
  assert (objs st1 `prefix_of` objs st') as Hq.
  { etrans; [|exact Hp2]. subst st2. by apply prefix_app_r. }
  assert (objs st `prefix_of` objs st') as Hq0.
  { etrans; [|exact Hq]. subst st1. by apply prefix_app_r. }
  pose proof (prefix_lookup_Some _ _ _ _ Hr Hq) as Hr'.
  pose proof (prefix_lookup_Some _ _ _ _ Hnb Hq) as Hnb'.
  pose proof (prefix_lookup_Some _ _ _ _ Hx Hq0) as Hx'.
  pose proof (prefix_lookup_Some _ _ _ _ Hy Hq0) as Hy'.
  assert (forall idx,
            TensorData.valid_index idx (_shape (_tensor ox)) = true ->
            read (heap st') (_tensor oe) idx = Some 1%float) as Hre.
  { intros idx Hv. by apply (read_contiguous _ _ _ (fun _ => 1%float)). }
  assert (e <> x) as Hex.
  { intros E. rewrite E, Hx' in He. injection He as He.
    rewrite He in Hrx. done. }
  (* the node of the addition: x takes the gradient, -y gets it *)
  destruct (accumulate_run other st' x e ox oe (fun _ => 0%float)
              (fun _ => 1%float) Hx' Htx He) as (st3 & Hacc1 & Hpost1);
    try done.
  { by rewrite Hdx. }
  destruct Hpost1 as (Hp3 & Hframe & d1 & od1 & Hx3 & Hd1 & Htf1 & Hs1 & Hr1).
  assert (nb <> x) as Hnx by (subst nb; lia).
  pose proof (Hframe _ _ Hnx Hnb') as Hnb3.
  pose proof (Hframe _ _ Hex He) as He3.
  pose proof (Hframe _ _ (not_eq_sym Hne) Hy') as Hy3.
  set (P1 := <[r := e]> ({[s := g]} : gmap nat nat)).
  set (P2 := <[nb := e]> P1).
  assert (visit other r P1 st' = (Ok P2, st3)) as Hvisit_r.
  { erewrite visit_add_operands; [|apply lookup_insert_eq|exact Hr'|done].
    rewrite (bind_run _ _ _ _ _ (expand_same other _ _ _ _ _ Hx' He eq_refl)).
    rewrite (bind_run _ _ _ _ _ (expand_same other _ _ _ _ _ Hnb' He eq_refl)).
    rewrite (bind_run (contribute _ _ _) _ _ P1 st3).
    - eapply contribute_node; [exact Hnb3|done|].
      subst P1. rewrite lookup_insert_ne by (subst nb r; lia).
      apply lookup_singleton_ne. subst nb s. apply lookup_lt_Some in Hr. lia.
    - rewrite (contribute_leaf other _ _ _ _ _ Hx' Hbx Hrx).
      by rewrite (bind_run _ _ _ _ _ Hacc1). }
  (* the node of the negation: y takes the negated gradient *)
  pose proof (map_run operators.neg st3 e oe (fun _ => 1%float) He3) as Hmap.
  cbn [oe fresh _tensor _shape tf] in Hmap.
  change (_shape vr) with (_shape (_tensor ox)) in Hmap.
  set (od := fresh (mkTensorData (length (heap st3)) _ _) _) in Hmap.
  set (st4 := mkStore _ _) in Hmap.
  assert (TensorOps.map operators.neg e None st3
            = (Ok (length (objs st3)), st4)) as Hmap'.
  { apply Hmap. intros idx Hv. eapply read_prefix; [exact Hp3|].
    by apply Hre. }
  assert (objs st4 !! y = Some oy) as Hy4
    by (subst st4; by apply lookup_app_l_Some).
  assert (objs st4 !! length (objs st3) = Some od) as Hd4
    by (subst st4; by apply list_lookup_middle).
  destruct (accumulate_run other st4 y (length (objs st3)) oy od
              (fun _ => 0%float) (fun _ => operators.neg 1) Hy4 Hty Hd4)
    as (st5 & Hacc2 & Hpost2).
  { by rewrite Hshape. }
  { intros idx Hv. rewrite Hshape in Hv.
    apply (read_contiguous _ _ _ (fun _ => operators.neg 1)); [|done].
    subst st4. by apply list_lookup_middle. }
  { by rewrite Hdy. }
  assert (visit other nb P2 st3 = (Ok P2, st5)) as Hvisit_nb.
  { erewrite (visit_unary other st3 st4 nb e (length (objs st3)) y on Neg
                (mkContext VNone) []);
      [|apply lookup_insert_eq|exact Hnb3|done|]; cycle 1.
    { cbn [backward]. unfold Neg_backward, neg_map.
      cbn [map TensorOps.backend]. by rewrite (bind_run _ _ _ _ _ Hmap'). }
    erewrite (bind_run (Tensor_expand _ _ _)); cycle 1.
    { eapply expand_same; [exact Hy4|exact Hd4|]. by rewrite Hshape. }
    rewrite (contribute_leaf other _ _ _ _ _ Hy4 Hby Hry).
    by rewrite (bind_run _ _ _ _ _ Hacc2). }
  exists r, st1, s, st2, st5. split; [done|]. split; [done|]. split.
  { erewrite Hback; cycle 1.
    { eapply contribute_node; [exact Hr'|done|].
      apply lookup_singleton_ne. lia. }
    fold P1. rewrite (backpropagate_skip_to other r); cycle 1.
    { lia. }
    { intros k Hk. subst P1. rewrite lookup_insert_ne by lia.
      apply lookup_singleton_ne. lia. }
    rewrite (backpropagate_step other nb r P1 P2 st' st3); cycle 1.
    { subst nb r. lia. }
    { exact Hvisit_r. }
    { intros k Hk. subst P2 P1. rewrite !lookup_insert_ne by lia.
      apply lookup_singleton_ne. lia. }
    eapply backpropagate_last; [exact Hvisit_nb|].
    intros k Hk. subst P2 P1. rewrite !lookup_insert_ne by (subst nb r; lia).
    apply lookup_singleton_ne. subst nb. lia. }
  intros idx Hv. split.
  - destruct Hpost2 as (Hp5 & Hframe2 & d2 & od2 & Hy5 & _).
    assert (objs st5 !! x = Some (set_derivative (Some d1) ox)) as Hx5.
    { apply Hframe2; [done|]. subst st4. by apply lookup_app_l_Some. }
    assert (exists o', objs st5 !! d1 = Some o' /\ _tensor o' = _tensor od1)
      as (o' & Hd5 & Ho').
    { destruct (decide (d1 = y)) as [->|Hdy1].
      - rewrite Hy3 in Hd1. injection Hd1 as <-. by eexists.
      - exists od1. split; [|done]. apply Hframe2; [done|].
        subst st4. by apply lookup_app_l_Some. }
    unfold Tensor_grad_getitem, Tensor_grad. mnorm.
    rewrite (bind_run _ _ _ _ _ (deref_run _ _ _ Hx5)). mnorm.
    cbn [set_derivative derivative].
    eapply getitem_run; [exact Hd5|]. rewrite Ho'.
    eapply read_prefix; [exact Hp5|]. subst st4. cbn [heap].
    eapply (read_prefix (heap st3)); [by apply prefix_app_r|].
    exact (Hr1 idx Hv).
  - rewrite <- Hshape in Hv.
    by rewrite (grad_getitem_run _ _ _ _ _ _ _ Hpost2 Hv).
Qed.

Definition store_two_leaves : Store :=
  mkStore [[2%float; 3%float]; [4%float; 5%float]]
    [leaf (mkTensorData 0 [2] [1]); leaf (mkTensorData 1 [2] [1])].

Lemma sub_gradient_witness :
  exists r st1 s st2 st3,
    Tensor___sub__ TensorOps.backend 0 (OTensor 1) store_two_leaves
      = (Ok r, st1) /\
    Tensor_sum TensorOps.backend r None st1 = (Ok s, st2) /\
    Tensor_backward TensorOps.backend s None st2 = (Ok tt, st3) /\
    forall idx, TensorData.valid_index idx [2] = true ->
      Tensor_grad_getitem 0 idx st3 = (Ok 1%float, st3) /\
      Tensor_grad_getitem 1 idx st3 = (Ok (-1)%float, st3).
Proof.
  apply (sub_gradient TensorOps.backend store_two_leaves 0 1
           (leaf (mkTensorData 0 [2] [1])) (leaf (mkTensorData 1 [2] [1]))).
  - repeat split; reflexivity.
  - repeat split; reflexivity.
  - lia.
  - reflexivity.
Defined.

(** X21. [x.sum(d).sum().backward()] for a leaf [x] that requires grad
    and a dimension [d] of [x].  The node of [y = x.sum(d)] receives a
    gradient [gy] of the shape of [y] (dimension [d] of size 1), 1.0 at
    every position; [Sum.backward] hands [gy] on as it is, and
    [x.expand(gy)] broadcasts it back over the reduced dimension, to a
    tensor [e] of the shape of [x] that is 1.0 at every position; [e] is
    what is accumulated into the slot of [x], so that the gradient of [x]
    has the shape of [x] and is 1.0 at every position. *)
Theorem sum_dim_gradient (other : Backend) (st : Store) (x : nat)
    (ox : Tensor) (d n : nat) :
  grad_leaf st x ox ->
  _shape (_tensor ox) !! d = Some n ->
  exists y st1 s st2 gy st_y e st_e st3,
    Tensor_sum other x (Some d) st = (Ok y, st1) /\
    Tensor_sum other y None st1 = (Ok s, st2) /\
    Tensor_shape gy st_y = (Ok (<[d := 1]> (_shape (_tensor ox))), st_y) /\
    (forall idx,
       TensorData.valid_index idx (<[d := 1]> (_shape (_tensor ox))) = true ->
       Tensor___getitem__ gy idx st_y = (Ok 1%float, st_y)) /\
    (exists oy h,
       objs st_y !! y = Some oy /\ back oy = Some h /\
       last_fn h = (TensorFunctions, Sum) /\
       Sum_backward (ctx h) gy st_y = (Ok [gy], st_y) /\
       FunctionBase_chain_rule other h gy st_y = (Ok [(x, e)], st_e)) /\
    Tensor_expand other x gy st_y = (Ok e, st_e) /\
    Tensor_shape e st_e = (Ok (_shape (_tensor ox)), st_e) /\
    (forall idx,
       TensorData.valid_index idx (_shape (_tensor ox)) = true ->
       Tensor___getitem__ e idx st_e = (Ok 1%float, st_e)) /\
    Variable_accumulate_derivative other x e st_e = (Ok tt, st3) /\
    Tensor_backward other s None st2 = (Ok tt, st3) /\
    (exists g, Tensor_grad x st3 = (Ok (Some g), st3) /\
               Tensor_shape g st3 = (Ok (_shape (_tensor ox)), st3)) /\
    forall idx, TensorData.valid_index idx (_shape (_tensor ox)) = true ->
      Tensor_grad_getitem x idx st3 = (Ok 1%float, st3).
Proof.
  intros (Hx & Hb & Hrg & Hd & Htf & Hwf) Hn.
  pose proof (sum_dim_run other st x ox d n (entry (heap st) (_tensor ox))
                Hx Htf Hn (fun idx Hv => well_formed_read _ _ _ Hwf Hv))
    as Hrun.
  cbv zeta in Hrun. rewrite Hrg in Hrun.
  set (S := _shape (_tensor ox)) in *.
  set (vy := mkTensorData (length (heap st)) (<[d := 1]> S) _) in Hrun.
  set (oy := recorded true _ _ _ vy _) in Hrun.
  set (st1 := mkStore _ _) in Hrun.
  assert (fits (<[d := 1]> S) S) as Hfits.
  { apply fits_insert_one; [apply fits_refl|done]. }
  destruct (unary_sum_backward_steps other st1 x ox (length (objs st) + 2)
              oy Sum (mkContext (VTuple S)) [VInt d]
              (fun _ => operators.id 1))
    as (s & st2 & st3 & gy & st_y & loc' & d' & st_b & e & st_e & oe & Hsum
        & Hback & Hy' & Hgy & Hloc' & Hbwd & Hexp & Hoe & Hse & Hre & Hacc
        & Hpost); try done.
  - subst st1. by apply lookup_app_l_Some.
  - subst st1. lookup_obj.
  - eapply well_formed_contiguous. subst st1. by apply list_lookup_middle.
  - apply lookup_lt_Some in Hx. lia.
  - intros st' e loc' _ Hq He Hloc'. cbn [backward]. unfold Sum_backward.
    cbn [oy recorded Variable___init__ _tensor vy _shape] in He, Hloc'.
    set (oe := fresh _ _) in He.
    assert (objs st' !! x = Some ox) as Hx'.
    { eapply prefix_lookup_Some; [|exact Hq].
      subst st1. by apply lookup_app_l_Some. }
    assert (forall idx, TensorData.valid_index idx (<[d := 1]> S) = true ->
              read (heap st') (_tensor oe) idx = Some 1%float) as Hre.
    { intros idx Hv. by apply (read_contiguous _ _ _ (fun _ => 1%float)). }
    destruct (decide (S = <[d := 1]> S)) as [E|E].
    + exists e, st', e, st', oe. split; [done|]. split.
      { by eapply expand_same. }
      split; [done|]. split; [done|]. split; [done|]. split; [done|].
      intros idx Hv. apply Hre. by rewrite <- E.
    + eexists e, st', _, _, _. split; [done|]. split.
      { eapply (expand_fits other st' x e ox oe (fun _ => 1%float));
          try done.
        - by eapply lookup_lt_Some.
        - intros idx Hv. apply Hre. by eapply broadcast_index_valid. }
      cbn [heap objs]. split; [by apply prefix_app_r|].
      split; [by apply prefix_app_r|].
      split; [by apply list_lookup_middle|]. split; [reflexivity|].
      intros idx Hv. cbn [fresh _tensor].
      apply (read_contiguous _ _ _ (fun _ => operators.id 1)); [|done].
      by apply list_lookup_middle.
  - cbn [backward] in Hbwd. unfold Sum_backward, ret in Hbwd.
    injection Hbwd as <- <-.
    cbn [oy recorded Variable___init__ _tensor vy _shape] in Hgy, Hloc'.
    exists (length (objs st) + 2), st1, s, st2, gy, st_y, e, st_e, st3.
    split; [done|]. split; [done|]. split.
    { by rewrite (Tensor_shape_run _ _ _ Hgy). }
    split.
    { intros idx Hv. eapply getitem_run; [done|]. cbn [fresh _tensor].
      by apply (read_contiguous _ _ _ (fun _ => 1%float)). }
    split.
    { eexists _, _. split; [exact Hy'|]. split; [reflexivity|].
      split; [reflexivity|]. split; [reflexivity|].
      by apply (chain_rule_unary other st_y st_y st_e gy gy e x Sum). }
    split; [done|]. split.
    { rewrite (Tensor_shape_run _ _ _ Hoe). by rewrite Hse. }
    split.
    { intros idx Hv. eapply getitem_run; [done|]. by apply Hre. }
    split; [done|]. split; [done|]. split.
    + destruct Hpost as (_ & _ & g & og & Hxg & Hog & _ & Hsg & _).
      exists g. split.
      * unfold Tensor_grad.
        by rewrite (bind_run _ _ _ _ _ (deref_run _ _ _ Hxg)).
      * rewrite (Tensor_shape_run _ _ _ Hog). by rewrite Hsg.
    + intros idx Hv.
      by rewrite (grad_getitem_run _ _ _ _ _ _ _ Hpost Hv).
Qed.

Lemma sum_dim_gradient_witness :
  exists y st1 s st2 gy st_y e st_e st3,
    Tensor_sum TensorOps.backend 0 (Some 1) store_leaf_matrix = (Ok y, st1) /\
    Tensor_sum TensorOps.backend y None st1 = (Ok s, st2) /\
    Tensor_shape gy st_y = (Ok [2; 1], st_y) /\
    (forall idx,
       TensorData.valid_index idx [2; 1] = true ->
       Tensor___getitem__ gy idx st_y = (Ok 1%float, st_y)) /\
    (exists oy h,
       objs st_y !! y = Some oy /\ back oy = Some h /\
       last_fn h = (TensorFunctions, Sum) /\
       Sum_backward (ctx h) gy st_y = (Ok [gy], st_y) /\
       FunctionBase_chain_rule TensorOps.backend h gy st_y
         = (Ok [(0, e)], st_e)) /\
    Tensor_expand TensorOps.backend 0 gy st_y = (Ok e, st_e) /\
    Tensor_shape e st_e = (Ok [2; 3], st_e) /\
    (forall idx,
       TensorData.valid_index idx [2; 3] = true ->
       Tensor___getitem__ e idx st_e = (Ok 1%float, st_e)) /\
    Variable_accumulate_derivative TensorOps.backend 0 e st_e = (Ok tt, st3) /\
    Tensor_backward TensorOps.backend s None st2 = (Ok tt, st3) /\
    (exists g, Tensor_grad 0 st3 = (Ok (Some g), st3) /\
               Tensor_shape g st3 = (Ok [2; 3], st3)) /\
    forall idx, TensorData.valid_index idx [2; 3] = true ->
      Tensor_grad_getitem 0 idx st3 = (Ok 1%float, st3).
Proof.
  apply (sum_dim_gradient TensorOps.backend store_leaf_matrix 0
           (leaf (mkTensorData 0 [2; 3] [3; 1])) 1 3).
  - repeat split; reflexivity.
  - reflexivity.
Defined.

(** ** permute: dims and size *)

Section Permuted_size.

Import TensorData.

Lemma prod_Permutation (l k : list nat) :
  l ≡ₚ k -> operators.prod l = operators.prod k.
Proof.
  unfold operators.prod. induction 1; simpl; try congruence; lia.
Qed.

Lemma fmap_nth_seq {A} (d : A) (l : list A) :
  (fun o => nth o l d) <$> seq 0 (length l) = l.
Proof.
  induction l as [|x l IH]; [done|]. cbn [length seq fmap list_fmap nth].
  f_equal. rewrite <- fmap_S_seq, <- list_fmap_compose. exact IH.
Qed.

Lemma prod_reorder (shape order : list nat) :
  order ≡ₚ seq 0 (length shape) ->
  operators.prod ((fun o => nth o shape 0) <$> order) = operators.prod shape.
Proof.
  intros Hp. rewrite (prod_Permutation _ _ (fmap_Permutation _ _ _ Hp)).
  by rewrite fmap_nth_seq.
Qed.

End Permuted_size.

(** X22. [t.permute(order)] for a permutation [order] of [range(t.dims)]
    keeps the number of dimensions and the size: [p.dims == t.dims] and
    [p.size == t.size]. *)
Theorem permute_keeps_size (other : Backend) (st : Store) (t : nat)
    (ot : Tensor) (order : list nat) :
  objs st !! t = Some ot ->
  order ≡ₚ seq 0 (TensorData.dims (_tensor ot)) ->
  exists p st1,
    Tensor_permute other t order st = (Ok p, st1) /\
    Tensor_dims p st1 = (Ok (TensorData.dims (_tensor ot)), st1) /\
    Tensor_size p st1 = (Ok (TensorData.size (_tensor ot)), st1).
Proof.
  intros Ht Hp.
  rewrite (Tensor_permute_run other st t ot order Ht Hp).
  unfold TensorData.dims in Hp.
  eexists _, _. split; [reflexivity|].
  unfold Tensor_dims, Tensor_size.
  erewrite !(bind_run (deref _)); [|apply deref_run; cbn [objs]; lookup_obj..].
  cbn [recorded Variable___init__ _tensor].
  unfold TensorData.dims, TensorData.size, ret, permuted. cbn [_shape].
  rewrite length_fmap, (Permutation_length Hp), length_seq.
  by rewrite prod_reorder.
Qed.

Lemma permute_keeps_size_witness :
  exists p st1,
    Tensor_permute TensorOps.backend 0 [1; 0] store_matrix = (Ok p, st1) /\
    Tensor_dims p st1 = (Ok 2, st1) /\
    Tensor_size p st1 = (Ok 6, st1).
Proof.
  apply (permute_keeps_size TensorOps.backend store_matrix 0
           (fresh (mkTensorData 0 [2; 3] [3; 1]) TensorFunctions) [1; 0]).
  - reflexivity.
  - apply Permutation_swap.
Defined.

(** ** backward with a given gradient *)

(** X23. [y.backward(g)] with [y = -x] for a leaf [x] that requires grad
    and a tensor [g] of the shape of [x]: no assertion is made on the
    shape, and the gradient of [x] is [0.0 + (-g[idx])] at every index:
    the negated [g], added to the zero tensor the empty slot starts
    from. *)
Theorem neg_backward_seeded (other : Backend) (st : Store) (x g : nat)
    (ox og : Tensor) :
  grad_leaf st x ox ->
  objs st !! g = Some og ->
  _shape (_tensor og) = _shape (_tensor ox) ->
  well_formed (heap st) (_tensor og) = true ->
  exists y st1 st2,
    Tensor___neg__ other x st = (Ok y, st1) /\
    Tensor_backward other y (Some g) st1 = (Ok tt, st2) /\
    forall idx v,
      Tensor___getitem__ g idx st = (Ok v, st) ->
      Tensor_grad_getitem x idx st2 = (Ok (0 + - v)%float, st2).
Proof.
  intros (Hx & Hb & Hrg & Hd & Htf & Hwf) Hg Hshape Hwg.
  pose proof (lookup_lt_Some _ _ _ Hx) as Hxlt.
  pose proof (neg_run other st x ox (entry (heap st) (_tensor ox)) Hx Htf
                (fun idx Hv => well_formed_read _ _ _ Hwf Hv)) as Hrun.
  cbv zeta in Hrun. rewrite Hrg in Hrun.
  set (vy := mkTensorData (length (heap st)) _ _) in Hrun.
  set (oy := recorded true _ _ _ vy _) in Hrun.
  set (st1 := mkStore _ _) in Hrun.
  set (y := length (objs st) + 2) in *.
  assert (objs st1 !! y = Some oy) as Hy by (subst st1 y; lookup_obj).
  assert (objs st1 !! g = Some og) as Hg1
    by (subst st1; by apply lookup_app_l_Some).
  (* Neg.backward on g *)
  pose proof (map_run operators.neg st1 g og (entry (heap st) (_tensor og))
                Hg1) as Hmap.
  set (od := fresh _ _) in Hmap. set (st_b := mkStore _ _) in Hmap.
  assert (TensorOps.map operators.neg g None st1
            = (Ok (length (objs st1)), st_b)) as Hmap'.
  { apply Hmap. intros idx Hv. eapply read_prefix; [|by apply well_formed_read].
    subst st1. by apply prefix_app_r. }
  assert (objs st_b !! x = Some ox) as Hxb.
  { subst st_b. apply lookup_app_l_Some. subst st1.
    by apply lookup_app_l_Some. }
  assert (objs st_b !! length (objs st1) = Some od) as Hdb
    by (subst st_b; by apply list_lookup_middle).
  destruct (accumulate_run other st_b x (length (objs st1)) ox od
              (fun _ => 0%float)
              (fun idx => operators.neg (entry (heap st) (_tensor og) idx))
              Hxb Htf Hdb) as (st2 & Hacc & Hpost).
  { done. }
  { intros idx Hv. cbn [od fresh _tensor]. rewrite Hshape.
    apply (read_contiguous _ _ _
             (fun idx => operators.neg (entry (heap st) (_tensor og) idx)));
      [|done].
    subst st_b. rewrite Hshape. by apply list_lookup_middle. }
  { by rewrite Hd. }
  exists y, st1, st2. split; [done|]. split.
  { unfold Tensor_backward. rewrite ret_bind. unfold Variable_backward.
    rewrite (bind_run _ _ _ _ _ (Tensor_shape_run _ _ _ Hy)).
    rewrite (bind_run _ _ _ _ _ (Tensor_shape_run _ _ _ Hg1)).
    rewrite bool_decide_eq_true_2 by done. mnorm.
    rewrite (bind_run _ _ _ _ _ (deref_run _ _ _ Hy)).
    cbn [oy recorded Variable___init__ back].
    eapply backpropagate_last.
    - erewrite (visit_unary other st1 st_b y g (length (objs st1)) x oy Neg
                  (mkContext VNone) []);
        [|apply lookup_singleton_eq|exact Hy|done|]; cycle 1.
      { cbn [backward]. unfold Neg_backward, neg_map.
        cbn [map TensorOps.backend]. by rewrite (bind_run _ _ _ _ _ Hmap'). }
      erewrite (bind_run (Tensor_expand _ _ _)); cycle 1.
      { eapply expand_same; [exact Hxb|exact Hdb|done]. }
      rewrite (contribute_leaf other _ _ _ _ _ Hxb Hb Hrg).
      by rewrite (bind_run _ _ _ _ _ Hacc).
    - intros k Hk. apply lookup_singleton_ne. lia. }
  intros idx v Hget. destruct (getitem_read _ _ _ _ _ _ Hg Hget) as [Hv <-].
  rewrite Hshape in Hv.
  by rewrite (grad_getitem_run _ _ _ _ _ _ _ Hpost Hv).
Qed.

Definition store_leaf_and_seed : Store :=
  mkStore [[2%float; 3%float]; [10%float; 20%float]]
    [leaf (mkTensorData 0 [2] [1]);
     fresh (mkTensorData 1 [2] [1]) TensorFunctions].

Lemma neg_backward_seeded_witness :
  exists y st1 st2,
    Tensor___neg__ TensorOps.backend 0 store_leaf_and_seed = (Ok y, st1) /\
    Tensor_backward TensorOps.backend y (Some 1) st1 = (Ok tt, st2) /\
    forall idx v,
      Tensor___getitem__ 1 idx store_leaf_and_seed
        = (Ok v, store_leaf_and_seed) ->
      Tensor_grad_getitem 0 idx st2 = (Ok (0 + - v)%float, st2).
Proof.
  apply (neg_backward_seeded TensorOps.backend store_leaf_and_seed 0 1
           (leaf (mkTensorData 0 [2] [1]))
           (fresh (mkTensorData 1 [2] [1]) TensorFunctions)).
  - repeat split; reflexivity.
  - reflexivity.
  - reflexivity.
  - reflexivity.
Defined.

(** ** Division by a number *)

(** X24. [t / b] for a Python number [b]: a zero [b] (0.0 or -0.0) raises
    ZeroDivisionError, from [1 / b], before anything is created; for any
    other [b] the reciprocal is wrapped into a tensor and the product
    raises NotImplementedError, [Mul] being left unimplemented. *)
Theorem truediv_raises (other : Backend) (st : Store) (self : nat)
    (o : Tensor) (b : float) :
  objs st !! self = Some o ->
  ((b =? 0)%float = true ->
   Tensor___truediv__ other self b st = (Raise ZeroDivisionError, st)) /\
  ((b =? 0)%float = false ->
   fst (Tensor___truediv__ other self b st)
     = Raise (NotImplementedError past_assignment)).
Proof.
  intros Ho. unfold Tensor___truediv__, reciprocal.
  rewrite (bind_run _ _ _ _ _ (deref_run _ _ _ Ho)).
  split; intros Hb; rewrite Hb.
  - reflexivity.
  - rewrite ret_bind, (bind_run _ _ _ _ _ (tensor_run _ _)). unfold apply.
    erewrite apply2_raise; [done| | |reflexivity].
    + cbn [objs]. by apply lookup_app_l_Some.
    + cbn [objs]. by apply list_lookup_middle.
Qed.

Lemma truediv_raises_witness :
  Tensor___truediv__ TensorOps.backend 0 0%float two_vectors
    = (Raise ZeroDivisionError, two_vectors) /\
  Tensor___truediv__ TensorOps.backend 0 (-0)%float two_vectors
    = (Raise ZeroDivisionError, two_vectors) /\
  fst (Tensor___truediv__ TensorOps.backend 0 2%float two_vectors)
    = Raise (NotImplementedError past_assignment).
Proof.
  split; [|split].
  - apply (proj1 (truediv_raises TensorOps.backend two_vectors 0
                    (fresh (mkTensorData 0 [2] [1]) TensorFunctions)
                    0%float eq_refl)).
    reflexivity.
  - apply (proj1 (truediv_raises TensorOps.backend two_vectors 0
                    (fresh (mkTensorData 0 [2] [1]) TensorFunctions)
                    (-0)%float eq_refl)).
    reflexivity.
  - apply (proj2 (truediv_raises TensorOps.backend two_vectors 0
                    (fresh (mkTensorData 0 [2] [1]) TensorFunctions)
                    2%float eq_refl)).
    reflexivity.
Defined.

(** * Swapping the backend *)

(** ** The contract of map, zip and reduce *)

Section Contract.

Import TensorData.










(** *** The sequential backend honors the contract *)








(** *** What an operation of the catalog computes *)












(** *** The operations that do not go through the backend *)







(** ** A second backend *)





End Contract.

(** A backend whose [map] fills the output from the last cell to the
    first; its [zip] and [reduce] are the sequential ones. *)
Module ReverseOps.

Definition map (fn : float -> float) (a : nat) (out : option nat) : M nat :=
  a_shape <- Tensor_shape a ;;
  out <- match out with
         | Some out => ret out
         | None => Tensor_zeros a (Some a_shape)
         end ;;
  out_shape <- Tensor_shape out ;;
  s <- lift (TensorData.shape_broadcast a_shape out_shape) ;;
  (if bool_decide (s = out_shape) then ret tt else raise ShapeMismatch) ;;
  for_each (reverse (TensorData.indices out_shape)) (fun out_index =>
    v <- Tensor___getitem__ a (TensorData.broadcast_index out_index a_shape) ;;
    Tensor___setitem__ out out_index (fn v)) ;;
  ret out.

Definition backend : Backend :=
  mkBackend map TensorOps.zip (fun fn => TensorOps.reduce fn 0%float).

End ReverseOps.



(** [ReverseOps.map] is not [TensorOps.map]: on a tensor whose storage is
    too short they stop at different cells, and leave different stores
    behind. *)
Definition store_short : Store :=
  mkStore [[2%float]] [fresh (mkTensorData 0 [3] [1]) TensorFunctions].

Lemma ReverseOps_map_differs :
  snd (ReverseOps.map operators.neg 0 None store_short)
    <> snd (TensorOps.map operators.neg 0 None store_short).
Proof. vm_compute. intros H. discriminate H. Qed.


